(** * fusion_tcv/transforms.py: error-to-reward transforms

    A shallow embedding of [src/fusion_tcv/transforms.py].

    Python's [float] is IEEE-754 binary64, which is what Rocq's primitive
    [float] is: [+], [-], [*], [/], [abs], unary minus and the comparisons
    below are the bit-exact operations the interpreter performs.  The int
    literals of the source ([0], [1], [2], [-50], [50]) only ever meet floats
    in arithmetic and comparisons, where Python converts them exactly; they
    are written as the floats of the same value.

    What the interpreter adds on top of the hardware is modelled explicitly:
    the exceptions of float division, [math.exp], [math.log] and [**], and
    the complex result of [**] on a negative base, each after the CPython
    function that implements it.  The C library behind [math.exp],
    [math.log] and [**] is a parameter ([Libm]): its functions are pure
    functions of their arguments, and the range errors CPython detects are
    the ones visible in the result (an infinite or NaN value).  Properties
    that depend on the values of [exp] are stated under [exp_spec], and
    [ref_libm] is an executable library that satisfies it. *)

From Stdlib Require Import ZArith QArith List Bool Lia Floats Permutation.
Import ListNotations.

(** ** Results of Python expressions *)

(** The exceptions this module can raise. *)
Inductive pyerr : Type :=
| ZeroDivisionError
| ValueError
| OverflowError.

Inductive result (A : Type) : Type :=
| Ok (a : A)
| Raise (e : pyerr).

Arguments Ok {A} a.
Arguments Raise {A} e.

Definition bind {A B : Type} (r : result A) (k : A -> result B) : result B :=
  match r with
  | Ok a => k a
  | Raise e => Raise e
  end.

Notation "x <- r ;; k" := (bind r (fun x => k))
  (at level 61, r at next level, right associativity).

(** A number a transform can hand back: a float, or the complex number that
    [float ** float] produces for a negative base and a fractional exponent. *)
Inductive pynum : Type :=
| PyFloat (x : float)
| PyComplex (re im : float).


(** A list comprehension [[f(error) for error in errors]]: elements are
    evaluated left to right and the first exception aborts the whole call. *)
Fixpoint list_comp {A B : Type} (f : A -> result B) (errors : list A)
  : result (list B) :=
  match errors with
  | [] => Ok []
  | error :: rest =>
      r <- f error ;;
      rs <- list_comp f rest ;;
      Ok (r :: rs)
  end.

(** ** Float primitives of the interpreter *)

(** [math.isnan]. *)
Definition isnan (x : float) : bool := is_nan x.

(** The builtins [min(a, b)] and [max(a, b)]: the first argument is kept
    unless the second compares strictly below (above) it. *)
Definition py_min (a b : float) : float := if (b <? a)%float then b else a.
Definition py_max (a b : float) : float := if (a <? b)%float then b else a.

(** Float true division: a zero divisor (of either sign) raises. *)
Definition float_div (a b : float) : result float :=
  if (b =? 0)%float then Raise ZeroDivisionError else Ok (a / b)%float.

(** [x == floor(x)] for a finite [x], read off the binary representation. *)
Definition float_is_integer (x : float) : bool :=
  match Prim2SF x with
  | S754_zero _ => true
  | S754_finite _ m e =>
      (0 <=? e)%Z || (Z.pos m mod 2 ^ (- e) =? 0)%Z
  | _ => false
  end.

(** [DOUBLE_IS_ODD_INTEGER(x)], that is [fmod(fabs(x), 2.0) == 1.0]. *)
Definition float_is_odd_integer (x : float) : bool :=
  match Prim2SF x with
  | S754_finite _ m e =>
      if (0 <? e)%Z then false
      else (Z.pos m mod 2 ^ (- e) =? 0)%Z && Z.odd (Z.pos m / 2 ^ (- e))
  | _ => false
  end.

(** ** The C library *)

Record Libm : Type := {
  c_exp : float -> float;                   (* exp *)
  c_log : float -> float;                   (* log *)
  c_pow : float -> float -> float;          (* pow *)
  c_cpow : float -> float -> float * float  (* _Py_c_pow on (v+0j, w+0j) *)
}.

Section Transforms.

Variable libm : Libm.

(** [math.exp]: CPython's [math_1] wrapper with [can_overflow = 1]. *)
Definition math_exp (x : float) : result float :=
  let r := c_exp libm x in
  if is_nan r && negb (is_nan x) then Raise ValueError
  else if is_infinity r && is_finite x then Raise OverflowError
  else Ok r.

(** [math.log] on a float: CPython's [m_log] under [math_1] with
    [can_overflow = 0]. *)
Definition m_log (x : float) : float :=
  if is_finite x then
    if (0 <? x)%float then c_log libm x
    else if (x =? 0)%float then neg_infinity
    else nan
  else if is_nan x then x
  else if (0 <? x)%float then x
  else nan.

Definition math_log (x : float) : result float :=
  let r := m_log x in
  if is_nan r && negb (is_nan x) then Raise ValueError
  else if is_infinity r && is_finite x then Raise ValueError
  else Ok r.

(** The complex branch of [**]: [complex_pow] raises when a component of the
    result is infinite. *)
Definition complex_pow (v w : float) : result pynum :=
  let '(re, im) := c_cpow libm v w in
  if is_infinity re || is_infinity im then Raise OverflowError
  else Ok (PyComplex re im).

(** [v ** w] on floats: CPython's [float_pow]. *)
Definition float_pow (v w : float) : result pynum :=
  if (w =? 0)%float then Ok (PyFloat 1)
  else if is_nan v then Ok (PyFloat v)
  else if is_nan w then Ok (PyFloat (if (v =? 1)%float then 1%float else w))
  else if is_infinity w then
    let av := abs v in
    if (av =? 1)%float then Ok (PyFloat 1)
    else if Bool.eqb (0 <? w)%float (1 <? av)%float then Ok (PyFloat (abs w))
    else Ok (PyFloat 0)
  else if is_infinity v then
    let odd := float_is_odd_integer w in
    if (0 <? w)%float then Ok (PyFloat (if odd then v else abs v))
    else Ok (PyFloat (if odd then (if get_sign v then neg_zero else zero) else zero))
  else if (v =? 0)%float then
    if (w <? 0)%float then Raise ZeroDivisionError
    else Ok (PyFloat (if float_is_odd_integer w then v else zero))
  else if (v <? 0)%float && negb (float_is_integer w) then complex_pow v w
  else
    let negate_result := (v <? 0)%float && float_is_odd_integer w in
    let av := if (v <? 0)%float then (- v)%float else v in
    if (av =? 1)%float then Ok (PyFloat (if negate_result then (-1)%float else 1%float))
    else
      let ix := c_pow libm av w in
      if is_infinity ix then Raise OverflowError
      else Ok (PyFloat (if negate_result then (- ix)%float else ix)).

(** ** Utility functions *)

Definition clip_value (value min_val max_val : float) : float :=
  if isnan value then value else py_max min_val (py_min max_val value).

Definition scale_value (value old_min old_max new_min new_max : float)
  : result float :=
  q <- float_div ((value - old_min) * (new_max - new_min))%float
                 (old_max - old_min)%float ;;
  Ok (new_min + q)%float.

Definition logistic_value (value : float) : result float :=
  let clipped := clip_value value (-50)%float 50%float in
  e <- math_exp (- clipped)%float ;;
  float_div 1%float (1 + e)%float.

(** ** Transformation classes *)

(** An instance of one of the nine subclasses of [RewardTransform], with the
    attributes its [__init__] stores. *)
Inductive RewardTransform : Type :=
| EqualReward (nonzero_value : float)
| AbsoluteReward
| NegatedReward
| PowerReward (exponent : float)
| LogReward (offset : float)
| LinearClippedReward (bad_value good_value : float)
| SoftPlusReward (bad_value good_value sharpness : float)
| NegExpReward (bad_value good_value sharpness : float)
| SigmoidReward (bad_value good_value low_sharpness high_sharpness : float).

(** The element expression of each [__call__]. *)
Definition reward (t : RewardTransform) (error : float) : result pynum :=
  match t with
  | EqualReward nonzero_value =>
      Ok (PyFloat (if isnan error then error
                   else if (error =? 0)%float then 1%float else nonzero_value))
  | AbsoluteReward => Ok (PyFloat (abs error))
  | NegatedReward => Ok (PyFloat (- error)%float)
  | PowerReward exponent => float_pow error exponent
  | LogReward offset =>
      r <- math_log (error + offset)%float ;;
      Ok (PyFloat r)
  | LinearClippedReward bad_value good_value =>
      s <- scale_value error bad_value good_value 0%float 1%float ;;
      Ok (PyFloat (clip_value s 0%float 1%float))
  | SoftPlusReward bad_value good_value sharpness =>
      s <- scale_value error bad_value good_value sharpness 0%float ;;
      l <- logistic_value s ;;
      Ok (PyFloat (clip_value (2 * l)%float 0%float 1%float))
  | NegExpReward bad_value good_value sharpness =>
      s <- scale_value error bad_value good_value sharpness 0%float ;;
      e <- math_exp (- s)%float ;;
      Ok (PyFloat (clip_value e 0%float 1%float))
  | SigmoidReward bad_value good_value low_sharpness high_sharpness =>
      s <- scale_value error bad_value good_value low_sharpness high_sharpness ;;
      l <- logistic_value s ;;
      Ok (PyFloat l)
  end.

(** [t(errors)], the [__call__] of the instance [t]. *)
Definition call (t : RewardTransform) (errors : list float)
  : result (list pynum) :=
  list_comp (reward t) errors.

End Transforms.

(** Default constructor arguments that are plain literals. *)
Definition EqualReward_default : RewardTransform := EqualReward 0%float.
Definition LogReward_default : RewardTransform :=
  LogReward 0x1.a36e2eb1c432dp-14%float.  (* 1e-4 *)

(** The constructors with their default sharpness.  A default is evaluated
    once, when the class is defined.  [math.log(19)], on the int 19, is
    [m_log] of the converted value with no error check (CPython's
    [loghelper]); [math.log(0.1)], on a float, goes through [math_1], and a
    failure there would be raised at import. *)
Definition SoftPlusReward_default (libm : Libm) (bad_value good_value : float)
  : RewardTransform :=
  SoftPlusReward bad_value good_value (- m_log libm 19)%float.

Definition NegExpReward_default (libm : Libm) (bad_value good_value : float)
  : result RewardTransform :=
  l <- math_log libm 0x1.999999999999ap-4%float ;;
  Ok (NegExpReward bad_value good_value (- l)%float).

Definition SigmoidReward_default (libm : Libm) (bad_value good_value : float)
  : RewardTransform :=
  SigmoidReward bad_value good_value (- m_log libm 19)%float (m_log libm 19).

(** ** Values of floats and rounding to nearest

    Every float that is not NaN has an integer value in units of [2^-1074],
    the spacing of the subnormals; the infinities sit just outside the finite
    range.  [rn_float N D] is IEEE round-to-nearest-even of the non-negative
    rational [N / D] (in the same units) into binary64, written in closed
    form; the lemmas below show that float addition and division compute
    exactly this. *)

Local Open Scope Z_scope.

Definition Zinf : Z := 2 ^ 2148.   (* stands for +infinity *)
Definition Zone : Z := 2 ^ 1074.   (* the value of 1.0 *)
Definition Ztop : Z := 2 ^ 1148.   (* the value of 2^74 *)

Definition Zval (x : spec_float) : Z :=
  match x with
  | S754_zero _ => 0
  | S754_infinity s => if s then - Zinf else Zinf
  | S754_nan => 0
  | S754_finite s m e =>
      if s then - (Z.pos m * 2 ^ (e + 1074)) else Z.pos m * 2 ^ (e + 1074)
  end.

Definition sf_is_nan (x : spec_float) : bool :=
  match x with S754_nan => true | _ => false end.

(** Zeros and finite numbers. *)
Definition sf_finite (x : spec_float) : bool :=
  match x with
  | S754_zero _ | S754_finite _ _ _ => true
  | _ => false
  end.

(** Finite non-zero numbers and infinities. *)
Definition sf_nonzero (x : spec_float) : bool :=
  match x with
  | S754_finite _ _ _ | S754_infinity _ => true
  | _ => false
  end.

Definition fval (x : float) : Z := Zval (Prim2SF x).

(** Integer rounding of [N / D] to nearest, ties to even. *)
Definition rne (N D : Z) : Z :=
  let q := N / D in
  match 2 * (N mod D) ?= D with
  | Lt => q
  | Eq => if Z.even q then q else q + 1
  | Gt => q + 1
  end.

Definition rn_shift (N D : Z) : Z := Z.max (Z.log2 (N / D) - 52) 0.

Definition rn_mant (N D : Z) : Z :=
  let k := rne N (D * 2 ^ rn_shift N D) in
  if k =? 2 ^ 53 then 2 ^ 52 else k.

Definition rn_exp (N D : Z) : Z :=
  let k := rne N (D * 2 ^ rn_shift N D) in
  if k =? 2 ^ 53 then rn_shift N D + 1 else rn_shift N D.

Definition rn_float (N D : Z) : spec_float :=
  match rn_mant N D with
  | Z.pos p => if rn_exp N D <=? 2045 then S754_finite false p (rn_exp N D - 1074)
               else S754_infinity false
  | _ => S754_zero false
  end.

(** The location of [N / D] between two integers, and the shift record that
    carries it. *)
Definition loc_of (N D : Z) : location :=
  if N mod D =? 0 then loc_Exact else loc_Inexact (2 * (N mod D) ?= D).

Definition rec_of (N D : Z) : shr_record :=
  shr_record_of_loc (N / D) (loc_of N D).

(** ** A reference C library

    An executable [Libm] in 160-bit fixed point, used to evaluate the
    transforms on concrete inputs.  [exp] is [(1 + x / 2^80) ^ (2^80)] by
    eighty truncated squarings, which is monotone by construction; [log] is
    the [atanh] series on the mantissa; [pow] is [exp (y * log x)]; [cos] and
    [sin] are Taylor series after reduction modulo [2 * pi]. *)

Definition fp : Z := 160.
Definition fx_one : Z := 2 ^ fp.
Definition fx_mul (a b : Z) : Z := (a * b) / fx_one.

Fixpoint sq_iter (n : nat) (t : Z) : Z :=
  match n with
  | O => t
  | S n' => sq_iter n' (fx_mul t t)
  end.

Definition exp_fix (a : Z) : Z := sq_iter 80 (fx_one + a / 2 ^ 80).

(** [e ^ (a / 2^fp)], or its reciprocal when [neg], rounded to a float. *)
Definition exp_of_fix (neg : bool) (a : Z) : spec_float :=
  if 1024 * fx_one <? a then (if neg then S754_zero false else S754_infinity false)
  else
    let g := exp_fix a in
    if neg then rn_float (2 ^ (1074 + fp)) g
    else rn_float (g * 2 ^ (1074 - fp)) 1.

Definition exp_round (z : Z) : spec_float :=
  exp_of_fix (z <? 0) (Z.abs z / 2 ^ (1074 - fp)).

Definition ref_exp (x : float) : float :=
  if is_nan x then nan else SF2Prim (exp_round (fval x)).

Definition fx_to_float (a : Z) : float :=
  if a <? 0 then SF2Prim (SFopp (rn_float (- a * 2 ^ (1074 - fp)) 1))
  else SF2Prim (rn_float (a * 2 ^ (1074 - fp)) 1).

Definition fx_of_float (x : float) : Z :=
  match Prim2SF x with
  | S754_finite s m e =>
      let a := Z.shiftl (Z.pos m) (e + fp) in if s then - a else a
  | _ => 0
  end.

(** [sum_{j < n} z^(2 (i + j) + 1) / (2 (i + j) + 1)] with [term = z^(2i+1)]. *)
Fixpoint atanh_series (n : nat) (z2 term : Z) (i : Z) : Z :=
  match n with
  | O => 0
  | S n' => term / (2 * i + 1) + atanh_series n' z2 (fx_mul term z2) (i + 1)
  end.

(** [ln y] for [y] in [[1, 2]]. *)
Definition log_1_2 (y : Z) : Z :=
  let z := (y - fx_one) * fx_one / (y + fx_one) in
  2 * atanh_series 60 (fx_mul z z) z 0.

Definition ln2_fix : Z := Eval vm_compute in log_1_2 (2 * fx_one).

Definition log_fix (m : positive) (e : Z) : Z :=
  let d := Z.log2 (Z.pos m) in
  (e + d) * ln2_fix + log_1_2 (Z.pos m * 2 ^ (fp - d)).

Definition ref_log (x : float) : float :=
  match Prim2SF x with
  | S754_finite false m e => fx_to_float (log_fix m e)
  | S754_infinity false => infinity
  | S754_zero _ => neg_infinity
  | _ => nan
  end.

(** [pow] on the arguments [float_pow] passes to it: a positive finite base
    and a finite exponent. *)
Definition ref_pow (x y : float) : float :=
  match Prim2SF x, Prim2SF y with
  | S754_finite false mx ex, S754_finite sy my ey =>
      let l := log_fix mx ex in
      SF2Prim (exp_of_fix (xorb (l <? 0) sy) (Z.shiftl (Z.abs l * Z.pos my) ey))
  | _, _ => nan
  end.

(** [atan (1 / n)] by its alternating series, [n2 = n * n]. *)
Fixpoint atan_inv_series (k : nat) (n2 term : Z) (i : Z) : Z :=
  match k with
  | O => 0
  | S k' => term / (2 * i + 1) - atan_inv_series k' n2 (term / n2) (i + 1)
  end.

Definition pi_fix : Z := Eval vm_compute in
  16 * atan_inv_series 120 25 (fx_one / 5) 0
  - 4 * atan_inv_series 40 (239 * 239) (fx_one / 239) 0.

Fixpoint cos_series (k : nat) (r2 term : Z) (i : Z) : Z :=
  match k with
  | O => 0
  | S k' =>
      term - cos_series k' r2 (fx_mul term r2 / ((i + 1) * (i + 2))) (i + 2)
  end.

Definition cos_fix (r : Z) : Z := cos_series 40 (fx_mul r r) fx_one 0.
Definition sin_fix (r : Z) : Z := cos_series 40 (fx_mul r r) r 1.

Definition reduce_2pi (a : Z) : Z :=
  let r := a mod (2 * pi_fix) in
  if pi_fix <? r then r - 2 * pi_fix else r.

Definition ref_cos (x : float) : float :=
  fx_to_float (cos_fix (reduce_2pi (fx_of_float x))).
Definition ref_sin (x : float) : float :=
  fx_to_float (sin_fix (reduce_2pi (fx_of_float x))).

Definition pi_float : float := Eval vm_compute in fx_to_float pi_fix.

(** [_Py_c_pow] on [(v + 0j, w + 0j)] for a negative [v]: [atan2 (0, v)] is
    the double nearest to pi. *)
Definition ref_cpow (v w : float) : float * float :=
  let len := ref_pow (abs v) w in
  let phase := (pi_float * w)%float in
  ((len * ref_cos phase)%float, (len * ref_sin phase)%float).

Definition ref_libm : Libm :=
  {| c_exp := ref_exp; c_log := ref_log; c_pow := ref_pow; c_cpow := ref_cpow |}.

(** What the transforms need from the platform's [exp]: the special values
    of C99 Annex F, monotonicity, and the size of [exp] at the two clamp
    bounds of [logistic_value]. *)
Definition exp_spec (f : float -> float) : Prop :=
  f nan = nan /\
  f 0%float = 1%float /\ f (-0)%float = 1%float /\
  (forall x y, (x <=? y)%float = true -> (f x <=? f y)%float = true) /\
  (0 <=? f (-50)%float)%float = true /\
  (f 50%float <=? 0x1p73)%float = true.

(** ** Vocabulary of the properties *)

(** The instances through which a NaN error comes back as NaN. *)
Definition nan_passes (t : RewardTransform) : bool :=
  match t with
  | PowerReward exponent => negb (exponent =? 0)%float
  | LinearClippedReward bad_value good_value
  | SoftPlusReward bad_value good_value _
  | NegExpReward bad_value good_value _
  | SigmoidReward bad_value good_value _ _ =>
      negb (good_value - bad_value =? 0)%float
  | _ => true
  end.



(** The transforms that rescale the error between two thresholds, with
    their [bad_value] and [good_value]. *)
Definition thresholds (t : RewardTransform) : option (float * float) :=
  match t with
  | LinearClippedReward bad_value good_value
  | SoftPlusReward bad_value good_value _
  | NegExpReward bad_value good_value _
  | SigmoidReward bad_value good_value _ _ => Some (bad_value, good_value)
  | _ => None
  end.


(** Round-to-nearest of a rational [N / D] of either sign ([0 < D]), and
    the value of the result. *)
Definition rn_signed (N D : Z) : spec_float :=
  if N <? 0 then SFopp (rn_float (- N) D) else rn_float N D.

Definition rnZ (N D : Z) : Z := Zval (rn_signed N D).

(** A bound above the value of every finite float. *)
Definition Zmax : Z := 2 ^ 2098.

(** The rescaling transforms whose new range runs the way their last step
    expects, so that the reward rises from [bad_value] to [good_value]:
    [SoftPlusReward] with a sharpness [<= 0], [NegExpReward] with a
    sharpness [>= 0] (the signs of the defaults), [SigmoidReward] with
    [low_sharpness <= high_sharpness]. *)
Definition oriented (t : RewardTransform) : bool :=
  match t with
  | LinearClippedReward _ _ => true
  | SoftPlusReward _ _ sharpness => (sharpness <=? 0)%float
  | NegExpReward _ _ sharpness => (0 <=? sharpness)%float
  | SigmoidReward _ _ low_sharpness high_sharpness =>
      (low_sharpness <=? high_sharpness)%float
  | _ => false
  end.

(** Python's unary minus on a number. *)
Definition neg_pynum (v : pynum) : pynum :=
  match v with
  | PyFloat x => PyFloat (- x)%float
  | PyComplex re im => PyComplex (- re)%float (- im)%float
  end.

(** The instances of [SoftPlusReward] and [SigmoidReward] built from
    numbers: a finite [bad_value], a [good_value] at a finite, non-zero
    distance from it, and a new range with a finite start and a finite,
    non-zero extent. *)
Definition finite_range (x y : float) : bool :=
  is_finite x && is_finite (y - x)%float && negb (x =? y)%float.

Definition logistic_parameters (t : RewardTransform) : bool :=
  match t with
  | SoftPlusReward bad_value good_value sharpness =>
      finite_range bad_value good_value && finite_range sharpness 0%float
  | SigmoidReward bad_value good_value low_sharpness high_sharpness =>
      finite_range bad_value good_value && finite_range low_sharpness high_sharpness
  | _ => false
  end.

(** * Properties *)

(** ** Binary64 mantissas *)

Lemma digits2_pos_bounds (m : positive) :
  2 ^ (Z.pos (digits2_pos m) - 1) <= Z.pos m < 2 ^ Z.pos (digits2_pos m).
Proof.
  induction m as [m IH | m IH |]; cbn [digits2_pos].
  - rewrite Pos2Z.inj_succ.
    replace (Z.succ (Z.pos (digits2_pos m)) - 1) with (Z.succ (Z.pos (digits2_pos m) - 1)) by lia.
    rewrite !Z.pow_succ_r by lia. lia.
  - rewrite Pos2Z.inj_succ.
    replace (Z.succ (Z.pos (digits2_pos m)) - 1) with (Z.succ (Z.pos (digits2_pos m) - 1)) by lia.
    rewrite !Z.pow_succ_r by lia. lia.
  - cbn. lia.
Qed.

Lemma bounded_canonical (m : positive) (e : Z) :
  bounded prec emax m e = true ->
  - 1074 <= e <= 971 /\ Z.pos m < 2 ^ 53 /\ (- 1074 < e -> 2 ^ 52 <= Z.pos m).
Proof.
  unfold bounded, canonical_mantissa, fexp, SpecFloat.emin, prec, emax.
  intros H. apply andb_prop in H. destruct H as [H1 H2].
  apply Z.eqb_eq in H1. apply Z.leb_le in H2.
  pose proof (digits2_pos_bounds m) as [Hlo Hhi].
  set (d := Z.pos (digits2_pos m)) in *.
  assert (Hd : 0 < d) by (unfold d; lia).
  assert (d <= 53 /\ - 1074 <= e /\ (- 1074 < e -> d = 53)) as (Hd53 & He & Hn) by lia.
  repeat split; try lia.
  - eapply Z.lt_le_trans; [exact Hhi|]. apply Z.pow_le_mono_r; lia.
  - intros Hlt. rewrite (Hn Hlt) in Hlo. exact Hlo.
Qed.

Lemma finite_val_lt (m1 m2 : positive) (e1 e2 : Z) :
  bounded prec emax m1 e1 = true -> bounded prec emax m2 e2 = true ->
  e1 < e2 ->
  Z.pos m1 * 2 ^ (e1 + 1074) < Z.pos m2 * 2 ^ (e2 + 1074).
Proof.
  intros H1 H2 Hlt.
  apply bounded_canonical in H1, H2.
  destruct H1 as (He1 & Hm1 & _), H2 as (He2 & _ & Hm2).
  specialize (Hm2 ltac:(lia)).
  assert (HA : 0 < 2 ^ (e1 + 1074)) by (apply Z.pow_pos_nonneg; lia).
  assert (HB : 2 * 2 ^ (e1 + 1074) <= 2 ^ (e2 + 1074)).
  { rewrite <- Z.pow_succ_r by lia. apply Z.pow_le_mono_r; lia. }
  set (A := 2 ^ (e1 + 1074)) in *. set (B := 2 ^ (e2 + 1074)) in *.
  change (2 ^ 53) with 9007199254740992 in Hm1.
  change (2 ^ 52) with 4503599627370496 in Hm2.
  nia.
Qed.

Lemma finite_val_bound (m : positive) (e : Z) :
  bounded prec emax m e = true ->
  0 < Z.pos m * 2 ^ (e + 1074) < Zinf.
Proof.
  intros H. apply bounded_canonical in H. destruct H as (He & Hm & _).
  assert (HA : 0 < 2 ^ (e + 1074)) by (apply Z.pow_pos_nonneg; lia).
  split; [lia|].
  apply Z.lt_le_trans with (2 ^ 53 * 2 ^ (e + 1074)).
  - apply Z.mul_lt_mono_pos_r; assumption.
  - unfold Zinf. rewrite <- Z.pow_add_r by lia. apply Z.pow_le_mono_r; lia.
Qed.

Lemma Zinf_pos : 0 < Zinf.
Proof. unfold Zinf. apply Z.pow_pos_nonneg; lia. Qed.

Lemma Zone_pos : 0 < Zone.
Proof. unfold Zone. apply Z.pow_pos_nonneg; lia. Qed.

Lemma Zmul_compare_r (a b c : Z) : 0 < c -> (a * c ?= b * c) = (a ?= b).
Proof.
  intros Hc. destruct (Z.compare_spec a b) as [E | L | G].
  - subst. apply Z.compare_refl.
  - apply Z.compare_lt_iff. nia.
  - apply Z.compare_gt_iff. nia.
Qed.

Lemma SFcompare_Zval (x y : spec_float) :
  valid_binary x = true -> valid_binary y = true ->
  sf_is_nan x = false -> sf_is_nan y = false ->
  SFcompare x y = Some (Zval x ?= Zval y).
Proof.
  intros Vx Vy Nx Ny.
  pose proof Zinf_pos as HB.
  destruct x as [sx | sx | | sx mx ex], y as [sy | sy | | sy my ey];
    try discriminate; cbn [SFcompare Zval valid_binary] in *;
    try (pose proof (finite_val_bound mx ex Vx));
    try (pose proof (finite_val_bound my ey Vy));
    try (pose proof (proj1 (bounded_canonical mx ex Vx)));
    try (pose proof (proj1 (bounded_canonical my ey Vy)));
    try (destruct sx); try (destruct sy); f_equal; symmetry;
    try (apply Z.compare_eq_iff; lia);
    try (apply Z.compare_lt_iff; lia);
    try (apply Z.compare_gt_iff; lia).
  - (* both negative *)
    rewrite Z.compare_opp.
    destruct (Z.compare_spec ex ey) as [E | L | G].
    + subst ey. rewrite Zmul_compare_r by (apply Z.pow_pos_nonneg; lia).
      rewrite Pos.compare_cont_spec, (Pos.compare_antisym my mx).
      change (Z.pos my ?= Z.pos mx) with (my ?= mx)%positive.
      destruct (my ?= mx)%positive; reflexivity.
    + apply Z.compare_gt_iff. apply finite_val_lt; assumption.
    + apply Z.compare_lt_iff. apply finite_val_lt; assumption.
  - destruct (Z.compare_spec ex ey) as [E | L | G].
    + subst ey. rewrite Zmul_compare_r by (apply Z.pow_pos_nonneg; lia).
      rewrite Pos.compare_cont_spec. cbn. destruct (mx ?= my)%positive; reflexivity.
    + apply Z.compare_lt_iff. apply finite_val_lt; assumption.
    + apply Z.compare_gt_iff. apply finite_val_lt; assumption.
Qed.

(** ** Comparisons of primitive floats through their values *)

Lemma is_nan_spec (x : float) : is_nan x = sf_is_nan (Prim2SF x).
Proof.
  unfold is_nan. rewrite eqb_spec. unfold SFeqb.
  destruct (Prim2SF x) as [s | s | | s m e]; cbn [SFcompare sf_is_nan negb]; try reflexivity.
  - destruct s; reflexivity.
  - rewrite Z.compare_refl, Pos.compare_cont_refl. destruct s; reflexivity.
Qed.

Lemma is_nan_eq (x : float) : is_nan x = true -> x = nan.
Proof.
  rewrite is_nan_spec. intros H. apply Prim2SF_inj.
  destruct (Prim2SF x); try discriminate. reflexivity.
Qed.

Lemma compare_fval (x y : float) :
  is_nan x = false -> is_nan y = false ->
  SFcompare (Prim2SF x) (Prim2SF y) = Some (fval x ?= fval y).
Proof.
  rewrite !is_nan_spec. intros Nx Ny.
  apply SFcompare_Zval; auto using Prim2SF_valid.
Qed.

Lemma compare_nan (x y : float) :
  is_nan x = true \/ is_nan y = true ->
  SFcompare (Prim2SF x) (Prim2SF y) = None.
Proof.
  rewrite !is_nan_spec.
  destruct (Prim2SF x), (Prim2SF y); cbn; intros [H | H]; try discriminate; reflexivity.
Qed.

Lemma ltb_true_iff (x y : float) :
  (x <? y)%float = true <-> is_nan x = false /\ is_nan y = false /\ fval x < fval y.
Proof.
  rewrite ltb_spec. unfold SFltb.
  destruct (is_nan x) eqn:Nx; [|destruct (is_nan y) eqn:Ny].
  - rewrite compare_nan by auto. intuition discriminate.
  - rewrite compare_nan by auto. intuition discriminate.
  - rewrite compare_fval by assumption.
    destruct (Z.compare_spec (fval x) (fval y)); intuition (try discriminate; try lia).
Qed.

Lemma leb_true_iff (x y : float) :
  (x <=? y)%float = true <-> is_nan x = false /\ is_nan y = false /\ fval x <= fval y.
Proof.
  rewrite leb_spec. unfold SFleb.
  destruct (is_nan x) eqn:Nx; [|destruct (is_nan y) eqn:Ny].
  - rewrite compare_nan by auto. intuition discriminate.
  - rewrite compare_nan by auto. intuition discriminate.
  - rewrite compare_fval by assumption.
    destruct (Z.compare_spec (fval x) (fval y)); intuition (try discriminate; try lia).
Qed.

Lemma eqb_true_iff (x y : float) :
  (x =? y)%float = true <-> is_nan x = false /\ is_nan y = false /\ fval x = fval y.
Proof.
  rewrite eqb_spec. unfold SFeqb.
  destruct (is_nan x) eqn:Nx; [|destruct (is_nan y) eqn:Ny].
  - rewrite compare_nan by auto. intuition discriminate.
  - rewrite compare_nan by auto. intuition discriminate.
  - rewrite compare_fval by assumption.
    destruct (Z.compare_spec (fval x) (fval y)); intuition (try discriminate; try lia).
Qed.

Lemma ltb_false_iff (x y : float) :
  (x <? y)%float = false <-> is_nan x = true \/ is_nan y = true \/ fval y <= fval x.
Proof.
  rewrite <- Bool.not_true_iff_false, ltb_true_iff.
  destruct (is_nan x), (is_nan y); intuition (try discriminate; try lia).
Qed.

Lemma eqb_false_iff (x y : float) :
  (x =? y)%float = false <-> is_nan x = true \/ is_nan y = true \/ fval x <> fval y.
Proof.
  rewrite <- Bool.not_true_iff_false, eqb_true_iff.
  destruct (is_nan x), (is_nan y); intuition (try discriminate; try lia).
Qed.

(** ** Rounding to nearest *)

(** *** Integer rounding to nearest, ties to even *)

Lemma rne_spec (N D : Z) :
  0 < D ->
  let k := rne N D in
  N / D <= k <= N / D + 1 /\
  - D <= 2 * (k * D - N) <= D /\
  (2 * (k * D - N) = D \/ 2 * (k * D - N) = - D -> Z.even k = true).
Proof.
  intros HD. unfold rne.
  pose proof (Z.div_mod N D ltac:(lia)) as Hdm.
  pose proof (Z.mod_pos_bound N D HD) as Hr.
  set (q := N / D) in *. set (r := N mod D) in *.
  destruct (Z.compare_spec (2 * r) D) as [E | L | G]; cbn zeta.
  - destruct (Z.even q) eqn:Ev.
    + repeat split; try nia. auto.
    + repeat split; try nia. intros _.
      rewrite Z.even_add, Ev. reflexivity.
  - repeat split; try nia; intros [H | H]; nia.
  - repeat split; try nia; intros [H | H]; nia.
Qed.

Lemma rne_mono (N1 D1 N2 D2 : Z) :
  0 < D1 -> 0 < D2 -> N1 * D2 <= N2 * D1 -> rne N1 D1 <= rne N2 D2.
Proof.
  intros H1 H2 Hle.
  destruct (rne_spec N1 D1 H1) as (_ & Hn1 & He1).
  destruct (rne_spec N2 D2 H2) as (_ & Hn2 & He2).
  set (k1 := rne N1 D1) in *. set (k2 := rne N2 D2) in *.
  destruct (Z_le_gt_dec k1 k2) as [|Hgt]; [assumption | exfalso].
  assert (Hk : k2 + 1 <= k1) by lia.
  (* 2 N1 >= (2 k1 - 1) D1 and 2 N2 <= (2 k2 + 1) D2 *)
  assert (A1 : (2 * k1 - 1) * D1 <= 2 * N1) by lia.
  assert (A2 : 2 * N2 <= (2 * k2 + 1) * D2) by lia.
  assert (B1 : (2 * k1 - 1) * D1 * D2 <= 2 * N1 * D2) by nia.
  assert (B2 : 2 * N2 * D1 <= (2 * k2 + 1) * D2 * D1) by nia.
  assert (B3 : (2 * k2 + 1) * (D1 * D2) <= (2 * k1 - 1) * (D1 * D2)) by nia.
  assert (HDD : 0 < D1 * D2) by nia.
  assert (E1 : (2 * k1 - 1) * (D1 * D2) = (2 * k2 + 1) * (D1 * D2)) by nia.
  assert (Ek : k1 = k2 + 1) by nia.
  assert (T1 : 2 * (k1 * D1 - N1) = D1) by nia.
  assert (T2 : 2 * (k2 * D2 - N2) = - D2) by nia.
  specialize (He1 (or_introl T1)). specialize (He2 (or_intror T2)).
  rewrite Ek, Z.even_add, He2 in He1. discriminate.
Qed.

Lemma rne_exact (a D : Z) : 0 < D -> rne (a * D) D = a.
Proof.
  intros HD. unfold rne. rewrite Z.mod_mul, Z.div_mul by lia.
  cbn. destruct D; first [lia | reflexivity].
Qed.

Lemma rne_scale (c N D : Z) : 0 < c -> 0 < D -> rne (N * c) (D * c) = rne N D.
Proof.
  intros Hc HD. unfold rne.
  rewrite Z.div_mul_cancel_r by lia.
  rewrite Z.mul_mod_distr_r by lia.
  replace (2 * (N mod D * c)) with (2 * (N mod D) * c) by ring.
  rewrite Zmul_compare_r by assumption. reflexivity.
Qed.

Lemma div_le_cross (N1 D1 N2 D2 : Z) :
  0 < D1 -> 0 < D2 -> N1 * D2 <= N2 * D1 -> N1 / D1 <= N2 / D2.
Proof.
  intros H1 H2 Hle.
  apply Z.div_le_lower_bound; [assumption|].
  pose proof (Z.mul_div_le N1 D1 H1).
  nia.
Qed.

(** *** The binade of a rounding and the rounded mantissa *)

Lemma rn_shift_facts (N D : Z) :
  0 <= N -> 0 < D ->
  let t := rn_shift N D in
  let f := N / (D * 2 ^ t) in
  0 <= t /\ 0 <= f < 2 ^ 53 /\ (0 < t -> 2 ^ 52 <= f).
Proof.
  intros HN HD t f.
  assert (Ht : 0 <= t) by (unfold t, rn_shift; lia).
  assert (Hp : 0 < 2 ^ t) by (apply Z.pow_pos_nonneg; lia).
  assert (Hq : 0 <= N / D) by (apply Z.div_pos; lia).
  assert (Hf : f = N / D / 2 ^ t) by (unfold f; rewrite Z.div_div by lia; reflexivity).
  split; [exact Ht|]. rewrite Hf. split.
  - split; [apply Z.div_pos; lia|].
    apply Z.div_lt_upper_bound; [lia|].
    destruct (Z.eq_dec (N / D) 0) as [E | NE].
    + rewrite E. apply Z.mul_pos_pos; [lia | reflexivity].
    + pose proof (Z.log2_spec (N / D) ltac:(lia)) as [_ Hhi].
      eapply Z.lt_le_trans; [exact Hhi|].
      rewrite <- Z.pow_add_r by lia.
      apply Z.pow_le_mono_r; [lia|]. unfold t, rn_shift. lia.
  - intros Hpos.
    apply Z.div_le_lower_bound; [lia|].
    assert (Et : t = Z.log2 (N / D) - 52) by (unfold t, rn_shift in *; lia).
    assert (0 < N / D).
    { destruct (Z.eq_dec (N / D) 0) as [E | NE]; [|lia].
      rewrite E in Et. cbn in Et. lia. }
    pose proof (Z.log2_spec (N / D) ltac:(lia)) as [Hlo _].
    rewrite Z.mul_comm, <- Z.pow_add_r by lia.
    replace (52 + t) with (Z.log2 (N / D)) by lia. exact Hlo.
Qed.

Lemma rn_mant_exp_facts (N D : Z) :
  0 <= N -> 0 < D ->
  0 <= rn_mant N D < 2 ^ 53 /\ 0 <= rn_exp N D /\
  (0 < rn_exp N D -> 2 ^ 52 <= rn_mant N D).
Proof.
  intros HN HD. unfold rn_mant, rn_exp.
  destruct (rn_shift_facts N D HN HD) as (Ht & Hf & Hn).
  set (t := rn_shift N D) in *.
  assert (HD' : 0 < D * 2 ^ t) by (apply Z.mul_pos_pos; [lia | apply Z.pow_pos_nonneg; lia]).
  destruct (rne_spec N _ HD') as (Hk & _).
  set (k := rne N (D * 2 ^ t)) in *. set (f := N / (D * 2 ^ t)) in *.
  change (2 ^ 53) with 9007199254740992 in *.
  change (2 ^ 52) with 4503599627370496 in *.
  destruct (Z.eqb_spec k 9007199254740992); lia.
Qed.

Lemma rn_lex_mono (N1 D1 N2 D2 : Z) :
  0 <= N1 -> 0 < D1 -> 0 <= N2 -> 0 < D2 -> N1 * D2 <= N2 * D1 ->
  rn_exp N1 D1 < rn_exp N2 D2 \/
  (rn_exp N1 D1 = rn_exp N2 D2 /\ rn_mant N1 D1 <= rn_mant N2 D2).
Proof.
  intros HN1 HD1 HN2 HD2 Hle.
  assert (Hq : N1 / D1 <= N2 / D2) by (apply div_le_cross; assumption).
  assert (Hq1 : 0 <= N1 / D1) by (apply Z.div_pos; lia).
  assert (Ht : rn_shift N1 D1 <= rn_shift N2 D2).
  { unfold rn_shift. pose proof (Z.log2_le_mono _ _ Hq). lia. }
  unfold rn_mant, rn_exp.
  destruct (rn_shift_facts N1 D1 HN1 HD1) as (Ht1 & Hf1 & Hn1).
  destruct (rn_shift_facts N2 D2 HN2 HD2) as (Ht2 & Hf2 & Hn2).
  set (t1 := rn_shift N1 D1) in *. set (t2 := rn_shift N2 D2) in *.
  assert (HD1' : 0 < D1 * 2 ^ t1) by (apply Z.mul_pos_pos; [lia | apply Z.pow_pos_nonneg; lia]).
  assert (HD2' : 0 < D2 * 2 ^ t2) by (apply Z.mul_pos_pos; [lia | apply Z.pow_pos_nonneg; lia]).
  destruct (rne_spec N1 _ HD1') as (Hk1 & _).
  destruct (rne_spec N2 _ HD2') as (Hk2 & _).
  assert (Hmono : t1 = t2 -> rne N1 (D1 * 2 ^ t1) <= rne N2 (D2 * 2 ^ t2)).
  { intros E. apply rne_mono; try assumption. rewrite E.
    assert (0 < 2 ^ t2) by (apply Z.pow_pos_nonneg; lia). nia. }
  set (k1 := rne N1 (D1 * 2 ^ t1)) in *. set (k2 := rne N2 (D2 * 2 ^ t2)) in *.
  set (f1 := N1 / (D1 * 2 ^ t1)) in *. set (f2 := N2 / (D2 * 2 ^ t2)) in *.
  change (2 ^ 53) with 9007199254740992 in *.
  change (2 ^ 52) with 4503599627370496 in *.
  destruct (Z.eqb_spec k1 9007199254740992), (Z.eqb_spec k2 9007199254740992); lia.
Qed.

Lemma rn_float_leb (N1 D1 N2 D2 : Z) :
  0 <= N1 -> 0 < D1 -> 0 <= N2 -> 0 < D2 -> N1 * D2 <= N2 * D1 ->
  SFleb (rn_float N1 D1) (rn_float N2 D2) = true.
Proof.
  intros HN1 HD1 HN2 HD2 Hle.
  pose proof (rn_mant_exp_facts N1 D1 HN1 HD1) as (Hm1 & He1 & Hn1).
  pose proof (rn_mant_exp_facts N2 D2 HN2 HD2) as (Hm2 & He2 & Hn2).
  pose proof (rn_lex_mono N1 D1 N2 D2 HN1 HD1 HN2 HD2 Hle) as Hlex.
  unfold rn_float.
  set (m1 := rn_mant N1 D1) in *. set (m2 := rn_mant N2 D2) in *.
  set (e1 := rn_exp N1 D1) in *. set (e2 := rn_exp N2 D2) in *.
  change (2 ^ 52) with 4503599627370496 in *.
  destruct m1 as [|p1|p1], m2 as [|p2|p2]; try lia.
  - reflexivity.
  - destruct (e2 <=? 2045); reflexivity.
  - destruct (Z.leb_spec e1 2045), (Z.leb_spec e2 2045); try reflexivity; try lia.
    unfold SFleb. cbn [SFcompare].
    destruct (Z.compare_spec (e1 - 1074) (e2 - 1074)) as [E | L | G]; try reflexivity; try lia.
    rewrite Pos.compare_cont_spec. cbn [Pos.switch_Eq].
    assert (Hp : (p1 <= p2)%positive) by lia.
    unfold Pos.le in Hp. destruct (p1 ?= p2)%positive; try reflexivity; contradiction.
Qed.

Lemma digits2_pos_unique (m : positive) (d : Z) :
  2 ^ (d - 1) <= Z.pos m < 2 ^ d -> Z.pos (digits2_pos m) = d.
Proof.
  intros [Hlo Hhi].
  pose proof (digits2_pos_bounds m) as [Hlo' Hhi'].
  set (d' := Z.pos (digits2_pos m)) in *.
  assert (Hd' : 0 < d') by (unfold d'; lia).
  assert (Hd : 0 < d).
  { destruct (Z_lt_le_dec 0 d); [assumption|].
    rewrite (Z.pow_neg_r 2 (d - 1)) in Hlo by lia.
    destruct (Z.eq_dec d 0) as [-> | ]; [cbn in Hhi; lia|].
    rewrite Z.pow_neg_r in Hhi by lia. lia. }
  destruct (Z.lt_trichotomy d' d) as [L | [E | G]]; [exfalso | exact E | exfalso].
  - assert (2 ^ d' <= 2 ^ (d - 1)) by (apply Z.pow_le_mono_r; lia). lia.
  - assert (2 ^ d <= 2 ^ (d' - 1)) by (apply Z.pow_le_mono_r; lia). lia.
Qed.

Lemma digits2_pos_le (m : positive) (d : Z) :
  0 <= d -> Z.pos m < 2 ^ d -> Z.pos (digits2_pos m) <= d.
Proof.
  intros Hd Hhi.
  pose proof (digits2_pos_bounds m) as [Hlo' _].
  set (d' := Z.pos (digits2_pos m)) in *.
  destruct (Z_le_gt_dec d' d); [assumption | exfalso].
  assert (2 ^ d <= 2 ^ (d' - 1)) by (apply Z.pow_le_mono_r; lia). lia.
Qed.

Lemma rn_float_valid (N D : Z) :
  0 <= N -> 0 < D -> valid_binary (rn_float N D) = true.
Proof.
  intros HN HD.
  pose proof (rn_mant_exp_facts N D HN HD) as (Hm & He & Hn).
  unfold rn_float.
  set (m := rn_mant N D) in *. set (e := rn_exp N D) in *.
  destruct m as [|p|p]; try reflexivity.
  destruct (Z.leb_spec e 2045); [|reflexivity].
  cbn [valid_binary]. unfold bounded, canonical_mantissa, fexp, SpecFloat.emin, prec, emax.
  apply andb_true_intro. split; [apply Z.eqb_eq | apply Z.leb_le; lia].
  destruct (Z.eq_dec e 0) as [E0 | NE].
  - pose proof (digits2_pos_le p 53 ltac:(lia) (proj2 Hm)). lia.
  - rewrite (digits2_pos_unique p 53); [lia|].
    split; [apply Hn; lia | apply Hm].
Qed.

Lemma rn_float_not_nan (N D : Z) : sf_is_nan (rn_float N D) = false.
Proof.
  unfold rn_float.
  destruct (rn_mant N D); try reflexivity.
  destruct (rn_exp N D <=? 2045); reflexivity.
Qed.

(** *** Right shifts with round and sticky bits *)

Lemma shr_1_nonneg (m : Z) (r s : bool) :
  0 <= m ->
  shr_1 (Build_shr_record m r s) = Build_shr_record (m / 2) (Z.odd m) (r || s).
Proof.
  intros Hm. destruct m as [|p|p]; [reflexivity | | lia].
  destruct p as [p|p|]; cbn [shr_1 Z.odd].
  - f_equal. rewrite Pos2Z.inj_xI. symmetry.
    symmetry. apply Z.div_unique with 1; lia.
  - f_equal. rewrite Pos2Z.inj_xO.
    apply Z.div_unique with 0; lia.
  - reflexivity.
Qed.

Lemma shr_1_rec_of (N D : Z) :
  0 <= N -> 0 < D -> shr_1 (rec_of N D) = rec_of N (D * 2).
Proof.
  intros HN HD. unfold rec_of, loc_of.
  rewrite <- (Z.div_div N D 2) by lia.
  rewrite (Z.rem_mul_r N D 2) by lia.
  pose proof (Z.mod_pos_bound N D HD) as Hr.
  assert (Hq : 0 <= N / D) by (apply Z.div_pos; lia).
  rewrite (Zmod_odd (N / D)).
  set (q := N / D) in *. set (r := N mod D) in *.
  destruct (Z.eqb_spec r 0) as [E0 | NE0];
    [| destruct (Z.compare_spec (2 * r) D) as [E | L | G]];
    cbn [shr_record_of_loc]; rewrite shr_1_nonneg by assumption;
    destruct (Z.odd q); cbn [orb];
    match goal with
    | |- context [?a =? 0] => destruct (Z.eqb_spec a 0); try lia
    end;
    try reflexivity;
    match goal with
    | |- context [?a ?= ?b] => destruct (Z.compare_spec a b); try lia
    end;
    reflexivity.
Qed.

Lemma iter_pos_shr_1 (p : positive) (N D : Z) :
  0 <= N -> 0 < D ->
  iter_pos shr_1 p (rec_of N D) = rec_of N (D * 2 ^ Z.pos p).
Proof.
  intros HN. revert D.
  induction p as [p IH | p IH |]; intros D HD; cbn [iter_pos].
  - rewrite shr_1_rec_of, IH, IH by (try assumption; try apply Z.mul_pos_pos;
      try apply Z.mul_pos_pos; try apply Z.pow_pos_nonneg; lia).
    f_equal. rewrite (Pos2Z.inj_xI p).
    replace (2 * Z.pos p + 1) with (1 + Z.pos p + Z.pos p) by ring.
    rewrite (Z.pow_add_r 2 (1 + Z.pos p) (Z.pos p)) by lia.
    rewrite (Z.pow_add_r 2 1 (Z.pos p)) by lia.
    rewrite Z.pow_1_r. ring.
  - rewrite IH, IH by (try assumption; try apply Z.mul_pos_pos; try apply Z.pow_pos_nonneg; lia).
    f_equal. rewrite (Pos2Z.inj_xO p).
    replace (2 * Z.pos p) with (Z.pos p + Z.pos p) by ring.
    rewrite (Z.pow_add_r 2 (Z.pos p) (Z.pos p)) by lia. ring.
  - rewrite shr_1_rec_of by assumption. reflexivity.
Qed.

Lemma round_rec_of (N D : Z) :
  0 < D ->
  round_nearest_even (shr_m (rec_of N D)) (loc_of_shr_record (rec_of N D)) = rne N D.
Proof.
  intros HD. unfold rec_of, loc_of, rne.
  destruct (Z.eqb_spec (N mod D) 0) as [E0 | NE0].
  - rewrite E0. cbn [shr_record_of_loc shr_m loc_of_shr_record round_nearest_even].
    change (2 * 0) with 0.
    destruct (Z.compare_spec 0 D); try reflexivity; lia.
  - destruct (2 * (N mod D) ?= D); reflexivity.
Qed.

Lemma shr_rec_of (N D e n : Z) :
  0 <= N -> 0 < D -> 0 <= n ->
  shr (rec_of N D) e n = (rec_of N (D * 2 ^ n), e + n).
Proof.
  intros HN HD Hn. destruct n as [|p|p]; [ | | lia]; cbn [shr].
  - rewrite Z.mul_1_r, Z.add_0_r. reflexivity.
  - rewrite iter_pos_shr_1 by assumption. reflexivity.
Qed.

Lemma shr_noop (r : shr_record) (e n : Z) : n <= 0 -> shr r e n = (r, e).
Proof. intros Hn. destruct n as [|p|p]; try reflexivity. lia. Qed.

Lemma Zdigits2_pos (p : positive) : Zdigits2 (Z.pos p) = Z.pos (digits2_pos p).
Proof. reflexivity. Qed.

Lemma log2_scaled_quotient (N D c d : Z) :
  0 < D -> 0 <= c -> 0 < d ->
  2 ^ (d - 1) <= N / D < 2 ^ d ->
  Z.log2 (N * 2 ^ c / D) = d - 1 + c.
Proof.
  intros HD Hc Hd [Hlo Hhi].
  assert (Hp : 0 < 2 ^ c) by (apply Z.pow_pos_nonneg; lia).
  pose proof (Z.div_mod N D ltac:(lia)) as Hdm.
  pose proof (Z.mod_pos_bound N D HD) as Hr.
  set (m := N / D) in *.
  apply Z.log2_unique; [lia|]. split.
  - apply Z.div_le_lower_bound; [assumption|].
    rewrite Z.pow_add_r by lia.
    assert (2 ^ (d - 1) * 2 ^ c <= m * 2 ^ c) by nia. nia.
  - apply Z.div_lt_upper_bound; [assumption|].
    replace (Z.succ (d - 1 + c)) with (d + c) by lia. rewrite Z.pow_add_r by lia.
    assert ((m + 1) * 2 ^ c <= 2 ^ d * 2 ^ c) by nia. nia.
Qed.

(** [binary_round_aux] on a positive quotient with its location is the
    rounding [rn_float] of the exact value. *)
Lemma binary_round_aux_rn (N D e : Z) :
  0 < D -> D <= N -> - 1074 <= e ->
  e <= fexp prec emax (Zdigits2 (N / D) + e) ->
  binary_round_aux prec emax false (N / D) e (loc_of N D)
  = rn_float (N * 2 ^ (e + 1074)) D.
Proof.
  intros HD HN He Hfexp.
  assert (Hm : 1 <= N / D) by (apply Z.div_le_lower_bound; lia).
  destruct (N / D) as [|pm|pm] eqn:Em; try lia.
  rewrite Zdigits2_pos in Hfexp.
  pose proof (digits2_pos_bounds pm) as Hdig.
  set (d := Z.pos (digits2_pos pm)) in *.
  assert (Hd : 0 < d) by (unfold d; lia).
  unfold fexp, SpecFloat.emin, prec, emax in Hfexp.
  remember (Z.max (d + e - 53) (3 - 1024 - 53)) as E eqn:HE.
  (* first shift *)
  unfold binary_round_aux, shr_fexp.
  rewrite Zdigits2_pos. fold d.
  unfold fexp, SpecFloat.emin, prec, emax. rewrite <- HE.
  rewrite <- Em. fold (rec_of N D).
  rewrite shr_rec_of by lia.
  replace (e + (E - e)) with E by lia.
  remember (E - e) as n eqn:Hn'.
  assert (Hn : 0 <= n) by lia.
  assert (Hpn : 0 < 2 ^ n) by (apply Z.pow_pos_nonneg; lia).
  assert (HDn : 0 < D * 2 ^ n) by (apply Z.mul_pos_pos; assumption).
  rewrite round_rec_of by assumption.
  (* the rounded mantissa *)
  destruct (rne_spec N (D * 2 ^ n) HDn) as (Hk & _).
  assert (Hf : 0 <= N / (D * 2 ^ n) < 2 ^ 53).
  { rewrite <- Z.div_div by lia. rewrite Em. split; [apply Z.div_pos; lia|].
    apply Z.div_lt_upper_bound; [assumption|].
    eapply Z.lt_le_trans; [apply Hdig|].
    rewrite <- Z.pow_add_r by lia. apply Z.pow_le_mono_r; lia. }
  (* the right-hand side *)
  assert (Hlog : Z.log2 (N * 2 ^ (e + 1074) / D) = d - 1 + (e + 1074)).
  { apply log2_scaled_quotient; lia. }
  assert (Ht : rn_shift (N * 2 ^ (e + 1074)) D = E + 1074).
  { unfold rn_shift. rewrite Hlog. lia. }
  assert (Hrne : rne (N * 2 ^ (e + 1074)) (D * 2 ^ (E + 1074)) = rne N (D * 2 ^ n)).
  { replace (E + 1074) with (n + (e + 1074)) by lia.
    rewrite (Z.pow_add_r 2 n (e + 1074)), Z.mul_assoc by lia.
    apply rne_scale; [apply Z.pow_pos_nonneg; lia | assumption]. }
  unfold rn_float, rn_mant, rn_exp. rewrite Ht, Hrne.
  set (k := rne N (D * 2 ^ n)) in *.
  change (2 ^ 53) with 9007199254740992 in *.
  destruct (Z.eqb_spec k 9007199254740992) as [Ek | NEk].
  - rewrite Ek. change (Zdigits2 9007199254740992) with 54.
    replace (Z.max (54 + E - 53) (3 - 1024 - 53) - E) with 1 by lia.
    cbn [shr_record_of_loc shr iter_pos shr_1 shr_m].
    change (2 ^ 52) with 4503599627370496.
    change (1024 - 53) with 971.
    destruct (Z.leb_spec (E + 1) 971), (Z.leb_spec (E + 1074 + 1) 2045); try lia.
    + f_equal. lia.
    + reflexivity.
  - rewrite shr_noop.
    + cbn [shr_record_of_loc shr_m].
      destruct k as [|pk|pk]; try lia; try reflexivity.
      change (1024 - 53) with 971.
      destruct (Z.leb_spec E 971), (Z.leb_spec (E + 1074) 2045); try lia.
      * f_equal. lia.
      * reflexivity.
    + destruct k as [|pk|pk]; try lia.
      * cbn [Zdigits2]. lia.
      * rewrite Zdigits2_pos.
        pose proof (digits2_pos_le pk 53 ltac:(lia)).
        change (2 ^ 53) with 9007199254740992 in *. lia.
Qed.

(** ** Addition and division as roundings *)

Lemma iter_xO_val (d m : positive) :
  Z.pos (Pos.iter xO m d) = Z.pos m * 2 ^ Z.pos d.
Proof.
  induction d as [|d IH] using Pos.peano_ind.
  - cbn [Pos.iter]. rewrite Z.pow_1_r. lia.
  - rewrite Pos.iter_succ, Pos2Z.inj_succ, Z.pow_succ_r by lia.
    rewrite (Pos2Z.inj_xO (Pos.iter xO m d)), IH. ring.
Qed.

Lemma shl_align_spec (mx : positive) (ex ex' : Z) :
  let '(mz, ez) := shl_align mx ex ex' in
  ez = Z.min ex ex' /\ Z.pos mz = Z.pos mx * 2 ^ (ex - ez).
Proof.
  unfold shl_align.
  destruct (ex' - ex) as [|d|d] eqn:Ed.
  - split; [lia|]. replace (ex - ex) with 0 by lia. cbn. lia.
  - split; [lia|]. replace (ex - ex) with 0 by lia. cbn. lia.
  - split; [lia|]. rewrite iter_xO_val. f_equal. f_equal. lia.
Qed.

Lemma digits2_pos_shift (m mz : positive) (k : Z) :
  0 <= k -> Z.pos mz = Z.pos m * 2 ^ k ->
  Z.pos (digits2_pos mz) = Z.pos (digits2_pos m) + k.
Proof.
  intros Hk E. apply digits2_pos_unique.
  pose proof (digits2_pos_bounds m) as [Hlo Hhi].
  assert (Hp : 0 < 2 ^ k) by (apply Z.pow_pos_nonneg; lia).
  rewrite E.
  replace (Z.pos (digits2_pos m) + k - 1) with (Z.pos (digits2_pos m) - 1 + k) by lia.
  rewrite !Z.pow_add_r by lia. nia.
Qed.

Lemma loc_of_exact (N : Z) : loc_of N 1 = loc_Exact.
Proof. unfold loc_of. rewrite Z.mod_1_r. reflexivity. Qed.

(** Rounding a positive integer mantissa [m] at exponent [e >= emin]. *)
Lemma binary_round_rn (m : positive) (e : Z) :
  - 1074 <= e ->
  binary_round prec emax false m e = rn_float (Z.pos m * 2 ^ (e + 1074)) 1.
Proof.
  intros He. unfold binary_round.
  pose proof (shl_align_spec m e (fexp prec emax (Z.pos (digits2_pos m) + e))) as Hs.
  destruct (shl_align m e (fexp prec emax (Z.pos (digits2_pos m) + e))) as [mz ez].
  destruct Hs as [Hez Hmz].
  assert (Hfe : - 1074 <= fexp prec emax (Z.pos (digits2_pos m) + e)).
  { unfold fexp, SpecFloat.emin, prec, emax. lia. }
  assert (Hk : 0 <= e - ez) by lia.
  pose proof (digits2_pos_shift m mz (e - ez) Hk Hmz) as Hd.
  rewrite <- (Z.div_1_r (Z.pos mz)), <- (loc_of_exact (Z.pos mz)).
  rewrite binary_round_aux_rn; try lia.
  - f_equal. rewrite Hmz, <- Z.mul_assoc, <- Z.pow_add_r by lia. f_equal. f_equal. lia.
  - rewrite Z.div_1_r, Zdigits2_pos, Hd.
    replace (Z.pos (digits2_pos m) + (e - ez) + ez) with (Z.pos (digits2_pos m) + e) by lia.
    lia.
Qed.

(** The sum of two positive finite floats is the rounding of the exact sum. *)
Lemma SFadd_pos_rn (mx my : positive) (ex ey : Z) :
  - 1074 <= ex -> - 1074 <= ey ->
  SFadd prec emax (S754_finite false mx ex) (S754_finite false my ey)
  = rn_float (Z.pos mx * 2 ^ (ex + 1074) + Z.pos my * 2 ^ (ey + 1074)) 1.
Proof.
  intros Hex Hey. cbn [SFadd cond_Zopp].
  pose proof (shl_align_spec mx ex (Z.min ex ey)) as Hx.
  pose proof (shl_align_spec my ey (Z.min ex ey)) as Hy.
  destruct (shl_align mx ex (Z.min ex ey)) as [px ez1].
  destruct (shl_align my ey (Z.min ex ey)) as [py ez2].
  destruct Hx as [Hez1 Hpx], Hy as [Hez2 Hpy].
  cbn [fst Z.add binary_normalize].
  change (IntDef.Z.min ex ey) with (Z.min ex ey).
  rewrite binary_round_rn by lia.
  f_equal. rewrite Pos2Z.inj_add, Hpx, Hpy, Z.mul_add_distr_r.
  rewrite <- !Z.mul_assoc, <- !Z.pow_add_r by lia.
  f_equal; f_equal; f_equal; lia.
Qed.

Lemma rn_float_scale (c N D : Z) :
  0 < c -> 0 < D -> rn_float (N * c) (D * c) = rn_float N D.
Proof.
  intros Hc HD. unfold rn_float, rn_mant, rn_exp, rn_shift.
  rewrite Z.div_mul_cancel_r by lia.
  set (t := Z.max (Z.log2 (N / D) - 52) 0).
  replace (D * c * 2 ^ t) with (D * 2 ^ t * c) by ring.
  rewrite rne_scale; [reflexivity | assumption |].
  apply Z.mul_pos_pos; [assumption | apply Z.pow_pos_nonneg; unfold t; lia].
Qed.

Lemma new_location_loc_of (N D : Z) :
  0 < D -> new_location D (N mod D) = loc_of N D.
Proof.
  intros HD. pose proof (Z.mod_pos_bound N D HD) as Hr.
  unfold new_location, new_location_even, new_location_odd, loc_of.
  set (r := N mod D) in *.
  destruct (Z.even D) eqn:Ev; destruct (Z.eqb_spec r 0); try reflexivity.
  f_equal.
  assert (Hodd : Z.odd D = true) by (rewrite <- Z.negb_even, Ev; reflexivity).
  apply Z.odd_spec in Hodd. destruct Hodd as [j Hj].
  destruct (Z.compare_spec (2 * r + 1) D), (Z.compare_spec (2 * r) D); try reflexivity; lia.
Qed.

(** The reciprocal of a float in [[1, 2^74]] is the rounding of the exact
    reciprocal. *)
Lemma SFdiv_one_rn (m : positive) (e : Z) :
  2 ^ 52 <= Z.pos m < 2 ^ 53 -> - 52 <= e <= 22 ->
  SFdiv prec emax (S754_finite false 4503599627370496 (-52)) (S754_finite false m e)
  = rn_float Zinf (Z.pos m * 2 ^ (e + 1074)).
Proof.
  intros Hm He. cbn [SFdiv xorb]. unfold SFdiv_core_binary.
  rewrite !Zdigits2_pos.
  rewrite (digits2_pos_unique m 53) by exact Hm.
  change (Z.pos (digits2_pos 4503599627370496)) with 53.
  replace (Z.min (fexp prec emax (53 + -52 - (53 + e))) (-52 - e)) with (- e - 105)
    by (unfold fexp, SpecFloat.emin, prec, emax; lia).
  replace (-52 - e - (- e - 105)) with 53 by lia.
  change (Z.shiftl 4503599627370496 53) with (2 ^ 105).
  assert (Hqr : Z.div_eucl (2 ^ 105) (Z.pos m) = (2 ^ 105 / Z.pos m, 2 ^ 105 mod Z.pos m)).
  { unfold Z.div, Z.modulo. destruct (Z.div_eucl (2 ^ 105) (Z.pos m)); reflexivity. }
  rewrite Hqr. rewrite new_location_loc_of by lia.
  assert (Hq : 2 ^ 52 <= 2 ^ 105 / Z.pos m <= 2 ^ 53).
  { split.
    - apply Z.div_le_lower_bound; [lia|].
      change (2 ^ 105) with (2 ^ 53 * 2 ^ 52).
      apply Z.mul_le_mono_nonneg_r; lia.
    - apply Z.div_le_upper_bound; [lia|].
      change (2 ^ 105) with (2 ^ 52 * 2 ^ 53).
      apply Z.mul_le_mono_nonneg_r; lia. }
  rewrite binary_round_aux_rn.
  - assert (Hp : 0 < 2 ^ (e + 1074)) by (apply Z.pow_pos_nonneg; lia).
    rewrite <- (rn_float_scale (2 ^ (e + 1074)) (2 ^ 105 * 2 ^ (- e - 105 + 1074)) (Z.pos m))
      by lia.
    unfold Zinf. f_equal. rewrite <- !Z.pow_add_r by lia. f_equal. lia.
  - lia.
  - apply Z.le_trans with (2 ^ 53); [lia|].
    change (2 ^ 105) with (2 ^ 53 * 2 ^ 52). change (2 ^ 53) with (2 ^ 53 * 1) at 1.
    apply Z.mul_le_mono_nonneg_l; lia.
  - lia.
  - destruct (2 ^ 105 / Z.pos m) as [|q|q] eqn:Eq; try lia.
    rewrite Zdigits2_pos.
    pose proof (digits2_pos_bounds q) as [Hlo Hhi].
    assert (53 <= Z.pos (digits2_pos q)).
    { destruct (Z_le_gt_dec 53 (Z.pos (digits2_pos q))); [assumption | exfalso].
      assert (2 ^ Z.pos (digits2_pos q) <= 2 ^ 52) by (apply Z.pow_le_mono_r; lia). lia. }
    unfold fexp, SpecFloat.emin, prec, emax. lia.
Qed.

(** ** Values of primitive floats *)

Lemma Prim2SF_one : Prim2SF 1 = S754_finite false 4503599627370496 (-52).
Proof. reflexivity. Qed.

Lemma fval_one : fval 1 = Zone.
Proof.
  unfold fval. rewrite Prim2SF_one. cbn [Zval]. unfold Zone.
  change 4503599627370496 with (2 ^ 52).
  rewrite <- Z.pow_add_r by lia. f_equal.
Qed.

Lemma fval_two_pow_74 : fval 0x1p74 = Ztop.
Proof.
  unfold fval.
  change (Prim2SF 0x1p74) with (S754_finite false 4503599627370496 22).
  cbn [Zval]. unfold Ztop. change 4503599627370496 with (2 ^ 52).
  rewrite <- Z.pow_add_r by lia. f_equal.
Qed.

Lemma fval_zero : fval 0 = 0.
Proof. reflexivity. Qed.

Lemma fval_infinity : fval infinity = Zinf.
Proof. reflexivity. Qed.

Lemma fval_neg_infinity : fval neg_infinity = - Zinf.
Proof. reflexivity. Qed.

Lemma Zone_le_Ztop : Zone <= Ztop.
Proof. unfold Zone, Ztop. apply Z.pow_le_mono_r; lia. Qed.

Lemma Ztop_lt_Zinf : Ztop < Zinf.
Proof. unfold Zinf, Ztop. apply Z.pow_lt_mono_r; lia. Qed.

Lemma fval_range (x : float) : - Zinf <= fval x <= Zinf.
Proof.
  unfold fval. pose proof (Prim2SF_valid x) as V. pose proof Zinf_pos.
  destruct (Prim2SF x) as [s | s | | s m e]; cbn [Zval]; try lia.
  - destruct s; lia.
  - pose proof (finite_val_bound m e V). destruct s; lia.
Qed.

(** A float that is not NaN and whose value is non-negative is a zero, a
    positive finite number or [+infinity]. *)
Lemma nonneg_cases (x : float) :
  is_nan x = false -> 0 <= fval x ->
  (exists s, Prim2SF x = S754_zero s) \/
  (exists m e, Prim2SF x = S754_finite false m e /\ bounded prec emax m e = true) \/
  Prim2SF x = S754_infinity false.
Proof.
  rewrite is_nan_spec. unfold fval. intros Hn Hv.
  pose proof (Prim2SF_valid x) as V. pose proof Zinf_pos.
  destruct (Prim2SF x) as [s | s | | s m e]; cbn [Zval] in Hv; try discriminate.
  - left. eauto.
  - destruct s; [lia | auto].
  - pose proof (finite_val_bound m e V). destruct s; [lia|].
    right. left. eauto.
Qed.

Lemma fval_opp (x : float) : fval (- x) = - fval x.
Proof.
  unfold fval. rewrite opp_spec.
  destruct (Prim2SF x) as [s | s | | s m e]; cbn [SFopp Zval]; try reflexivity;
    destruct s; cbn [negb]; lia.
Qed.

Lemma is_nan_opp (x : float) : is_nan (- x) = is_nan x.
Proof.
  rewrite !is_nan_spec, opp_spec. destruct (Prim2SF x); reflexivity.
Qed.

Lemma fval_abs (x : float) : fval (abs x) = Z.abs (fval x).
Proof.
  unfold fval. rewrite abs_spec. pose proof (Prim2SF_valid x) as V. pose proof Zinf_pos.
  destruct (Prim2SF x) as [s | s | | s m e]; cbn [SFabs Zval]; try reflexivity.
  - destruct s; lia.
  - pose proof (finite_val_bound m e V). destruct s; lia.
Qed.

Lemma is_nan_abs (x : float) : is_nan (abs x) = is_nan x.
Proof.
  rewrite !is_nan_spec, abs_spec. destruct (Prim2SF x); reflexivity.
Qed.

Lemma is_infinity_true_iff (x : float) :
  is_infinity x = true <->
  is_nan x = false /\ (fval x = Zinf \/ fval x = - Zinf).
Proof.
  unfold is_infinity. rewrite eqb_true_iff, is_nan_abs, fval_abs, fval_infinity.
  pose proof Zinf_pos.
  assert (is_nan infinity = false) by reflexivity.
  intuition lia.
Qed.

Lemma is_infinity_false_iff (x : float) :
  is_infinity x = false <->
  is_nan x = true \/ (- Zinf < fval x < Zinf).
Proof.
  rewrite <- Bool.not_true_iff_false, is_infinity_true_iff.
  pose proof (fval_range x).
  destruct (is_nan x); intuition (try discriminate; try lia).
Qed.

Lemma fval_inf_eq (x : float) : is_nan x = false -> fval x = Zinf -> x = infinity.
Proof.
  rewrite is_nan_spec. unfold fval. intros Hn Hv. apply Prim2SF_inj.
  pose proof (Prim2SF_valid x) as V. pose proof Zinf_pos.
  destruct (Prim2SF x) as [s | s | | s m e]; cbn [Zval] in Hv; try discriminate; try lia.
  - destruct s; [lia | reflexivity].
  - pose proof (finite_val_bound m e V). destruct s; lia.
Qed.

Lemma leb_trans (x y z : float) :
  (x <=? y)%float = true -> (y <=? z)%float = true -> (x <=? z)%float = true.
Proof. rewrite !leb_true_iff. intuition lia. Qed.

(** ** Arithmetic on NaN *)

Lemma Prim2SF_nan : Prim2SF nan = S754_nan.
Proof. reflexivity. Qed.

Lemma add_nan_l (y : float) : (nan + y)%float = nan.
Proof. apply Prim2SF_inj. rewrite add_spec, Prim2SF_nan. reflexivity. Qed.

Lemma add_nan_r (x : float) : (x + nan)%float = nan.
Proof.
  apply Prim2SF_inj. rewrite add_spec, Prim2SF_nan.
  destruct (Prim2SF x); reflexivity.
Qed.

Lemma sub_nan_l (y : float) : (nan - y)%float = nan.
Proof. apply Prim2SF_inj. rewrite sub_spec, Prim2SF_nan. reflexivity. Qed.

Lemma mul_nan_l (y : float) : (nan * y)%float = nan.
Proof. apply Prim2SF_inj. rewrite mul_spec, Prim2SF_nan. reflexivity. Qed.

Lemma div_nan_l (y : float) : (nan / y)%float = nan.
Proof. apply Prim2SF_inj. rewrite div_spec, Prim2SF_nan. reflexivity. Qed.

(** ** Monotonicity of [1 + a] and [1 / u] *)

Lemma rn_float_one : rn_float (Zone + 0) 1 = Prim2SF 1.
Proof. vm_compute. reflexivity. Qed.

Lemma add_one_spec (a : float) :
  is_nan a = false -> 0 <= fval a ->
  Prim2SF (1 + a) =
  if fval a <? Zinf then rn_float (Zone + fval a) 1 else S754_infinity false.
Proof.
  intros Hn Hv. rewrite add_spec, Prim2SF_one. pose proof Zinf_pos as HB.
  destruct (nonneg_cases a Hn Hv) as [[s E] | [(m & e & E & V) | E]];
    unfold fval; rewrite E; cbn [Zval].
  - destruct (Z.ltb_spec 0 Zinf); [|lia].
    rewrite rn_float_one. destruct s; reflexivity.
  - pose proof (finite_val_bound m e V) as Hb.
    pose proof (bounded_canonical m e V) as (He & _).
    destruct (Z.ltb_spec (Z.pos m * 2 ^ (e + 1074)) Zinf); [|lia].
    unfold SF64add. rewrite SFadd_pos_rn by lia.
    f_equal.
  - rewrite Z.ltb_irrefl. reflexivity.
Qed.

Lemma SFleb_infinity (r : spec_float) :
  sf_is_nan r = false -> SFleb r (S754_infinity false) = true.
Proof. destruct r as [s | s | | s m e]; try discriminate; destruct s; reflexivity. Qed.

Lemma SFleb_zero_rn (N D : Z) : SFleb (S754_zero false) (rn_float N D) = true.
Proof.
  unfold rn_float. destruct (rn_mant N D); try reflexivity.
  destruct (rn_exp N D <=? 2045); reflexivity.
Qed.

(** Adding to [1] is monotone on the non-negative floats. *)
Lemma add_one_mono (a b : float) :
  (0 <=? a)%float = true -> (a <=? b)%float = true ->
  (1 + a <=? 1 + b)%float = true.
Proof.
  intros Ha Hab.
  apply leb_true_iff in Ha, Hab.
  destruct Ha as (_ & Na & Ha), Hab as (_ & Nb & Hab).
  rewrite fval_zero in Ha.
  rewrite leb_spec, !add_one_spec by (assumption || lia).
  pose proof Zone_pos.
  destruct (Z.ltb_spec (fval b) Zinf).
  - destruct (Z.ltb_spec (fval a) Zinf); [|lia].
    apply rn_float_leb; lia.
  - apply SFleb_infinity.
    destruct (fval a <? Zinf); [apply rn_float_not_nan | reflexivity].
Qed.

Lemma exponent_lower (m : positive) (e : Z) :
  - 1074 <= e -> Z.pos m < 2 ^ 53 -> Zone <= Z.pos m * 2 ^ (e + 1074) -> - 53 < e.
Proof.
  unfold Zone. intros He Hm H.
  destruct (Z_lt_le_dec (-53) e); [assumption | exfalso].
  assert (Z.pos m * 2 ^ (e + 1074) < 2 ^ 53 * 2 ^ (e + 1074)).
  { apply Z.mul_lt_mono_pos_r; [apply Z.pow_pos_nonneg; lia | assumption]. }
  assert (2 ^ 53 * 2 ^ (e + 1074) <= 2 ^ 1074).
  { rewrite <- Z.pow_add_r by lia. apply Z.pow_le_mono_r; lia. }
  eapply Z.lt_irrefl, Z.le_lt_trans; [exact H|].
  eapply Z.lt_le_trans; eassumption.
Qed.

Lemma exponent_upper (m : positive) (e : Z) :
  - 1074 <= e -> 2 ^ 52 <= Z.pos m -> Z.pos m * 2 ^ (e + 1074) <= Ztop -> e <= 22.
Proof.
  unfold Ztop. intros He Hm H.
  destruct (Z_le_gt_dec e 22); [assumption | exfalso].
  assert (2 ^ 52 * 2 ^ (e + 1074) <= Z.pos m * 2 ^ (e + 1074)).
  { apply Z.mul_le_mono_nonneg_r; [apply Z.pow_nonneg; lia | assumption]. }
  assert (2 ^ 1148 < 2 ^ 52 * 2 ^ (e + 1074)).
  { rewrite <- Z.pow_add_r by lia. apply Z.pow_lt_mono_r; lia. }
  eapply Z.lt_irrefl, Z.lt_le_trans; [eassumption|].
  eapply Z.le_trans; eassumption.
Qed.

Lemma div_one_spec (u : float) :
  (1 <=? u)%float = true -> (u <=? 0x1p74)%float = true ->
  Prim2SF (1 / u) = rn_float Zinf (fval u).
Proof.
  intros H1 H2. apply leb_true_iff in H1, H2.
  destruct H1 as (_ & Nu & H1), H2 as (_ & _ & H2).
  rewrite fval_one in H1. rewrite fval_two_pow_74 in H2.
  pose proof Zone_pos. pose proof Ztop_lt_Zinf.
  destruct (nonneg_cases u Nu ltac:(lia)) as [[s E] | [(m & e & E & V) | E]];
    unfold fval in H1, H2 |- *; rewrite E in H1, H2 |- *; cbn [Zval] in H1, H2 |- *; try lia.
  pose proof (bounded_canonical m e V) as (He & Hm & Hn).
  pose proof (exponent_lower m e (proj1 He) Hm H1) as He1.
  specialize (Hn ltac:(lia)).
  pose proof (exponent_upper m e (proj1 He) Hn H2) as He2.
  rewrite div_spec, Prim2SF_one, E. unfold SF64div.
  apply SFdiv_one_rn; lia.
Qed.

(** The reciprocal is antitone on the floats of [[1, 2^74]]. *)
Lemma div_one_antitone (u v : float) :
  (1 <=? u)%float = true -> (u <=? v)%float = true -> (v <=? 0x1p74)%float = true ->
  (1 / v <=? 1 / u)%float = true.
Proof.
  intros H1 H2 H3.
  assert (H1v : (1 <=? v)%float = true) by (eapply leb_trans; eassumption).
  assert (H3u : (u <=? 0x1p74)%float = true) by (eapply leb_trans; eassumption).
  rewrite leb_spec, !div_one_spec by assumption.
  apply leb_true_iff in H1, H2. rewrite fval_one in H1.
  pose proof Zone_pos. pose proof Zinf_pos.
  apply rn_float_leb; try lia.
  apply Z.mul_le_mono_nonneg_l; lia.
Qed.

(** ** The reference [exp] satisfies [exp_spec] *)

Lemma fx_one_pos : 0 < fx_one.
Proof. reflexivity. Qed.

Lemma fx_mul_mono (s t : Z) : 0 <= s <= t -> fx_mul s s <= fx_mul t t.
Proof.
  intros H. unfold fx_mul. apply Z.div_le_mono; [apply fx_one_pos | nia].
Qed.

Lemma fx_mul_ge (t : Z) : fx_one <= t -> fx_one <= fx_mul t t.
Proof.
  intros H. unfold fx_mul. pose proof fx_one_pos.
  apply Z.div_le_lower_bound; [assumption | nia].
Qed.

Lemma sq_iter_mono (n : nat) (s t : Z) :
  fx_one <= s <= t -> fx_one <= sq_iter n s <= sq_iter n t.
Proof.
  revert s t. induction n as [|n IH]; intros s t H; cbn [sq_iter]; [exact H|].
  pose proof fx_one_pos.
  apply IH. split; [apply fx_mul_ge; lia | apply fx_mul_mono; lia].
Qed.

Lemma exp_fix_mono (a b : Z) :
  0 <= a <= b -> fx_one <= exp_fix a <= exp_fix b.
Proof.
  intros H. unfold exp_fix. apply sq_iter_mono.
  assert (0 <= a / 2 ^ 80) by (apply Z.div_pos; lia).
  assert (a / 2 ^ 80 <= b / 2 ^ 80) by (apply Z.div_le_mono; lia).
  lia.
Qed.

Lemma exp_of_fix_valid (neg : bool) (a : Z) :
  0 <= a ->
  valid_binary (exp_of_fix neg a) = true /\ sf_is_nan (exp_of_fix neg a) = false.
Proof.
  intros Ha. unfold exp_of_fix.
  pose proof (exp_fix_mono a a ltac:(lia)) as [Hg _]. pose proof fx_one_pos.
  destruct (1024 * fx_one <? a); [destruct neg; split; reflexivity|].
  destruct neg; (split; [apply rn_float_valid | apply rn_float_not_nan]); try lia.
  apply Z.mul_nonneg_nonneg; [lia | apply Z.pow_nonneg; lia].
Qed.

Lemma SFleb_zero_exp (neg : bool) (a : Z) :
  SFleb (S754_zero false) (exp_of_fix neg a) = true.
Proof.
  unfold exp_of_fix.
  destruct (1024 * fx_one <? a); [destruct neg; reflexivity|].
  destruct neg; apply SFleb_zero_rn.
Qed.

Lemma exp_round_mono (z1 z2 : Z) :
  z1 <= z2 -> SFleb (exp_round z1) (exp_round z2) = true.
Proof.
  intros Hz. unfold exp_round.
  assert (Hp : 0 < 2 ^ (1074 - fp)) by reflexivity.
  assert (Ha1 : 0 <= Z.abs z1 / 2 ^ (1074 - fp)) by (apply Z.div_pos; lia).
  assert (Ha2 : 0 <= Z.abs z2 / 2 ^ (1074 - fp)) by (apply Z.div_pos; lia).
  pose proof (SFleb_zero_exp (z2 <? 0) (Z.abs z2 / 2 ^ (1074 - fp))) as Hz2.
  revert Hz2.
  set (a1 := Z.abs z1 / 2 ^ (1074 - fp)) in *.
  set (a2 := Z.abs z2 / 2 ^ (1074 - fp)) in *.
  pose proof (exp_fix_mono a1 a1 ltac:(lia)) as [Hg1 _].
  pose proof (exp_fix_mono a2 a2 ltac:(lia)) as [Hg2 _].
  pose proof fx_one_pos as H1.
  assert (Hcross : 2 ^ (1074 + fp) <= fx_one * fx_one * 2 ^ (1074 - fp))
    by (vm_compute; discriminate).
  unfold exp_of_fix.
  destruct (Z.ltb_spec z1 0) as [N1 | P1]; destruct (Z.ltb_spec z2 0) as [N2 | P2]; try lia.
  - (* both negative: the magnitudes are ordered the other way *)
    assert (Ha : a2 <= a1) by (apply Z.div_le_mono; lia).
    destruct (Z.ltb_spec (1024 * fx_one) a1); [intros Hz2; exact Hz2|].
    destruct (Z.ltb_spec (1024 * fx_one) a2); [lia|]. intros _.
    pose proof (exp_fix_mono a2 a1 ltac:(lia)) as [_ Hg].
    apply rn_float_leb; try lia. nia.
  - destruct (Z.ltb_spec (1024 * fx_one) a1); [intros Hz2; exact Hz2|].
    destruct (Z.ltb_spec (1024 * fx_one) a2);
      [intros _; apply SFleb_infinity, rn_float_not_nan|].
    intros _. apply rn_float_leb; try lia.
    + apply Z.mul_nonneg_nonneg; lia.
    + rewrite Z.mul_1_r.
      assert (fx_one * fx_one <= exp_fix a2 * exp_fix a1) by nia.
      nia.
  - assert (Ha : a1 <= a2) by (apply Z.div_le_mono; lia).
    destruct (Z.ltb_spec (1024 * fx_one) a2).
    + intros _. apply SFleb_infinity.
      destruct (1024 * fx_one <? a1); [reflexivity | apply rn_float_not_nan].
    + destruct (Z.ltb_spec (1024 * fx_one) a1); [lia|]. intros _.
      pose proof (exp_fix_mono a1 a2 ltac:(lia)) as [_ Hg].
      apply rn_float_leb; try lia.
      * apply Z.mul_nonneg_nonneg; lia.
      * apply Z.mul_nonneg_nonneg; lia.
      * nia.
Qed.

Lemma Prim2SF_ref_exp (x : float) :
  is_nan x = false -> Prim2SF (ref_exp x) = exp_round (fval x).
Proof.
  intros Hn. unfold ref_exp. rewrite Hn.
  apply Prim2SF_SF2Prim. unfold exp_round. apply exp_of_fix_valid.
  apply Z.div_pos; [lia | reflexivity].
Qed.

Lemma ref_exp_mono (x y : float) :
  (x <=? y)%float = true -> (ref_exp x <=? ref_exp y)%float = true.
Proof.
  intros H. apply leb_true_iff in H. destruct H as (Nx & Ny & H).
  rewrite leb_spec, !Prim2SF_ref_exp by assumption.
  apply exp_round_mono. exact H.
Qed.

Lemma ref_exp_nonneg (x : float) :
  is_nan x = false -> (0 <=? ref_exp x)%float = true.
Proof.
  intros Hn. rewrite leb_spec, Prim2SF_ref_exp by assumption.
  apply SFleb_zero_exp.
Qed.

Lemma ref_exp_50 : ref_exp 50 = 0x1.19103e4080b45p+72%float.
Proof. vm_compute. reflexivity. Qed.

Lemma ref_exp_spec : exp_spec ref_exp.
Proof.
  unfold exp_spec.
  split; [vm_compute; reflexivity|].
  split; [vm_compute; reflexivity|].
  split; [vm_compute; reflexivity|].
  split; [exact ref_exp_mono|].
  split; [apply ref_exp_nonneg; reflexivity|].
  rewrite ref_exp_50. reflexivity.
Qed.

(** * The properties of the specification *)

(** ** Clipping *)

Lemma fval_py_min (a b : float) :
  is_nan a = false -> is_nan b = false ->
  is_nan (py_min a b) = false /\ fval (py_min a b) = Z.min (fval a) (fval b).
Proof.
  intros Na Nb. unfold py_min.
  destruct (b <? a)%float eqn:L.
  - apply ltb_true_iff in L. intuition lia.
  - apply ltb_false_iff in L. intuition (try congruence; lia).
Qed.

Lemma fval_py_max (a b : float) :
  is_nan a = false -> is_nan b = false ->
  is_nan (py_max a b) = false /\ fval (py_max a b) = Z.max (fval a) (fval b).
Proof.
  intros Na Nb. unfold py_max.
  destruct (a <? b)%float eqn:L.
  - apply ltb_true_iff in L. intuition lia.
  - apply ltb_false_iff in L. intuition (try congruence; lia).
Qed.

Lemma fval_clip_value (value min_val max_val : float) :
  is_nan value = false -> is_nan min_val = false -> is_nan max_val = false ->
  is_nan (clip_value value min_val max_val) = false /\
  fval (clip_value value min_val max_val)
  = Z.max (fval min_val) (Z.min (fval max_val) (fval value)).
Proof.
  intros Nv Nlo Nhi. unfold clip_value, isnan. rewrite Nv.
  destruct (fval_py_min max_val value Nhi Nv) as [N1 E1].
  destruct (fval_py_max min_val (py_min max_val value) Nlo N1) as [N2 E2].
  rewrite E2, E1. auto.
Qed.

(** C3. For bounds [min_val <= max_val], [clip_value] returns a NaN value
    unchanged; a value within the bounds comes back equal to itself (and is
    the very same float when strictly inside); a value below [min_val] gives
    [min_val]; a value above [max_val] gives a float equal to [max_val] (the
    very same when the bounds differ).  Equality is Python's [==], under
    which the two zeros are equal.  [clip_value] is a total function: no
    operation in it can raise. *)
Theorem clip_value_spec (value min_val max_val : float) :
  (min_val <=? max_val)%float = true ->
  (isnan value = true -> clip_value value min_val max_val = value) /\
  ((min_val <=? value)%float = true -> (value <=? max_val)%float = true ->
     (clip_value value min_val max_val =? value)%float = true /\
     ((min_val <? value)%float = true -> (value <? max_val)%float = true ->
        clip_value value min_val max_val = value)) /\
  ((value <? min_val)%float = true -> clip_value value min_val max_val = min_val) /\
  ((max_val <? value)%float = true ->
     (clip_value value min_val max_val =? max_val)%float = true /\
     ((min_val <? max_val)%float = true -> clip_value value min_val max_val = max_val)).
Proof.
  intros Hb. apply leb_true_iff in Hb. destruct Hb as (Nmin & Nmax & Hb).
  unfold clip_value, py_max, py_min, isnan.
  split; [|split; [|split]].
  - intros ->. reflexivity.
  - intros H1 H2. apply leb_true_iff in H1, H2.
    destruct H1 as (_ & Nv & H1), H2 as (_ & _ & H2). rewrite Nv.
    destruct (value <? max_val)%float eqn:L1.
    + destruct (min_val <? value)%float eqn:L2.
      * split; [apply eqb_true_iff; auto | reflexivity].
      * apply ltb_false_iff in L2.
        split; [apply eqb_true_iff; intuition (try congruence; lia)|].
        intros H; discriminate H.
    + apply ltb_false_iff in L1.
      destruct (min_val <? max_val)%float eqn:L2.
      * split; [apply eqb_true_iff; intuition (try congruence; lia)|].
        intros _ H; discriminate H.
      * apply ltb_false_iff in L2.
        split; [apply eqb_true_iff; intuition (try congruence; lia)|].
        intros _ H; discriminate H.
  - intros H. apply ltb_true_iff in H. destruct H as (Nv & _ & H). rewrite Nv.
    assert (L1 : (value <? max_val)%float = true) by (apply ltb_true_iff; intuition lia).
    rewrite L1.
    assert (L2 : (min_val <? value)%float = false) by (apply ltb_false_iff; intuition lia).
    rewrite L2. reflexivity.
  - intros H. apply ltb_true_iff in H. destruct H as (_ & Nv & H). rewrite Nv.
    assert (L1 : (value <? max_val)%float = false) by (apply ltb_false_iff; intuition lia).
    rewrite L1.
    destruct (min_val <? max_val)%float eqn:L2.
    + split; [apply eqb_true_iff; auto | reflexivity].
    + apply ltb_false_iff in L2.
      split; [apply eqb_true_iff; intuition (try congruence; lia)|].
      intros H'; discriminate H'.
Qed.

(** [clip_value] at the default bounds on NaN, 0.5, -2 and 3. *)
Lemma clip_value_spec_witness :
  (0 <=? 1)%float = true /\
  clip_value nan 0 1 = nan /\
  clip_value 0.5 0 1 = 0.5%float /\
  clip_value (-2) 0 1 = 0%float /\
  clip_value 3 0 1 = 1%float.
Proof.
  pose proof (clip_value_spec nan 0 1 eq_refl) as (Hn & _).
  pose proof (clip_value_spec 0.5 0 1 eq_refl) as (_ & Hi & _).
  pose proof (clip_value_spec (-2) 0 1 eq_refl) as (_ & _ & Hl & _).
  pose proof (clip_value_spec 3 0 1 eq_refl) as (_ & _ & _ & Hh).
  split; [reflexivity|].
  split; [exact (Hn eq_refl)|].
  split; [exact (proj2 (Hi eq_refl eq_refl) eq_refl eq_refl)|].
  split; [exact (Hl eq_refl)|].
  exact (proj2 (Hh eq_refl) eq_refl).
Defined.

(** ** The worked example *)

(** C8. [LinearClippedReward(bad_value=1, good_value=0)] on
    [[1, 0, 0.5, 2]] returns [[0, 1, 0.5, 0]], and the last element is the
    clipping of [scale_value(2, 1, 0, 0, 1) = -1]. *)
Theorem linear_clipped_example (libm : Libm) :
  call libm (LinearClippedReward 1 0) [1; 0; 0.5; 2]%float
  = Ok [PyFloat 0; PyFloat 1; PyFloat 0.5; PyFloat 0] /\
  scale_value 2 1 0 0 1 = Ok (-1)%float /\
  clip_value (-1) 0 1 = 0%float.
Proof. repeat split. Qed.

(** Two more of the specification's examples. *)
Example equal_reward_example (libm : Libm) :
  call libm EqualReward_default [0; 0.5; -0.5]%float
  = Ok [PyFloat 1; PyFloat 0; PyFloat 0].
Proof. reflexivity. Qed.

Example absolute_reward_example (libm : Libm) :
  call libm AbsoluteReward [-3; 3; 0]%float
  = Ok [PyFloat 3; PyFloat 3; PyFloat 0].
Proof. reflexivity. Qed.

(** ** NaN errors *)

Lemma scale_value_nan (old_min old_max new_min new_max : float) :
  (old_max - old_min =? 0)%float = false ->
  scale_value nan old_min old_max new_min new_max = Ok nan.
Proof.
  intros Hd. unfold scale_value, float_div. rewrite Hd. cbn [bind].
  rewrite sub_nan_l, mul_nan_l, div_nan_l, add_nan_r. reflexivity.
Qed.

Lemma math_exp_nan (libm : Libm) :
  c_exp libm nan = nan -> math_exp libm nan = Ok nan.
Proof. intros H. unfold math_exp. rewrite H. reflexivity. Qed.

Lemma logistic_value_nan (libm : Libm) :
  c_exp libm nan = nan -> logistic_value libm nan = Ok nan.
Proof.
  intros H. unfold logistic_value.
  change (- clip_value nan (-50) 50)%float with nan.
  rewrite math_exp_nan by assumption. reflexivity.
Qed.

(** C1, as the code has it.  When the platform's [exp] maps NaN to NaN, a
    NaN error comes back as NaN from every instance that [nan_passes]
    admits: all instances of [EqualReward], [AbsoluteReward],
    [NegatedReward] and [LogReward], [PowerReward] with a non-zero
    exponent, and the four rescaling transforms whenever
    [good_value - bad_value] is not zero. *)
Theorem nan_propagation (libm : Libm) (t : RewardTransform) :
  c_exp libm nan = nan ->
  nan_passes t = true ->
  call libm t [nan] = Ok [PyFloat nan].
Proof.
  intros Hexp Ht. unfold call. cbn [list_comp].
  assert (Hr : reward libm t nan = Ok (PyFloat nan)).
  { destruct t as [nz | | | w | off | bad good | bad good sh | bad good sh
                   | bad good lo hi]; cbn [reward nan_passes] in *.
    - reflexivity.
    - reflexivity.
    - reflexivity.
    - apply negb_true_iff in Ht. unfold float_pow. rewrite Ht. reflexivity.
    - rewrite add_nan_l. reflexivity.
    - apply negb_true_iff in Ht. rewrite scale_value_nan by assumption. reflexivity.
    - apply negb_true_iff in Ht. rewrite scale_value_nan by assumption.
      cbn [bind]. rewrite logistic_value_nan by assumption. reflexivity.
    - apply negb_true_iff in Ht. rewrite scale_value_nan by assumption.
      cbn [bind]. change (- nan)%float with nan.
      rewrite math_exp_nan by assumption. reflexivity.
    - apply negb_true_iff in Ht. rewrite scale_value_nan by assumption.
      cbn [bind]. rewrite logistic_value_nan by assumption. reflexivity. }
  rewrite Hr. reflexivity.
Qed.

(** NaN through [SigmoidReward(bad_value=0, good_value=1)] under the
    reference library. *)
Lemma nan_propagation_witness :
  c_exp ref_libm nan = nan /\
  nan_passes (SigmoidReward 0 1 (-3) 3) = true /\
  call ref_libm (SigmoidReward 0 1 (-3) 3) [nan] = Ok [PyFloat nan].
Proof.
  split; [reflexivity|]. split; [reflexivity|].
  exact (nan_propagation ref_libm (SigmoidReward 0 1 (-3) 3) eq_refl eq_refl).
Defined.

(** C1 as stated fails: [PowerReward(0)] maps NaN to 1.0, since [x ** 0] is
    1.0 for every float [x]. *)
Lemma nan_propagation_counterexample :
  ~ (forall (libm : Libm) (t : RewardTransform),
        exp_spec (c_exp libm) -> call libm t [nan] = Ok [PyFloat nan]).
Proof.
  intros H.
  specialize (H ref_libm (PowerReward 0) ref_exp_spec).
  change (call ref_libm (PowerReward 0) [nan]) with (Ok [PyFloat 1]) in H.
  apply (f_equal (fun r => match r with
                           | Ok (PyFloat x :: _) => is_nan x
                           | _ => true
                           end)) in H.
  discriminate H.
Qed.

(** The same input raises in the rescaling transforms built with equal
    thresholds. *)
Lemma nan_equal_thresholds (libm : Libm) :
  call libm (LinearClippedReward 1 1) [nan] = Raise ZeroDivisionError.
Proof. reflexivity. Qed.

(** ** Element-wise application *)

Lemma list_comp_Forall2 {A B : Type} (f : A -> result B) (errors : list A) (out : list B) :
  list_comp f errors = Ok out <-> Forall2 (fun e r => f e = Ok r) errors out.
Proof.
  revert out. induction errors as [|e errors IH]; intros out; cbn [list_comp].
  - split.
    + intros H. injection H as <-. constructor.
    + intros H. inversion H. reflexivity.
  - split.
    + destruct (f e) as [r|err] eqn:Er; cbn [bind]; [|discriminate].
      destruct (list_comp f errors) as [rs|err] eqn:Ers; cbn [bind]; [|discriminate].
      intros H. injection H as <-. constructor; [exact Er | apply IH; reflexivity].
    + intros H. inversion H as [|e' r errors' rs Hr Hrs]; subst.
      rewrite Hr. cbn [bind]. apply IH in Hrs. rewrite Hrs. reflexivity.
Qed.

Lemma list_comp_Forall {A B : Type} (f : A -> result B) (errors : list A) :
  (exists out, list_comp f errors = Ok out) <->
  Forall (fun e => exists r, f e = Ok r) errors.
Proof.
  induction errors as [|e errors IH]; cbn [list_comp].
  - split; [constructor | eauto].
  - split.
    + intros [out H].
      destruct (f e) as [r|err] eqn:Er; cbn [bind] in H; [|discriminate].
      destruct (list_comp f errors) as [rs|err] eqn:Ers; cbn [bind] in H; [|discriminate].
      constructor; [eauto | apply IH; eauto].
    + intros H. inversion H as [|e' errors' [r Hr] Hrest]; subst.
      apply IH in Hrest. destruct Hrest as [rs Hrs].
      exists (r :: rs). rewrite Hr. cbn [bind]. rewrite Hrs. reflexivity.
Qed.

Lemma Forall2_permute {A B : Type} (R : A -> B -> Prop) (l l' : list A) (o : list B) :
  Permutation l l' -> Forall2 R l o ->
  exists o', Forall2 R l' o' /\ Permutation (combine l o) (combine l' o').
Proof.
  intros P. revert o. induction P as [| x l l' P IH | x y l | l l' l'' P1 IH1 P2 IH2];
    intros o H.
  - inversion H; subst. exists []. split; constructor.
  - inversion H as [|x' r l0 rs Hr Hrs]; subst.
    destruct (IH rs Hrs) as (o' & Ho' & Hp).
    exists (r :: o'). split; [constructor; assumption | cbn [combine]; constructor; exact Hp].
  - inversion H as [|y' ry l0 rs0 Hry Hrs0]; subst.
    inversion Hrs0 as [|x' rx l1 rs Hrx Hrs]; subst.
    exists (rx :: ry :: rs). split; [repeat constructor; assumption|].
    cbn [combine]. apply perm_swap.
  - destruct (IH1 o H) as (o' & Ho' & Hp1).
    destruct (IH2 o' Ho') as (o'' & Ho'' & Hp2).
    exists o''. split; [assumption | eapply perm_trans; eassumption].
Qed.

(** C2, as the code has it.  A call is the element expression [reward t]
    mapped over the input: whenever it returns, the result has the length
    of the input and element [i] of the result is [reward t] of element [i]
    of the input alone; it returns exactly when no element raises; and
    permuting the input of a call that returns permutes the result with
    it. *)
Theorem call_elementwise (libm : Libm) (t : RewardTransform) (errors : list float) :
  (forall out, call libm t errors = Ok out ->
     length out = length errors /\
     Forall2 (fun e r => reward libm t e = Ok r) errors out) /\
  ((exists out, call libm t errors = Ok out) <->
     Forall (fun e => exists r, reward libm t e = Ok r) errors) /\
  (forall out errors',
     call libm t errors = Ok out -> Permutation errors errors' ->
     exists out', call libm t errors' = Ok out' /\
                  Permutation (combine errors out) (combine errors' out')).
Proof.
  unfold call. split; [|split].
  - intros out H. apply list_comp_Forall2 in H.
    split; [symmetry; eapply Forall2_length; exact H | exact H].
  - apply list_comp_Forall.
  - intros out errors' H P. apply list_comp_Forall2 in H.
    destruct (Forall2_permute _ errors errors' out P H) as (out' & H' & Hp).
    exists out'. split; [apply list_comp_Forall2; exact H' | exact Hp].
Qed.

(** C2 as stated fails: the transforms are not total.  [LogReward()] with
    its default offset raises [ValueError] on the error [-1.0]. *)
Lemma call_total_counterexample :
  ~ (forall (libm : Libm) (t : RewardTransform) (errors : list float),
        exp_spec (c_exp libm) ->
        exists out, call libm t errors = Ok out /\ length out = length errors).
Proof.
  intros H.
  destruct (H ref_libm LogReward_default [(-1)%float] ref_exp_spec) as (out & Hc & _).
  change (call ref_libm LogReward_default [(-1)%float]) with
    (@Raise (list pynum) ValueError) in Hc.
  discriminate Hc.
Qed.

(** ** The logarithm *)

Lemma is_finite_true_iff (x : float) :
  is_finite x = true <-> is_nan x = false /\ - Zinf < fval x < Zinf.
Proof.
  unfold is_finite. rewrite negb_true_iff, orb_false_iff, is_infinity_false_iff.
  destruct (is_nan x); intuition discriminate.
Qed.

Lemma math_log_nonpositive (libm : Libm) (s : float) :
  (s <=? 0)%float = true -> math_log libm s = Raise ValueError.
Proof.
  intros H. apply leb_true_iff in H. destruct H as (Ns & _ & H).
  rewrite fval_zero in H. pose proof Zinf_pos.
  unfold math_log, m_log. rewrite Ns.
  assert (L : (0 <? s)%float = false) by (apply ltb_false_iff; rewrite fval_zero; auto).
  rewrite L.
  destruct (is_finite s) eqn:F.
  - destruct (s =? 0)%float; reflexivity.
  - reflexivity.
Qed.

Lemma math_log_positive (libm : Libm) (s : float) :
  (0 <? s)%float = true -> is_finite s = true ->
  math_log libm s
  = if is_finite (c_log libm s) then Ok (c_log libm s) else Raise ValueError.
Proof.
  intros L F. unfold math_log, m_log. rewrite F, L.
  apply ltb_true_iff in L. destruct L as (_ & Ns & _). rewrite Ns.
  unfold is_finite at 1.
  destruct (is_nan (c_log libm s)); [reflexivity|].
  destruct (is_infinity (c_log libm s)); reflexivity.
Qed.

Lemma float_cases (s : float) :
  is_nan s = true \/ (s <=? 0)%float = true \/ s = infinity \/
  ((0 <? s)%float = true /\ is_finite s = true).
Proof.
  destruct (is_nan s) eqn:Ns; [auto | right].
  destruct (Z_le_gt_dec (fval s) 0) as [Hle | Hgt].
  - left. apply leb_true_iff. rewrite fval_zero. auto.
  - right. pose proof (fval_range s) as [_ Hhi].
    destruct (Z.eq_dec (fval s) Zinf) as [E | NE].
    + left. apply fval_inf_eq; assumption.
    + right. split.
      * apply ltb_true_iff. rewrite fval_zero. repeat split; auto; lia.
      * apply is_finite_true_iff. split; [assumption | lia].
Qed.

(** C7, as the code has it.  [LogReward] hands [error + offset] to
    [math.log].  A NaN sum, which a NaN error always gives, comes back as
    NaN; a sum that is [<= 0] raises [ValueError] (never a NaN or
    [-infinity] result); the sum [+infinity] comes back as [+infinity]; and
    a positive finite sum returns the platform's logarithm of it, a finite
    number ([ValueError] if the platform handed back anything else).  These
    four cases are all there are. *)
Theorem log_reward_spec (libm : Libm) (offset error : float) :
  let s := (error + offset)%float in
  (isnan error = true -> isnan s = true) /\
  (isnan s = true -> reward libm (LogReward offset) error = Ok (PyFloat nan)) /\
  ((s <=? 0)%float = true ->
     reward libm (LogReward offset) error = Raise ValueError) /\
  (s = infinity ->
     reward libm (LogReward offset) error = Ok (PyFloat infinity)) /\
  ((0 <? s)%float = true -> is_finite s = true ->
     reward libm (LogReward offset) error
     = if is_finite (c_log libm s) then Ok (PyFloat (c_log libm s))
       else Raise ValueError) /\
  (isnan s = true \/ (s <=? 0)%float = true \/ s = infinity \/
   ((0 <? s)%float = true /\ is_finite s = true)).
Proof.
  intros s. unfold isnan. cbn [reward]. fold s.
  split; [|split; [|split; [|split; [|split]]]].
  - intros H. apply is_nan_eq in H. unfold s. rewrite H, add_nan_l. reflexivity.
  - intros H. apply is_nan_eq in H. rewrite H. reflexivity.
  - intros H. rewrite math_log_nonpositive by assumption. reflexivity.
  - intros H. rewrite H. reflexivity.
  - intros L F. rewrite math_log_positive by assumption.
    destruct (is_finite (c_log libm s)); reflexivity.
  - apply float_cases.
Qed.

Lemma Ok_PyFloat_inj (x y : float) : Ok (PyFloat x) = Ok (PyFloat y) -> x = y.
Proof.
  intros H.
  exact (f_equal (fun r => match r with Ok (PyFloat z) => z | _ => x end) H).
Qed.

(** C7 as stated fails: with the default offset the error [+infinity] is
    not NaN and its sum is not [<= 0], yet the result is [+infinity], not a
    finite logarithm. *)
Lemma log_reward_counterexample :
  ~ (forall (libm : Libm) (offset error : float),
        exp_spec (c_exp libm) ->
        isnan error = false -> (error + offset <=? 0)%float = false ->
        exists r, reward libm (LogReward offset) error = Ok (PyFloat r)
                  /\ is_finite r = true).
Proof.
  intros H.
  destruct (H ref_libm 0x1.a36e2eb1c432dp-14%float infinity ref_exp_spec eq_refl eq_refl)
    as (r & Hr & Hf).
  change (reward ref_libm (LogReward 0x1.a36e2eb1c432dp-14) infinity)
    with (Ok (PyFloat infinity)) in Hr.
  apply Ok_PyFloat_inj in Hr. subst r. discriminate Hf.
Qed.

(** ** Real and complex results *)







(** ** The logistic function *)

Lemma fval_50 : fval (-50) = - fval 50 /\ 0 < fval 50.
Proof.
  split.
  - change (-50)%float with (- (50))%float. apply fval_opp.
  - assert (H : (0 <? 50)%float = true) by reflexivity.
    apply ltb_true_iff in H. rewrite fval_zero in H. apply H.
Qed.

Lemma clip_50_range (x : float) :
  is_nan x = false ->
  let c := clip_value x (-50) 50 in
  is_nan c = false /\ - fval 50 <= fval c <= fval 50 /\
  fval c = Z.max (- fval 50) (Z.min (fval 50) (fval x)).
Proof.
  intros Nx c. destruct fval_50 as [E50 P50].
  destruct (fval_clip_value x (-50) 50 Nx eq_refl eq_refl) as [Nc Ec].
  fold c in Nc, Ec. rewrite E50 in Ec. repeat split; try assumption; lia.
Qed.

Section Logistic.

Variable libm : Libm.
Hypothesis Hexp : exp_spec (c_exp libm).

Let exp_nan : c_exp libm nan = nan := proj1 Hexp.
Let exp_neg_zero : c_exp libm (-0)%float = 1%float := proj1 (proj2 (proj2 Hexp)).
Let exp_mono := proj1 (proj2 (proj2 (proj2 Hexp))).
Let exp_lo : (0 <=? c_exp libm (-50))%float = true :=
  proj1 (proj2 (proj2 (proj2 (proj2 Hexp)))).
Let exp_hi : (c_exp libm 50 <=? 0x1p73)%float = true :=
  proj2 (proj2 (proj2 (proj2 (proj2 Hexp)))).

(** On a clamped argument [exp] lies in [[0, 2^73]]. *)
Lemma exp_clamped_range (c : float) :
  is_nan c = false -> - fval 50 <= fval c <= fval 50 ->
  (0 <=? c_exp libm (- c))%float = true /\
  (c_exp libm (- c) <=? 0x1p73)%float = true.
Proof.
  intros Nc Hc. destruct fval_50 as [E50 P50].
  assert (H1 : (-50 <=? - c)%float = true).
  { apply leb_true_iff. rewrite (is_nan_opp c), (fval_opp c), E50.
    repeat split; [assumption | lia]. }
  assert (H2 : (- c <=? 50)%float = true).
  { apply leb_true_iff. rewrite (is_nan_opp c), (fval_opp c).
    repeat split; [assumption | lia]. }
  split.
  - eapply leb_trans; [exact exp_lo | apply exp_mono; exact H1].
  - eapply leb_trans; [apply exp_mono; exact H2 | exact exp_hi].
Qed.

(** [1 + e] for [e] in [[0, 2^73]] lies in [[1, 2^74]]. *)
Lemma one_plus_range (e : float) :
  (0 <=? e)%float = true -> (e <=? 0x1p73)%float = true ->
  (1 <=? 1 + e)%float = true /\ (1 + e <=? 0x1p74)%float = true.
Proof.
  intros H0 H1. split.
  - change ((1 + 0 <=? 1 + e)%float = true).
    apply add_one_mono; [reflexivity | assumption].
  - eapply leb_trans; [apply add_one_mono; eassumption | reflexivity].
Qed.

Lemma math_exp_clamped (c : float) :
  is_nan c = false -> - fval 50 <= fval c <= fval 50 ->
  math_exp libm (- c) = Ok (c_exp libm (- c)).
Proof.
  intros Nc Hc. destruct (exp_clamped_range c Nc Hc) as [H0 H1].
  apply leb_true_iff in H0, H1.
  destruct H0 as (_ & Ne & H0), H1 as (_ & _ & H1).
  rewrite fval_zero in H0.
  assert (Hb : fval 0x1p73 < Zinf).
  { assert (H : (0x1p73 <=? 0x1p74)%float = true) by reflexivity.
    apply leb_true_iff in H. rewrite fval_two_pow_74 in H.
    pose proof Ztop_lt_Zinf. lia. }
  unfold math_exp. rewrite Ne. cbn [andb].
  assert (I : is_infinity (c_exp libm (- c)) = false).
  { apply is_infinity_false_iff. right. pose proof Zinf_pos. lia. }
  rewrite I. reflexivity.
Qed.

Lemma logistic_value_unfold (x : float) :
  is_nan x = false ->
  let e := c_exp libm (- clip_value x (-50) 50) in
  logistic_value libm x = Ok (1 / (1 + e))%float /\
  (0 <=? e)%float = true /\ (e <=? 0x1p73)%float = true.
Proof.
  intros Nx e. destruct (clip_50_range x Nx) as (Nc & Hc & _).
  destruct (exp_clamped_range _ Nc Hc) as [H0 H1]. fold e in H0, H1.
  split; [|split; assumption].
  unfold logistic_value. rewrite math_exp_clamped by assumption.
  cbn [bind]. fold e. unfold float_div.
  destruct (one_plus_range e H0 H1) as [Hs _].
  assert (Z : (1 + e =? 0)%float = false).
  { apply leb_true_iff in Hs. rewrite fval_one in Hs.
    apply eqb_false_iff. right. right. rewrite fval_zero.
    pose proof Zone_pos. lia. }
  rewrite Z. reflexivity.
Qed.

(** A logistic value is positive and at most one. *)
Lemma logistic_value_range (x : float) :
  is_nan x = false ->
  exists l, logistic_value libm x = Ok l /\
            (0 <? l)%float = true /\ (l <=? 1)%float = true.
Proof.
  intros Nx. destruct (logistic_value_unfold x Nx) as (E & H0 & H1).
  set (e := c_exp libm (- clip_value x (-50) 50)) in *.
  destruct (one_plus_range e H0 H1) as [Hs1 Hs2].
  exists (1 / (1 + e))%float. split; [exact E|]. split.
  - assert (L : (1 / 0x1p74 <=? 1 / (1 + e))%float = true)
      by (apply div_one_antitone; [assumption | assumption | reflexivity]).
    assert (P : (0 <? 1 / 0x1p74)%float = true) by reflexivity.
    apply leb_true_iff in L. apply ltb_true_iff in P. apply ltb_true_iff.
    intuition lia.
  - change ((1 / (1 + e) <=? 1 / 1)%float = true).
    apply div_one_antitone; [reflexivity | assumption | assumption].
Qed.

Lemma logistic_value_mono (x y : float) :
  (x <=? y)%float = true ->
  exists lx ly, logistic_value libm x = Ok lx /\ logistic_value libm y = Ok ly /\
                (lx <=? ly)%float = true.
Proof.
  intros H. apply leb_true_iff in H. destruct H as (Nx & Ny & H).
  destruct (logistic_value_unfold x Nx) as (Ex & Hx0 & Hx1).
  destruct (logistic_value_unfold y Ny) as (Ey & Hy0 & Hy1).
  destruct (clip_50_range x Nx) as (Ncx & _ & Fx).
  destruct (clip_50_range y Ny) as (Ncy & _ & Fy).
  set (cx := clip_value x (-50) 50) in *. set (cy := clip_value y (-50) 50) in *.
  assert (Hc : (- cy <=? - cx)%float = true).
  { apply leb_true_iff.
    rewrite (is_nan_opp cx), (is_nan_opp cy), (fval_opp cx), (fval_opp cy).
    repeat split; try assumption. lia. }
  pose proof (exp_mono _ _ Hc) as He.
  destruct (one_plus_range _ Hy0 Hy1) as [Hs1 _].
  destruct (one_plus_range _ Hx0 Hx1) as [_ Hs2].
  eexists. eexists. split; [exact Ex|]. split; [exact Ey|].
  apply div_one_antitone; [assumption | | assumption].
  apply add_one_mono; assumption.
Qed.

Lemma clip_above_50 (x : float) :
  (50 <=? x)%float = true -> clip_value x (-50) 50 = 50%float.
Proof.
  intros H. apply leb_true_iff in H. destruct H as (_ & Nx & H).
  unfold clip_value, isnan, py_min. rewrite Nx.
  assert (L : (x <? 50)%float = false) by (apply ltb_false_iff; auto).
  rewrite L. reflexivity.
Qed.


Lemma logistic_value_clip (x c : float) :
  clip_value x (-50) 50 = c -> clip_value c (-50) 50 = c ->
  logistic_value libm x = logistic_value libm c.
Proof. intros Hx Hc. unfold logistic_value. rewrite Hx, Hc. reflexivity. Qed.

Lemma logistic_value_zero : logistic_value libm 0 = Ok 0.5%float.
Proof.
  unfold logistic_value.
  change (- clip_value 0 (-50) 50)%float with (-0)%float.
  unfold math_exp. rewrite exp_neg_zero. reflexivity.
Qed.

End Logistic.



(** C10. Under a platform [exp] that satisfies [exp_spec],
    [logistic_value] returns on every float: [math.exp] is only called
    inside [[-50, 50]] (or on NaN) and returns there without overflow, and
    the division never meets a zero.  [+infinity] gives the result of 50,
    [-infinity] the result of -50, and NaN gives NaN. *)
Theorem logistic_value_total (libm : Libm) :
  exp_spec (c_exp libm) ->
  (forall x, exists r, logistic_value libm x = Ok r) /\
  (forall x, exists e, math_exp libm (- clip_value x (-50) 50) = Ok e) /\
  logistic_value libm infinity = logistic_value libm 50 /\
  logistic_value libm neg_infinity = logistic_value libm (-50) /\
  logistic_value libm nan = Ok nan.
Proof.
  intros Hexp.
  split; [|split; [|split; [|split]]].
  - intros x. destruct (is_nan x) eqn:Nx.
    + apply is_nan_eq in Nx. subst x. exists nan.
      apply logistic_value_nan. apply Hexp.
    + destruct (logistic_value_range libm Hexp x Nx) as (l & E & _). eauto.
  - intros x. destruct (is_nan x) eqn:Nx.
    + apply is_nan_eq in Nx. subst x. exists nan.
      change (- clip_value nan (-50) 50)%float with nan.
      apply math_exp_nan. apply Hexp.
    + destruct (clip_50_range x Nx) as (Nc & Hc & _).
      eexists. apply math_exp_clamped; assumption.
  - reflexivity.
  - reflexivity.
  - apply logistic_value_nan. apply Hexp.
Qed.

Lemma logistic_value_total_witness :
  exp_spec (c_exp ref_libm) /\
  (forall x, exists r, logistic_value ref_libm x = Ok r) /\
  (forall x, exists e, math_exp ref_libm (- clip_value x (-50) 50) = Ok e) /\
  logistic_value ref_libm infinity = logistic_value ref_libm 50 /\
  logistic_value ref_libm neg_infinity = logistic_value ref_libm (-50) /\
  logistic_value ref_libm nan = Ok nan.
Proof.
  split; [exact ref_exp_spec|].
  exact (logistic_value_total ref_libm ref_exp_spec).
Defined.

(** ** The sigmoid *)

(** C6, as the code has it.  Under a platform [exp] that satisfies
    [exp_spec], whenever the rescaling of the error returns a value that is
    not NaN, [SigmoidReward] returns a float in the half-open interval
    [(0, 1]]: positive, and at most 1. *)
Theorem sigmoid_range
    (libm : Libm) (bad_value good_value low_sharpness high_sharpness : float)
    (error s : float) :
  exp_spec (c_exp libm) ->
  scale_value error bad_value good_value low_sharpness high_sharpness = Ok s ->
  isnan s = false ->
  exists r,
    reward libm (SigmoidReward bad_value good_value low_sharpness high_sharpness) error
    = Ok (PyFloat r) /\
    (0 <? r)%float = true /\ (r <=? 1)%float = true.
Proof.
  intros Hexp Hs Ns. cbn [reward]. rewrite Hs. cbn [bind].
  destruct (logistic_value_range libm Hexp s Ns) as (l & E & H0 & H1).
  exists l. rewrite E. auto.
Qed.

(** The default-like sigmoid on the error [0.5], under the reference
    library. *)
Lemma sigmoid_range_witness :
  exp_spec (c_exp ref_libm) /\
  scale_value 0.5 0 1 (-3) 3 = Ok 0%float /\
  isnan 0 = false /\
  exists r,
    reward ref_libm (SigmoidReward 0 1 (-3) 3) 0.5 = Ok (PyFloat r) /\
    (0 <? r)%float = true /\ (r <=? 1)%float = true.
Proof.
  split; [exact ref_exp_spec|]. split; [reflexivity|]. split; [reflexivity|].
  exact (sigmoid_range ref_libm 0 1 (-3) 3 0.5 0 ref_exp_spec eq_refl eq_refl).
Defined.

(** C6 as stated fails: the result reaches 1.0.  With [bad_value=1],
    [good_value=0] and sharpness [-3, 3] the error [-10] rescales to 63,
    which is clamped to 50; [exp(-50)] is below half an ulp of 1, so
    [1 + exp(-50)] is 1.0 and so is the result. *)
Lemma sigmoid_open_interval_counterexample :
  ~ (forall (libm : Libm) (bad_value good_value low_sharpness high_sharpness : float)
            (error : float),
        exp_spec (c_exp libm) ->
        (bad_value =? good_value)%float = false -> isnan error = false ->
        exists r,
          reward libm (SigmoidReward bad_value good_value low_sharpness high_sharpness)
                 error = Ok (PyFloat r) /\
          (0 <? r)%float = true /\ (r <? 1)%float = true).
Proof.
  intros H.
  destruct (H ref_libm 1 0 (-3) 3 (-10) ref_exp_spec eq_refl eq_refl)%float
    as (r & Hr & _ & Hlt).
  assert (E : reward ref_libm (SigmoidReward 1 0 (-3) 3) (-10) = Ok (PyFloat 1))
    by (vm_compute; reflexivity).
  rewrite E in Hr. apply Ok_PyFloat_inj in Hr. subst r. discriminate Hlt.
Qed.

(** Why the bound 1 is reached: wherever the platform's [exp(-50)] is at
    most [2^-54] (it is about [2^-72]), [1 + exp(-50)] rounds to 1 and every
    argument from 50 upwards has a logistic value equal to 1. *)
Lemma logistic_value_saturates (libm : Libm) (x : float) :
  exp_spec (c_exp libm) ->
  (c_exp libm (-50) <=? 0x1p-54)%float = true ->
  (50 <=? x)%float = true ->
  exists l, logistic_value libm x = Ok l /\ (l =? 1)%float = true.
Proof.
  intros Hexp Hsmall Hx.
  rewrite (logistic_value_clip libm x 50 (clip_above_50 x Hx) eq_refl).
  destruct (logistic_value_unfold libm Hexp 50 eq_refl) as (E & H0 & H1).
  change (- clip_value 50 (-50) 50)%float with (-50)%float in E, H0, H1.
  set (e := c_exp libm (-50)) in *.
  destruct (one_plus_range e H0 H1) as [Hs1 Hs2].
  assert (Hs3 : (1 + e <=? 1)%float = true).
  { change ((1 + e <=? 1 + 0x1p-54)%float = true).
    apply add_one_mono; assumption. }
  exists (1 / (1 + e))%float. split; [exact E|].
  assert (L1 : (1 / (1 + e) <=? 1 / 1)%float = true)
    by (apply div_one_antitone; [reflexivity | assumption | assumption]).
  assert (L2 : (1 / 1 <=? 1 / (1 + e))%float = true)
    by (apply div_one_antitone; [assumption | assumption | reflexivity]).
  apply leb_true_iff in L1, L2. apply eqb_true_iff.
  change (1 / 1)%float with 1%float in L1, L2. intuition lia.
Qed.

(** ** Rescaling *)

Lemma is_finite_spec (x : float) : is_finite x = sf_finite (Prim2SF x).
Proof.
  unfold is_finite, is_infinity. rewrite is_nan_spec, eqb_spec, abs_spec.
  change (Prim2SF infinity) with (S754_infinity false).
  destruct (Prim2SF x) as [s | s | | s m e]; reflexivity.
Qed.

Lemma eqb_zero_spec (x : float) :
  (x =? 0)%float = negb (sf_nonzero (Prim2SF x)) && negb (sf_is_nan (Prim2SF x)).
Proof.
  rewrite eqb_spec. change (Prim2SF 0) with (S754_zero false).
  destruct (Prim2SF x) as [s | s | | s m e]; try reflexivity; destruct s; reflexivity.
Qed.

Lemma rn_float_nonzero (N : Z) : 1 <= N -> sf_nonzero (rn_float N 1) = true.
Proof.
  intros HN.
  assert (Hm : 1 <= rn_mant N 1).
  { unfold rn_mant.
    destruct (rn_shift_facts N 1 ltac:(lia) ltac:(lia)) as (Ht & Hf & Hn).
    set (t := rn_shift N 1) in *.
    assert (HD : 0 < 1 * 2 ^ t) by (rewrite Z.mul_1_l; apply Z.pow_pos_nonneg; lia).
    destruct (rne_spec N (1 * 2 ^ t) HD) as (Hk & _).
    set (k := rne N (1 * 2 ^ t)) in *.
    change (2 ^ 53) with 9007199254740992 in *.
    change (2 ^ 52) with 4503599627370496 in *.
    destruct (Z.eqb_spec k 9007199254740992); [lia|].
    destruct (Z.eq_dec t 0) as [E0 | NE].
    - rewrite E0 in Hk. change (1 * 2 ^ 0) with 1 in Hk. rewrite Z.div_1_r in Hk. lia.
    - specialize (Hn ltac:(lia)). lia. }
  unfold rn_float. destruct (rn_mant N 1) as [|p|p]; try lia.
  destruct (rn_exp N 1 <=? 2045); reflexivity.
Qed.

Lemma binary_round_aux_sign (m e : Z) (l : location) :
  binary_round_aux prec emax true m e l
  = SFopp (binary_round_aux prec emax false m e l).
Proof.
  unfold binary_round_aux.
  destruct (shr_fexp prec emax m e l) as [mrs' e'].
  destruct (shr_fexp prec emax _ e' loc_Exact) as [mrs'' e''].
  destruct (shr_m mrs''); try reflexivity.
  destruct (e'' <=? emax - prec); reflexivity.
Qed.

Lemma sf_nonzero_opp (r : spec_float) : sf_nonzero (SFopp r) = sf_nonzero r.
Proof. destruct r; reflexivity. Qed.

Lemma binary_normalize_nonzero (M e : Z) :
  M <> 0 -> - 1074 <= e ->
  sf_nonzero (binary_normalize prec emax M e false) = true.
Proof.
  intros HM He. destruct M as [|p|p]; [lia | |]; cbn [binary_normalize].
  - rewrite binary_round_rn by assumption. apply rn_float_nonzero.
    assert (0 < 2 ^ (e + 1074)) by (apply Z.pow_pos_nonneg; lia). nia.
  - unfold binary_round.
    destruct (shl_align p e _) as [mz ez] eqn:Es.
    rewrite binary_round_aux_sign, sf_nonzero_opp.
    pose proof (binary_round_rn p e He) as Hr. unfold binary_round in Hr.
    rewrite Es in Hr. rewrite Hr. apply rn_float_nonzero.
    assert (0 < 2 ^ (e + 1074)) by (apply Z.pow_pos_nonneg; lia). nia.
Qed.

Lemma aligned_value (s : bool) (m : positive) (e ez : Z) :
  - 1074 <= ez <= e ->
  cond_Zopp s (Z.pos (fst (shl_align m e ez))) * 2 ^ (ez + 1074)
  = Zval (S754_finite s m e).
Proof.
  intros He. pose proof (shl_align_spec m e ez) as Hs.
  destruct (shl_align m e ez) as [p e']. destruct Hs as [He' Hp].
  cbn [fst Zval]. rewrite Hp.
  replace (2 ^ (e + 1074)) with (2 ^ (e - e') * 2 ^ (ez + 1074)).
  - destruct s; cbn [cond_Zopp]; ring.
  - rewrite <- Z.pow_add_r by lia. f_equal. lia.
Qed.

(** The difference of two finite floats is zero only if they are equal:
    subtraction underflows gradually. *)
Lemma SFsub_finite_nonzero (sx sy : bool) (mx my : positive) (ex ey : Z) :
  - 1074 <= ex -> - 1074 <= ey ->
  Zval (S754_finite sx mx ex) <> Zval (S754_finite sy my ey) ->
  sf_nonzero (SFsub prec emax (S754_finite sx mx ex) (S754_finite sy my ey)) = true.
Proof.
  intros Hex Hey Hne. cbn [SFsub].
  change (IntDef.Z.min ex ey) with (Z.min ex ey).
  apply binary_normalize_nonzero; [|lia].
  intros E. apply Hne.
  rewrite <- (aligned_value sx mx ex (Z.min ex ey)) by lia.
  rewrite <- (aligned_value sy my ey (Z.min ex ey)) by lia.
  f_equal. change (IntDef.Z.sub ?a ?b) with (a - b) in E. lia.
Qed.

Lemma sub_nonzero (x y : float) :
  is_nan x = false -> is_finite y = true -> (x =? y)%float = false ->
  sf_nonzero (Prim2SF (x - y)) = true.
Proof.
  intros Nx Fy Hne.
  apply eqb_false_iff in Hne.
  assert (Ny : is_nan y = false) by (apply is_finite_true_iff in Fy; apply Fy).
  destruct Hne as [Hne | [Hne | Hne]]; try congruence.
  rewrite is_finite_spec in Fy. rewrite is_nan_spec in Nx.
  unfold fval in Hne.
  rewrite sub_spec. unfold SF64sub.
  pose proof (Prim2SF_valid x) as Vx. pose proof (Prim2SF_valid y) as Vy.
  destruct (Prim2SF x) as [sx | sx | | sx mx ex], (Prim2SF y) as [sy | sy | | sy my ey];
    try discriminate; try reflexivity; cbn [Zval] in Hne; try lia.
  pose proof (bounded_canonical mx ex Vx) as (Hex & _).
  pose proof (bounded_canonical my ey Vy) as (Hey & _).
  apply SFsub_finite_nonzero; (lia || exact Hne).
Qed.

Lemma SFsub_diag (x : spec_float) :
  sf_finite x = true -> exists s, SFsub prec emax x x = S754_zero s.
Proof.
  destruct x as [s | s | | s m e]; try discriminate; intros _.
  - destruct s; eexists; reflexivity.
  - cbn [SFsub]. change (IntDef.Z.sub ?a ?a) with (a - a).
    rewrite Z.sub_diag. eexists; reflexivity.
Qed.

(** [scale_value] at [value = old_min]. *)
Lemma scale_value_lower (old_min old_max a b : float) :
  is_finite old_min = true -> is_nan old_max = false ->
  (old_min =? old_max)%float = false -> is_finite (b - a) = true ->
  exists r, scale_value old_min old_min old_max a b = Ok r /\ (r =? a)%float = true.
Proof.
  intros Fmin Nmax Hne Fba.
  assert (Hd : sf_nonzero (Prim2SF (old_max - old_min)) = true).
  { apply sub_nonzero; try assumption.
    apply eqb_false_iff in Hne. apply eqb_false_iff.
    destruct Hne as [H | [H | H]]; auto. }
  unfold scale_value, float_div. rewrite eqb_zero_spec, Hd. cbn [bind negb andb].
  eexists. split; [reflexivity|].
  rewrite sub_spec in Hd.
  rewrite eqb_spec, add_spec, div_spec, mul_spec, !sub_spec.
  rewrite is_finite_spec in Fmin. rewrite is_finite_spec, sub_spec in Fba.
  destruct (SFsub_diag (Prim2SF old_min) Fmin) as [s0 E0].
  unfold SF64sub in *. rewrite E0.
  destruct (SFsub prec emax (Prim2SF b) (Prim2SF a)) as [sd | sd | | sd md ed] eqn:Eba;
    try discriminate.
  - (* b - a is a zero *)
    cbn [SF64mul SFmul].
    destruct (SFsub prec emax (Prim2SF old_max) (Prim2SF old_min)) as [s | s | | s m e];
      try discriminate; cbn [SF64div SFdiv];
      destruct (Prim2SF a) as [sa | sa | | sa ma ea], (Prim2SF b) as [sb | sb | | sb mb eb];
      try discriminate;
      try (destruct sa; destruct sb; discriminate);
      unfold SF64add; cbn [SFadd SFeqb SFcompare];
      try (destruct sa; destruct (xorb (xorb s0 sd) s); reflexivity);
      try (rewrite Z.compare_refl, Pos.compare_cont_refl; destruct sa; reflexivity).
  - cbn [SF64mul SFmul].
    destruct (SFsub prec emax (Prim2SF old_max) (Prim2SF old_min)) as [s | s | | s m e];
      try discriminate; cbn [SF64div SFdiv];
      destruct (Prim2SF a) as [sa | sa | | sa ma ea], (Prim2SF b) as [sb | sb | | sb mb eb];
      try discriminate;
      try (destruct sa; destruct sb; discriminate);
      unfold SF64add; cbn [SFadd SFeqb SFcompare];
      try (destruct sa; destruct (xorb (xorb s0 sd) s); reflexivity);
      try (rewrite Z.compare_refl, Pos.compare_cont_refl; destruct sa; reflexivity).
Qed.

(** [scale_value] raises exactly when [old_max - old_min] is a zero, which
    for a finite [old_min] and an [old_max] that is not NaN means
    [old_min == old_max]. *)
Lemma scale_value_raises (value old_min old_max a b : float) :
  (old_max - old_min =? 0)%float = true ->
  scale_value value old_min old_max a b = Raise ZeroDivisionError.
Proof. intros H. unfold scale_value, float_div. rewrite H. reflexivity. Qed.

Lemma scale_value_returns (value old_min old_max a b : float) :
  is_finite old_min = true -> is_nan old_max = false ->
  (old_min =? old_max)%float = false ->
  exists s, scale_value value old_min old_max a b = Ok s.
Proof.
  intros Fmin Nmax Hne.
  assert (Hd : sf_nonzero (Prim2SF (old_max - old_min)) = true).
  { apply sub_nonzero; try assumption.
    apply eqb_false_iff in Hne. apply eqb_false_iff.
    destruct Hne as [H | [H | H]]; auto. }
  unfold scale_value, float_div. rewrite eqb_zero_spec, Hd. cbn [bind negb andb].
  eexists. reflexivity.
Qed.






(** * Further properties of the code *)

(** ** Clipping *)

(** X1. Clipping is idempotent, for every value and every pair of bounds
    (NaN and inverted bounds included): clipping a clipped value returns
    the very same float. *)
Theorem clip_value_idempotent (value min_val max_val : float) :
  clip_value (clip_value value min_val max_val) min_val max_val
  = clip_value value min_val max_val.
Proof.
  unfold clip_value, isnan, py_min, py_max.
  repeat first
    [ progress cbv iota
    | match goal with
      | |- context [(?a <? ?b)%float] =>
          is_var a; is_var b; destruct (a <? b)%float eqn:?
      | |- context [is_nan ?a] => is_var a; destruct (is_nan a) eqn:?
      end ];
    try reflexivity; exfalso;
    repeat match goal with
           | H : (_ <? _)%float = true |- _ =>
               apply ltb_true_iff in H; destruct H as (? & ? & ?)
           | H : (_ <? _)%float = false |- _ => apply ltb_false_iff in H
           end;
    intuition (try congruence; try lia).
Qed.

(** X2. For a value that is not NaN and bounds [min_val <= max_val], the
    clipped value lies within the bounds. *)
Theorem clip_value_within_bounds (value min_val max_val : float) :
  isnan value = false -> (min_val <=? max_val)%float = true ->
  (min_val <=? clip_value value min_val max_val)%float = true /\
  (clip_value value min_val max_val <=? max_val)%float = true.
Proof.
  unfold isnan. intros Nv H. apply leb_true_iff in H. destruct H as (Nlo & Nhi & H).
  destruct (fval_clip_value value min_val max_val Nv Nlo Nhi) as [Nc Ec].
  split; apply leb_true_iff; repeat split; try assumption; lia.
Qed.

Lemma clip_value_within_bounds_witness :
  isnan 7 = false /\ (0 <=? 1)%float = true /\
  (0 <=? clip_value 7 0 1)%float = true /\ (clip_value 7 0 1 <=? 1)%float = true.
Proof.
  split; [reflexivity|]. split; [reflexivity|].
  exact (clip_value_within_bounds 7 0 1 eq_refl eq_refl).
Defined.

(** X3. Clipping preserves order: for bounds that are not NaN, a larger
    value never clips to a smaller one. *)
Theorem clip_value_monotone (x y min_val max_val : float) :
  isnan min_val = false -> isnan max_val = false ->
  (x <=? y)%float = true ->
  (clip_value x min_val max_val <=? clip_value y min_val max_val)%float = true.
Proof.
  unfold isnan. intros Nlo Nhi H. apply leb_true_iff in H. destruct H as (Nx & Ny & H).
  destruct (fval_clip_value x min_val max_val Nx Nlo Nhi) as [Ncx Ex].
  destruct (fval_clip_value y min_val max_val Ny Nlo Nhi) as [Ncy Ey].
  apply leb_true_iff. repeat split; try assumption. lia.
Qed.

Lemma clip_value_monotone_witness :
  isnan 0 = false /\ isnan 1 = false /\ (0.5 <=? 7)%float = true /\
  (clip_value 0.5 0 1 <=? clip_value 7 0 1)%float = true.
Proof.
  split; [reflexivity|]. split; [reflexivity|]. split; [reflexivity|].
  exact (clip_value_monotone 0.5 7 0 1 eq_refl eq_refl eq_refl).
Defined.

(** X4. Outside its contract, with bounds that do not satisfy
    [min_val <= max_val] (inverted bounds, or a bound that is NaN),
    [clip_value] returns [min_val] for every value that is not NaN. *)
Theorem clip_value_degenerate_bounds (value min_val max_val : float) :
  isnan value = false -> (min_val <=? max_val)%float = false ->
  clip_value value min_val max_val = min_val.
Proof.
  unfold isnan. intros Nv H.
  rewrite <- Bool.not_true_iff_false, leb_true_iff in H.
  unfold clip_value, isnan, py_min, py_max. rewrite Nv.
  destruct (value <? max_val)%float eqn:L1.
  - destruct (min_val <? value)%float eqn:L2; [exfalso | reflexivity].
    apply ltb_true_iff in L1, L2. apply H. intuition lia.
  - destruct (min_val <? max_val)%float eqn:L2; [exfalso | reflexivity].
    apply ltb_true_iff in L2. apply H. intuition lia.
Qed.

(** A NaN upper bound, and inverted bounds. *)
Lemma clip_value_degenerate_bounds_witness :
  isnan 0.5 = false /\ (0 <=? nan)%float = false /\ clip_value 0.5 0 nan = 0%float.
Proof.
  split; [reflexivity|]. split; [reflexivity|].
  exact (clip_value_degenerate_bounds 0.5 0 nan eq_refl eq_refl).
Defined.

(** The result of [clip_value(v, 0, 1)] is NaN or lies in [[0, 1]]. *)
Lemma clip_unit_interval (v : float) :
  let r := clip_value v 0 1 in
  is_nan r = true \/ ((0 <=? r)%float = true /\ (r <=? 1)%float = true).
Proof.
  intros r. destruct (is_nan v) eqn:Nv.
  - left. unfold r, clip_value, isnan. rewrite Nv. exact Nv.
  - right. destruct (fval_clip_value v 0 1 Nv eq_refl eq_refl) as [Nr Er].
    fold r in Nr, Er. rewrite fval_zero, fval_one in Er. pose proof Zone_pos.
    split; apply leb_true_iff; rewrite ?fval_zero, ?fval_one;
      repeat split; try assumption; try reflexivity; lia.
Qed.



(** ** The transforms that cannot raise *)

Lemma list_comp_map {A B : Type} (f : A -> result B) (g : A -> B) (errors : list A) :
  (forall e, f e = Ok (g e)) -> list_comp f errors = Ok (map g errors).
Proof.
  intros H. induction errors as [|e errors IH]; cbn [list_comp map]; [reflexivity|].
  rewrite H, IH. reflexivity.
Qed.

Lemma opp_involutive (x : float) : (- - x)%float = x.
Proof.
  apply Prim2SF_inj. rewrite !opp_spec.
  destruct (Prim2SF x) as [s | s | | s m e]; cbn [SFopp]; rewrite ?negb_involutive;
    reflexivity.
Qed.

Lemma abs_opp (x : float) : abs (- x) = abs x.
Proof.
  apply Prim2SF_inj. rewrite !abs_spec, opp_spec.
  destruct (Prim2SF x) as [s | s | | s m e]; reflexivity.
Qed.

Lemma abs_abs (x : float) : abs (abs x) = abs x.
Proof.
  apply Prim2SF_inj. rewrite !abs_spec.
  destruct (Prim2SF x) as [s | s | | s m e]; reflexivity.
Qed.

(** X6. [NegatedReward] returns on every input, element by element, and
    undoes itself: applied to its own output it returns the input, the very
    same floats. *)
Theorem negated_reward_involution (libm : Libm) (errors : list float) :
  exists out,
    length out = length errors /\
    call libm NegatedReward errors = Ok (map PyFloat out) /\
    call libm NegatedReward out = Ok (map PyFloat errors).
Proof.
  exists (map (fun e => (- e)%float) errors). unfold call.
  split; [apply length_map|]. split.
  - rewrite map_map. apply list_comp_map. reflexivity.
  - rewrite (list_comp_map _ (fun e => PyFloat (- e)%float)) by reflexivity.
    rewrite map_map. f_equal. apply map_ext. intros e. rewrite opp_involutive.
    reflexivity.
Qed.

(** X7. [AbsoluteReward] returns on every input; each element of the
    result is NaN or non-negative; the result is unchanged by a second
    application, and by negating the errors first. *)
Theorem absolute_reward_properties (libm : Libm) (errors : list float) :
  exists out,
    length out = length errors /\
    call libm AbsoluteReward errors = Ok (map PyFloat out) /\
    Forall (fun r => isnan r = true \/ (0 <=? r)%float = true) out /\
    call libm AbsoluteReward out = Ok (map PyFloat out) /\
    call libm AbsoluteReward (map (fun e => (- e)%float) errors)
    = Ok (map PyFloat out).
Proof.
  exists (map abs errors). unfold call.
  split; [apply length_map|]. split; [|split; [|split]].
  - rewrite map_map. apply list_comp_map. reflexivity.
  - apply Forall_forall. intros r Hr. apply in_map_iff in Hr.
    destruct Hr as (e & <- & _). unfold isnan.
    destruct (is_nan e) eqn:Ne.
    + left. rewrite is_nan_abs. exact Ne.
    + right. apply leb_true_iff. rewrite is_nan_abs, fval_abs, fval_zero.
      repeat split; [assumption | lia].
  - rewrite (list_comp_map _ (fun e => PyFloat (abs e))) by reflexivity.
    rewrite !map_map. f_equal. apply map_ext. intros e. rewrite abs_abs. reflexivity.
  - rewrite (list_comp_map _ (fun e => PyFloat (abs e))) by reflexivity.
    rewrite !map_map. f_equal. apply map_ext. intros e. rewrite abs_opp. reflexivity.
Qed.

(** X8. [EqualReward] returns on every input, and when [nonzero_value] is
    not equal to 1 it marks exactly the zero errors: an element of the
    result is [== 1] if and only if the error is [== 0], for every float
    (either zero, the infinities and NaN included). *)
Theorem equal_reward_indicator
    (libm : Libm) (nonzero_value : float) (errors : list float) :
  (nonzero_value =? 1)%float = false ->
  exists out,
    call libm (EqualReward nonzero_value) errors = Ok (map PyFloat out) /\
    Forall2 (fun e r => (r =? 1)%float = (e =? 0)%float) errors out.
Proof.
  intros Hnz.
  exists (map (fun e => if isnan e then e
                        else if (e =? 0)%float then 1%float else nonzero_value) errors).
  unfold call. split.
  - rewrite map_map. apply list_comp_map. reflexivity.
  - induction errors as [|e errors IH]; cbn [map]; constructor; [|exact IH].
    unfold isnan. destruct (is_nan e) eqn:Ne.
    + apply is_nan_eq in Ne. subst e. reflexivity.
    + destruct (e =? 0)%float; [reflexivity | exact Hnz].
Qed.

Lemma equal_reward_indicator_witness :
  (0 =? 1)%float = false /\
  exists out,
    call ref_libm EqualReward_default [0; -0; 3; nan]%float = Ok (map PyFloat out) /\
    Forall2 (fun e r => (r =? 1)%float = (e =? 0)%float) [0; -0; 3; nan]%float out.
Proof.
  split; [reflexivity|].
  exact (equal_reward_indicator ref_libm 0 [0; -0; 3; nan]%float eq_refl).
Defined.

(** ** Calls on concatenated inputs *)

(** X9. A call on a concatenation is the concatenation of the calls: the
    result of [t(xs + ys)] is [t(xs) + t(ys)], and when one of the parts
    raises, the exception is that of [t(xs)] if it raises and that of
    [t(ys)] otherwise.  In particular a prefix that raises makes every
    extension raise the same exception. *)
Theorem call_app (libm : Libm) (t : RewardTransform) (xs ys : list float) :
  call libm t (xs ++ ys)
  = (o1 <- call libm t xs ;; o2 <- call libm t ys ;; Ok (o1 ++ o2)).
Proof.
  unfold call. induction xs as [|x xs IH]; cbn [app list_comp bind].
  - destruct (list_comp (reward libm t) ys); reflexivity.
  - destruct (reward libm t x) as [r|e]; cbn [bind]; [|reflexivity].
    rewrite IH.
    destruct (list_comp (reward libm t) xs) as [o1|e]; cbn [bind]; [|reflexivity].
    destruct (list_comp (reward libm t) ys) as [o2|e]; cbn [bind]; reflexivity.
Qed.

(** ** Edge cases of [PowerReward] *)

(** X10. [PowerReward] with a zero exponent (of either sign) ignores its
    input: every error, NaN and the infinities included, gives 1.0. *)
Theorem power_reward_zero_exponent
    (libm : Libm) (exponent : float) (errors : list float) :
  (exponent =? 0)%float = true ->
  call libm (PowerReward exponent) errors = Ok (map (fun _ => PyFloat 1) errors).
Proof.
  intros H. unfold call. apply list_comp_map. intros e.
  cbn [reward]. unfold float_pow. rewrite H. reflexivity.
Qed.

Lemma power_reward_zero_exponent_witness :
  (-0 =? 0)%float = true /\
  call ref_libm (PowerReward (-0)) [nan; infinity; -2; 0]%float
  = Ok (map (fun _ => PyFloat 1) [nan; infinity; -2; 0]%float).
Proof.
  split; [reflexivity|].
  exact (power_reward_zero_exponent ref_libm (-0) [nan; infinity; -2; 0]%float eq_refl).
Defined.

(** X11. [PowerReward] with a negative finite exponent raises
    [ZeroDivisionError] on a zero error (of either sign). *)
Theorem power_reward_zero_division
    (libm : Libm) (exponent error : float) (rest : list float) :
  (exponent <? 0)%float = true -> is_finite exponent = true ->
  (error =? 0)%float = true ->
  call libm (PowerReward exponent) (error :: rest) = Raise ZeroDivisionError.
Proof.
  intros Hneg Hfin Hz. unfold call. cbn [list_comp reward].
  assert (R : float_pow libm error exponent = Raise ZeroDivisionError).
  { unfold float_pow.
    apply ltb_true_iff in Hneg. destruct Hneg as (Nw & _ & Hneg).
    rewrite fval_zero in Hneg.
    assert (W0 : (exponent =? 0)%float = false)
      by (apply eqb_false_iff; rewrite fval_zero; right; right; lia).
    rewrite W0.
    pose proof Hz as Hz'. apply eqb_true_iff in Hz'. destruct Hz' as (Nv & _ & Hv).
    rewrite fval_zero in Hv. rewrite Nv, Nw.
    apply is_finite_true_iff in Hfin. destruct Hfin as (_ & Hfin).
    assert (I1 : is_infinity exponent = false)
      by (apply is_infinity_false_iff; right; lia).
    rewrite I1.
    assert (I2 : is_infinity error = false).
    { apply is_infinity_false_iff. right. pose proof Zinf_pos. lia. }
    rewrite I2, Hz.
    assert (L : (exponent <? 0)%float = true)
      by (apply ltb_true_iff; rewrite fval_zero; auto).
    rewrite L. reflexivity. }
  rewrite R. reflexivity.
Qed.

Lemma power_reward_zero_division_witness :
  (-1 <? 0)%float = true /\ is_finite (-1) = true /\ (-0 =? 0)%float = true /\
  call ref_libm (PowerReward (-1)) [-0; 2]%float = Raise ZeroDivisionError.
Proof.
  split; [reflexivity|]. split; [reflexivity|]. split; [reflexivity|].
  exact (power_reward_zero_division ref_libm (-1) (-0) [2%float]
           eq_refl eq_refl eq_refl).
Defined.


(** ** Exceptions of the rescaling transforms *)

(** The difference of two equal finite floats is a zero. *)
Lemma sub_eq_zero (x y : float) :
  is_finite y = true -> (x =? y)%float = true -> (x - y =? 0)%float = true.
Proof.
  intros Fy H. apply eqb_true_iff in H. destruct H as (Nx & Ny & H).
  apply is_finite_true_iff in Fy. destruct Fy as (_ & Fy).
  rewrite eqb_zero_spec, sub_spec. rewrite is_nan_spec in Nx, Ny.
  unfold fval in H, Fy. unfold SF64sub.
  pose proof (Prim2SF_valid x) as Vx. pose proof (Prim2SF_valid y) as Vy.
  pose proof Zinf_pos as HB.
  destruct (Prim2SF x) as [sx | sx | | sx mx ex], (Prim2SF y) as [sy | sy | | sy my ey];
    try discriminate; cbn [Zval] in H, Fy;
    try (pose proof (finite_val_bound mx ex Vx));
    try (pose proof (finite_val_bound my ey Vy));
    try (exfalso; destruct sx, sy; lia).
  - destruct sx, sy; reflexivity.
  - pose proof (bounded_canonical mx ex Vx) as (Hex & _).
    pose proof (bounded_canonical my ey Vy) as (Hey & _).
    cbn [SFsub]. change (IntDef.Z.min ex ey) with (Z.min ex ey).
    pose proof (aligned_value sx mx ex (Z.min ex ey) ltac:(lia)) as Ax.
    pose proof (aligned_value sy my ey (Z.min ex ey) ltac:(lia)) as Ay.
    cbn [Zval] in Ax, Ay.
    assert (Hp : 0 < 2 ^ (Z.min ex ey + 1074)) by (apply Z.pow_pos_nonneg; lia).
    change (IntDef.Z.sub ?a ?b) with (a - b).
    match goal with
    | |- context [binary_normalize _ _ ?M _ _] =>
        replace M with 0 by (rewrite <- H in Ay; nia)
    end.
    reflexivity.
Qed.

(** X12. For a finite [old_min] and an [old_max] that is not NaN,
    [scale_value] raises [ZeroDivisionError] exactly when
    [old_min == old_max], whatever the value and the new range; otherwise it
    returns the float of its expression.  Two distinct floats never have a
    zero difference. *)
Theorem scale_value_raises_iff (value old_min old_max new_min new_max : float) :
  is_finite old_min = true -> isnan old_max = false ->
  scale_value value old_min old_max new_min new_max
  = if (old_min =? old_max)%float then Raise ZeroDivisionError
    else Ok (new_min + (value - old_min) * (new_max - new_min)
                       / (old_max - old_min))%float.
Proof.
  unfold isnan. intros Fmin Nmax. unfold scale_value, float_div.
  destruct (old_min =? old_max)%float eqn:E.
  - assert (E' : (old_max =? old_min)%float = true).
    { apply eqb_true_iff in E. apply eqb_true_iff. intuition lia. }
    rewrite (sub_eq_zero old_max old_min Fmin E'). reflexivity.
  - assert (Hd : sf_nonzero (Prim2SF (old_max - old_min)) = true).
    { apply sub_nonzero; try assumption.
      apply eqb_false_iff in E. apply eqb_false_iff.
      destruct E as [H | [H | H]]; auto. }
    rewrite eqb_zero_spec, Hd. reflexivity.
Qed.

Lemma scale_value_raises_iff_witness :
  is_finite 0x1p-1074 = true /\ isnan 0 = false /\
  scale_value 5 0x1p-1074 0 0 1
  = if (0x1p-1074 =? 0)%float then Raise ZeroDivisionError
    else Ok (0 + (5 - 0x1p-1074) * (1 - 0) / (0 - 0x1p-1074))%float.
Proof.
  split; [reflexivity|]. split; [reflexivity|].
  exact (scale_value_raises_iff 5 0x1p-1074 0 0 1 eq_refl eq_refl).
Defined.

(** Under [exp_spec], [math.exp] returns the platform's value or raises
    [OverflowError]. *)
Lemma math_exp_cases (libm : Libm) (x : float) :
  exp_spec (c_exp libm) ->
  is_nan (c_exp libm x) = is_nan x /\
  (math_exp libm x = Ok (c_exp libm x) \/ math_exp libm x = Raise OverflowError).
Proof.
  intros (Hnan & _ & _ & Hmono & _ & Hhi). unfold math_exp.
  destruct (is_nan x) eqn:Nx.
  - apply is_nan_eq in Nx. subst x. rewrite Hnan. split; [|left]; reflexivity.
  - assert (Hxx : (x <=? x)%float = true) by (apply leb_true_iff; repeat split; auto; lia).
    pose proof (Hmono x x Hxx) as Hr. apply leb_true_iff in Hr.
    destruct Hr as (Nr & _ & _). rewrite Nr. cbn [andb]. split; [reflexivity|].
    destruct (is_infinity (c_exp libm x) && is_finite x); [right | left]; reflexivity.
Qed.

Lemma logistic_value_returns (libm : Libm) (x : float) :
  exp_spec (c_exp libm) -> exists l, logistic_value libm x = Ok l.
Proof.
  intros Hexp. destruct (is_nan x) eqn:Nx.
  - apply is_nan_eq in Nx. subst x. exists nan.
    apply logistic_value_nan. apply Hexp.
  - destruct (logistic_value_range libm Hexp x Nx) as (l & E & _). eauto.
Qed.

Lemma scale_value_cases (value old_min old_max a b : float) :
  is_finite old_min = true -> is_nan old_max = false ->
  if (old_min =? old_max)%float
  then scale_value value old_min old_max a b = Raise ZeroDivisionError
  else exists s, scale_value value old_min old_max a b = Ok s.
Proof.
  intros Fmin Nmax. unfold scale_value, float_div.
  destruct (old_min =? old_max)%float eqn:E.
  - assert (E' : (old_max =? old_min)%float = true).
    { apply eqb_true_iff in E. apply eqb_true_iff. intuition lia. }
    rewrite (sub_eq_zero old_max old_min Fmin E'). reflexivity.
  - assert (Hd : sf_nonzero (Prim2SF (old_max - old_min)) = true).
    { apply sub_nonzero; try assumption.
      apply eqb_false_iff in E. apply eqb_false_iff.
      destruct E as [H | [H | H]]; auto. }
    rewrite eqb_zero_spec, Hd. eexists. reflexivity.
Qed.

Lemma rescaling_reward_cases
    (libm : Libm) (t : RewardTransform) (bad_value good_value error : float) :
  exp_spec (c_exp libm) ->
  thresholds t = Some (bad_value, good_value) ->
  is_finite bad_value = true -> is_nan good_value = false ->
  match reward libm t error with
  | Ok _ => (bad_value =? good_value)%float = false
  | Raise ZeroDivisionError => (bad_value =? good_value)%float = true
  | Raise OverflowError =>
      (bad_value =? good_value)%float = false /\
      exists sharpness, t = NegExpReward bad_value good_value sharpness
  | Raise ValueError => False
  end.
Proof.
  intros Hexp Ht Fbad Ngood.
  destruct t as [nz | | | w | off | bad good | bad good sh | bad good sh
                 | bad good lo hi]; try discriminate Ht; cbn [thresholds] in Ht;
    assert (Eb : bad = bad_value) by congruence;
    assert (Eg : good = good_value) by congruence; subst bad good; clear Ht;
    cbn [reward].
  - pose proof (scale_value_cases error bad_value good_value 0 1 Fbad Ngood) as Hs.
    destruct (bad_value =? good_value)%float.
    + rewrite Hs. reflexivity.
    + destruct Hs as [s Hs]. rewrite Hs. reflexivity.
  - pose proof (scale_value_cases error bad_value good_value sh 0 Fbad Ngood) as Hs.
    destruct (bad_value =? good_value)%float.
    + rewrite Hs. reflexivity.
    + destruct Hs as [s Hs]. rewrite Hs. cbn [bind].
      destruct (logistic_value_returns libm s Hexp) as [l Hl]. rewrite Hl. reflexivity.
  - pose proof (scale_value_cases error bad_value good_value sh 0 Fbad Ngood) as Hs.
    destruct (bad_value =? good_value)%float.
    + rewrite Hs. reflexivity.
    + destruct Hs as [s Hs]. rewrite Hs. cbn [bind].
      destruct (proj2 (math_exp_cases libm (- s) Hexp)) as [He | He]; rewrite He;
        cbn [bind]; [reflexivity | split; [reflexivity | eauto]].
  - pose proof (scale_value_cases error bad_value good_value lo hi Fbad Ngood) as Hs.
    destruct (bad_value =? good_value)%float.
    + rewrite Hs. reflexivity.
    + destruct Hs as [s Hs]. rewrite Hs. cbn [bind].
      destruct (logistic_value_returns libm s Hexp) as [l Hl]. rewrite Hl. reflexivity.
Qed.

(** X13. The exceptions of the four rescaling transforms, for a finite
    [bad_value], a [good_value] that is not NaN and a platform [exp] that
    satisfies [exp_spec].  A call raises [ZeroDivisionError] only when
    [bad_value == good_value], and then on every non-empty input;
    [OverflowError] comes only from [NegExpReward]; [ValueError] is never
    raised.  With distinct thresholds [LinearClippedReward],
    [SoftPlusReward] and [SigmoidReward] therefore return on every input,
    one element per error. *)
Theorem rescaling_rewards_exceptions
    (libm : Libm) (t : RewardTransform) (bad_value good_value : float)
    (errors : list float) :
  exp_spec (c_exp libm) ->
  thresholds t = Some (bad_value, good_value) ->
  is_finite bad_value = true -> isnan good_value = false ->
  match call libm t errors with
  | Ok out =>
      length out = length errors /\
      (errors = [] \/ (bad_value =? good_value)%float = false)
  | Raise ZeroDivisionError => (bad_value =? good_value)%float = true
  | Raise OverflowError =>
      (bad_value =? good_value)%float = false /\
      exists sharpness, t = NegExpReward bad_value good_value sharpness
  | Raise ValueError => False
  end.
Proof.
  intros Hexp Ht Fbad Ngood. unfold call.
  induction errors as [|e errors IH]; cbn [list_comp].
  - split; [reflexivity | left; reflexivity].
  - pose proof (rescaling_reward_cases libm t bad_value good_value e Hexp Ht Fbad Ngood)
      as He.
    destruct (reward libm t e) as [r | err]; cbn [bind].
    + destruct (list_comp (reward libm t) errors) as [out | err]; cbn [bind].
      * split; [cbn [length]; f_equal; apply IH | right; exact He].
      * exact IH.
    + exact He.
Qed.

Lemma rescaling_rewards_exceptions_witness :
  exp_spec (c_exp ref_libm) /\
  thresholds (SoftPlusReward 2 2 (-3)) = Some (2, 2)%float /\
  is_finite 2 = true /\ isnan 2 = false /\
  match call ref_libm (SoftPlusReward 2 2 (-3)) [1]%float with
  | Ok out =>
      length out = length [1%float] /\
      ([1%float] = [] \/ (2 =? 2)%float = false)
  | Raise ZeroDivisionError => (2 =? 2)%float = true
  | Raise OverflowError =>
      (2 =? 2)%float = false /\
      exists sharpness, SoftPlusReward 2 2 (-3) = NegExpReward 2 2 sharpness
  | Raise ValueError => False
  end.
Proof.
  split; [exact ref_exp_spec|]. split; [reflexivity|].
  split; [reflexivity|]. split; [reflexivity|].
  exact (rescaling_rewards_exceptions ref_libm (SoftPlusReward 2 2 (-3)) 2 2 [1%float]
           ref_exp_spec eq_refl eq_refl eq_refl).
Defined.

(** ** Saturation of [NegExpReward] *)

(** X14. Under [exp_spec], [NegExpReward] gives exactly 1.0 wherever the
    rescaled error is [<= 0], that is at [good_value] and beyond, unless
    [math.exp] overflows, in which case the call raises [OverflowError];
    down to a rescaled error of -50 it cannot overflow. *)
Theorem neg_exp_reward_saturates
    (libm : Libm) (bad_value good_value sharpness error s : float) :
  exp_spec (c_exp libm) ->
  scale_value error bad_value good_value sharpness 0 = Ok s ->
  (s <=? 0)%float = true ->
  (reward libm (NegExpReward bad_value good_value sharpness) error = Ok (PyFloat 1) \/
   reward libm (NegExpReward bad_value good_value sharpness) error
   = Raise OverflowError) /\
  ((-50 <=? s)%float = true ->
   reward libm (NegExpReward bad_value good_value sharpness) error = Ok (PyFloat 1)).
Proof.
  intros Hexp Hs H0. cbn [reward]. rewrite Hs. cbn [bind].
  pose proof Hexp as (_ & Hone & _ & Hmono & _ & _).
  apply leb_true_iff in H0. destruct H0 as (Ns & _ & H0). rewrite fval_zero in H0.
  assert (Hle : (0 <=? - s)%float = true).
  { apply leb_true_iff. rewrite (is_nan_opp s), (fval_opp s), fval_zero.
    repeat split; [assumption | lia]. }
  pose proof (Hmono _ _ Hle) as H1. rewrite Hone in H1.
  assert (Hclip : clip_value (c_exp libm (- s)) 0 1 = 1%float).
  { apply leb_true_iff in H1. destruct H1 as (_ & Ne & H1).
    unfold clip_value, isnan, py_min. rewrite Ne.
    assert (L : (c_exp libm (- s) <? 1)%float = false)
      by (apply ltb_false_iff; auto).
    rewrite L. reflexivity. }
  split.
  - destruct (proj2 (math_exp_cases libm (- s) Hexp)) as [He | He]; rewrite He;
      cbn [bind]; [left; rewrite Hclip; reflexivity | right; reflexivity].
  - intros H50. apply leb_true_iff in H50. destruct H50 as (_ & _ & H50).
    destruct fval_50 as [E50 P50]. rewrite E50 in H50.
    rewrite (math_exp_clamped libm Hexp s Ns) by lia.
    cbn [bind]. rewrite Hclip. reflexivity.
Qed.

(** [NegExpReward(bad_value=1, good_value=0, sharpness=2)] at the error
    [0 = good_value]. *)
Lemma neg_exp_reward_saturates_witness :
  exp_spec (c_exp ref_libm) /\
  scale_value 0 1 0 2 0 = Ok 0%float /\
  (0 <=? 0)%float = true /\
  (reward ref_libm (NegExpReward 1 0 2) 0 = Ok (PyFloat 1) \/
   reward ref_libm (NegExpReward 1 0 2) 0 = Raise OverflowError) /\
  ((-50 <=? 0)%float = true ->
   reward ref_libm (NegExpReward 1 0 2) 0 = Ok (PyFloat 1)).
Proof.
  split; [exact ref_exp_spec|]. split; [reflexivity|]. split; [reflexivity|].
  exact (neg_exp_reward_saturates ref_libm 1 0 2 0 0 ref_exp_spec eq_refl eq_refl).
Defined.


(** ** Float arithmetic as rounding of the exact result *)

Lemma Zdigits2_facts (m : Z) :
  0 <= m ->
  0 <= Zdigits2 m /\ m < 2 ^ Zdigits2 m /\ (0 < m -> 2 ^ (Zdigits2 m - 1) <= m).
Proof.
  intros Hm. destruct m as [|p|p]; try lia.
  - cbn. lia.
  - rewrite Zdigits2_pos. pose proof (digits2_pos_bounds p). lia.
Qed.

(** [binary_round_aux] on any non-negative quotient, at any exponent: the
    rounding [rn_float] of the exact value, whose unit [2^-1074] goes to the
    numerator or to the denominator according to the sign of
    [e + 1074]. *)
Lemma binary_round_aux_rn_any (N D e : Z) :
  0 <= N -> 0 < D ->
  e <= fexp prec emax (Zdigits2 (N / D) + e) ->
  binary_round_aux prec emax false (N / D) e (loc_of N D)
  = rn_float (N * 2 ^ Z.max 0 (e + 1074)) (D * 2 ^ Z.max 0 (- (e + 1074))).
Proof.
  intros HN HD Hfexp.
  assert (Hm : 0 <= N / D) by (apply Z.div_pos; lia).
  destruct (Zdigits2_facts (N / D) Hm) as (Hd0 & Hdhi & Hdlo).
  remember (Zdigits2 (N / D)) as d eqn:Hd.
  unfold fexp, SpecFloat.emin, prec, emax in Hfexp.
  remember (Z.max (d + e - 53) (3 - 1024 - 53)) as E eqn:HE.
  unfold binary_round_aux, shr_fexp. rewrite <- Hd.
  unfold fexp, SpecFloat.emin, prec, emax. rewrite <- HE.
  fold (rec_of N D).
  rewrite shr_rec_of by lia.
  replace (e + (E - e)) with E by lia.
  remember (E - e) as n eqn:Hn'.
  assert (Hn : 0 <= n) by lia.
  assert (Hpn : 0 < 2 ^ n) by (apply Z.pow_pos_nonneg; lia).
  assert (HDn : 0 < D * 2 ^ n) by (apply Z.mul_pos_pos; assumption).
  rewrite round_rec_of by assumption.
  destruct (rne_spec N (D * 2 ^ n) HDn) as (Hk & _).
  assert (Hf : 0 <= N / (D * 2 ^ n) < 2 ^ 53).
  { rewrite <- Z.div_div by lia. split; [apply Z.div_pos; lia|].
    apply Z.div_lt_upper_bound; [assumption|].
    eapply Z.lt_le_trans; [apply Hdhi|].
    rewrite <- Z.pow_add_r by lia. apply Z.pow_le_mono_r; lia. }
  (* the right-hand side *)
  set (N' := N * 2 ^ Z.max 0 (e + 1074)).
  set (D' := D * 2 ^ Z.max 0 (- (e + 1074))).
  assert (Ht : rn_shift N' D' = E + 1074).
  { unfold rn_shift, N', D'.
    destruct (Z_le_gt_dec 0 (e + 1074)) as [Hc | Hc].
    - rewrite (Z.max_r 0 (e + 1074)), (Z.max_l 0 (- (e + 1074))) by lia.
      rewrite Z.pow_0_r, Z.mul_1_r.
      destruct (Z.eq_dec (N / D) 0) as [E0 | NE0].
      + rewrite E0 in Hd. cbn in Hd. subst d.
        replace (e + 1074) with 0 by lia.
        rewrite Z.pow_0_r, Z.mul_1_r, E0. cbn. lia.
      + assert (Hdpos : 0 < d).
        { destruct (Z_lt_le_dec 0 d); [assumption | exfalso].
          replace d with 0 in Hdhi by lia. cbn in Hdhi. lia. }
        rewrite (log2_scaled_quotient N D (e + 1074) d) by lia. lia.
    - rewrite (Z.max_l 0 (e + 1074)), (Z.max_r 0 (- (e + 1074))) by lia.
      rewrite Z.pow_0_r, Z.mul_1_r.
      rewrite <- Z.div_div by (try apply Z.pow_pos_nonneg; lia).
      destruct (Z.eq_dec (N / D) 0) as [E0 | NE0].
      + rewrite E0 in Hd |- *. cbn in Hd. subst d.
        rewrite Z.div_0_l by (apply Z.pow_nonzero; lia). cbn. lia.
      + assert (Hdpos : 0 < d).
        { destruct (Z_lt_le_dec 0 d); [assumption | exfalso].
          replace d with 0 in Hdhi by lia. cbn in Hdhi. lia. }
        rewrite <- Z.shiftr_div_pow2 by lia.
        rewrite Z.log2_shiftr by lia.
        assert (Hl : Z.log2 (N / D) = d - 1).
        { apply Z.log2_unique; [lia|].
          replace (Z.succ (d - 1)) with d by lia. split; [apply Hdlo; lia | exact Hdhi]. }
        rewrite Hl. lia. }
  assert (Hrne : rne N' (D' * 2 ^ (E + 1074)) = rne N (D * 2 ^ n)).
  { unfold N', D'.
    destruct (Z_le_gt_dec 0 (e + 1074)) as [Hc | Hc].
    - rewrite (Z.max_r 0 (e + 1074)), (Z.max_l 0 (- (e + 1074))) by lia.
      rewrite Z.pow_0_r, Z.mul_1_r.
      replace (E + 1074) with (n + (e + 1074)) by lia.
      rewrite (Z.pow_add_r 2 n (e + 1074)), Z.mul_assoc by lia.
      apply rne_scale; [apply Z.pow_pos_nonneg; lia | assumption].
    - rewrite (Z.max_l 0 (e + 1074)), (Z.max_r 0 (- (e + 1074))) by lia.
      rewrite Z.pow_0_r, Z.mul_1_r, <- Z.mul_assoc.
      rewrite <- (Z.pow_add_r 2 (- (e + 1074)) (E + 1074)) by lia.
      replace (- (e + 1074) + (E + 1074)) with n by lia. reflexivity. }
  unfold rn_float, rn_mant, rn_exp. rewrite Ht, Hrne.
  clearbody N' D'.
  set (k := rne N (D * 2 ^ n)) in *.
  change (2 ^ 53) with 9007199254740992 in *.
  destruct (Z.eqb_spec k 9007199254740992) as [Ek | NEk].
  - rewrite Ek. change (Zdigits2 9007199254740992) with 54.
    replace (Z.max (54 + E - 53) (3 - 1024 - 53) - E) with 1 by lia.
    cbn [shr_record_of_loc shr iter_pos shr_1 shr_m].
    change (2 ^ 52) with 4503599627370496.
    change (1024 - 53) with 971.
    destruct (Z.leb_spec (E + 1) 971), (Z.leb_spec (E + 1074 + 1) 2045); try lia.
    + f_equal. lia.
    + reflexivity.
  - rewrite shr_noop.
    + cbn [shr_record_of_loc shr_m].
      destruct k as [|pk|pk]; try lia; try reflexivity.
      change (1024 - 53) with 971.
      destruct (Z.leb_spec E 971), (Z.leb_spec (E + 1074) 2045); try lia.
      * f_equal. lia.
      * reflexivity.
    + destruct k as [|pk|pk]; try lia.
      * cbn [Zdigits2]. lia.
      * rewrite Zdigits2_pos.
        pose proof (digits2_pos_le pk 53 ltac:(lia)).
        change (2 ^ 53) with 9007199254740992 in *. lia.
Qed.

(** *** Signed rounding *)

Lemma rn_float_ratio (N1 D1 N2 D2 : Z) :
  0 < D1 -> 0 < D2 -> N1 * D2 = N2 * D1 -> rn_float N1 D1 = rn_float N2 D2.
Proof.
  intros H1 H2 E.
  rewrite <- (rn_float_scale D2 N1 D1), <- (rn_float_scale D1 N2 D2) by assumption.
  rewrite E. f_equal. ring.
Qed.

Lemma Zval_opp (r : spec_float) : Zval (SFopp r) = - Zval r.
Proof.
  destruct r as [s | s | | s m e]; cbn [SFopp Zval]; try reflexivity;
    destruct s; cbn [negb]; lia.
Qed.

Lemma SFleb_Zval (a b : spec_float) :
  valid_binary a = true -> valid_binary b = true ->
  SFleb a b = true -> Zval a <= Zval b.
Proof.
  intros Va Vb H. unfold SFleb in H.
  destruct (sf_is_nan a) eqn:Na; [destruct a; discriminate|].
  destruct (sf_is_nan b) eqn:Nb;
    [destruct b; try discriminate; destruct a; discriminate|].
  rewrite (SFcompare_Zval a b Va Vb Na Nb) in H.
  destruct (Z.compare_spec (Zval a) (Zval b)); try discriminate; lia.
Qed.

Lemma Zval_rn_float_mono (N1 D1 N2 D2 : Z) :
  0 <= N1 -> 0 < D1 -> 0 <= N2 -> 0 < D2 -> N1 * D2 <= N2 * D1 ->
  Zval (rn_float N1 D1) <= Zval (rn_float N2 D2).
Proof.
  intros. apply SFleb_Zval; try apply rn_float_valid; try assumption.
  apply rn_float_leb; assumption.
Qed.

Lemma rn_float_zero (D : Z) : 0 < D -> rn_float 0 D = S754_zero false.
Proof.
  intros HD. unfold rn_float, rn_mant, rn_exp, rn_shift.
  rewrite Z.div_0_l by lia. cbn [Z.log2 Z.sub Z.opp Z.max Z.compare Z.pow].
  change (Z.max (-52) 0) with 0. rewrite Z.pow_0_r, Z.mul_1_r.
  unfold rne. rewrite Z.div_0_l, Z.mod_0_l by lia. cbn [Z.mul].
  destruct (Z.compare_spec 0 D); try lia. reflexivity.
Qed.

Lemma Zval_rn_float_nonneg (N D : Z) : 0 <= N -> 0 < D -> 0 <= Zval (rn_float N D).
Proof.
  intros HN HD.
  pose proof (Zval_rn_float_mono 0 D N D ltac:(lia) HD HN HD ltac:(lia)) as H.
  rewrite rn_float_zero in H by assumption. exact H.
Qed.

Lemma rnZ_zero (D : Z) : 0 < D -> rnZ 0 D = 0.
Proof. intros HD. unfold rnZ, rn_signed. cbn. rewrite rn_float_zero by assumption. reflexivity. Qed.

(** Rounding is monotone on the rationals of either sign. *)
Lemma rnZ_mono (N1 D1 N2 D2 : Z) :
  0 < D1 -> 0 < D2 -> N1 * D2 <= N2 * D1 -> rnZ N1 D1 <= rnZ N2 D2.
Proof.
  intros H1 H2 Hle. unfold rnZ, rn_signed.
  destruct (Z.ltb_spec N1 0), (Z.ltb_spec N2 0); rewrite ?Zval_opp.
  - apply Z.opp_le_mono. rewrite !Z.opp_involutive.
    apply Zval_rn_float_mono; lia.
  - pose proof (Zval_rn_float_nonneg (- N1) D1 ltac:(lia) H1).
    pose proof (Zval_rn_float_nonneg N2 D2 ltac:(lia) H2). lia.
  - exfalso. nia.
  - apply Zval_rn_float_mono; lia.
Qed.

Lemma rnZ_opp (N D : Z) : 0 < D -> rnZ (- N) D = - rnZ N D.
Proof.
  intros HD. unfold rnZ, rn_signed.
  destruct (Z.ltb_spec (- N) 0), (Z.ltb_spec N 0); rewrite ?Zval_opp, ?Z.opp_involutive;
    try lia.
  replace N with 0 by lia. cbn [Z.opp]. rewrite rn_float_zero by assumption. reflexivity.
Qed.

Lemma rnZ_ratio (N1 D1 N2 D2 : Z) :
  0 < D1 -> 0 < D2 -> N1 * D2 = N2 * D1 -> rnZ N1 D1 = rnZ N2 D2.
Proof.
  intros H1 H2 E. apply Z.le_antisymm; apply rnZ_mono; lia.
Qed.

(** Rounding a representable value returns it. *)
Lemma rn_float_id (m : positive) (e : Z) :
  bounded prec emax m e = true ->
  rn_float (Z.pos m * 2 ^ (e + 1074)) 1 = S754_finite false m e.
Proof.
  intros B. pose proof (bounded_canonical m e B) as (He & Hm & Hn).
  pose proof (digits2_pos_bounds m) as [Hlo Hhi].
  set (d := Z.pos (digits2_pos m)) in *.
  assert (Hd : 0 < d) by (unfold d; lia).
  assert (Hd53 : d <= 53) by (apply digits2_pos_le; lia).
  assert (Hdn : - 1074 < e -> d = 53).
  { intros H. apply digits2_pos_unique. split; [apply Hn; exact H | exact Hm]. }
  assert (Hp : 0 < 2 ^ (e + 1074)) by (apply Z.pow_pos_nonneg; lia).
  assert (Ht : rn_shift (Z.pos m * 2 ^ (e + 1074)) 1 = e + 1074).
  { unfold rn_shift.
    pose proof (log2_scaled_quotient (Z.pos m) 1 (e + 1074) d) as Hl.
    rewrite Z.div_1_r in Hl. rewrite Hl by lia. lia. }
  unfold rn_float, rn_mant, rn_exp. rewrite Ht.
  rewrite Z.mul_1_l, rne_exact by assumption.
  change (2 ^ 53) with 9007199254740992 in *.
  destruct (Z.eqb_spec (Z.pos m) 9007199254740992); [lia|].
  destruct (Z.leb_spec (e + 1074) 2045); [|lia].
  f_equal. lia.
Qed.

Lemma Zmax_pos : 0 < Zmax.
Proof. unfold Zmax. apply Z.pow_pos_nonneg; lia. Qed.

Lemma Zmax_Zinf : 3 * Zmax <= Zinf.
Proof.
  unfold Zmax, Zinf. change 2148 with (2 + 2146).
  rewrite (Z.pow_add_r 2 2 2146) by lia.
  assert (2 ^ 2098 <= 2 ^ 2146) by (apply Z.pow_le_mono_r; lia).
  change (2 ^ 2) with 4. assert (0 < 2 ^ 2098) by (apply Z.pow_pos_nonneg; lia). lia.
Qed.

Lemma finite_val_max (m : positive) (e : Z) :
  bounded prec emax m e = true -> Z.pos m * 2 ^ (e + 1074) < Zmax.
Proof.
  intros H. apply bounded_canonical in H. destruct H as (He & Hm & _).
  assert (HA : 0 < 2 ^ (e + 1074)) by (apply Z.pow_pos_nonneg; lia).
  apply Z.lt_le_trans with (2 ^ 53 * 2 ^ (e + 1074)).
  - apply Z.mul_lt_mono_pos_r; assumption.
  - unfold Zmax. rewrite <- Z.pow_add_r by lia. apply Z.pow_le_mono_r; lia.
Qed.

(** Beyond the finite range, rounding gives infinity. *)
Lemma rn_float_huge (N : Z) : 2 * Zmax <= N -> rn_float N 1 = S754_infinity false.
Proof.
  intros HN. pose proof Zmax_pos as HP.
  assert (Hl : 2099 <= Z.log2 N).
  { apply Z.log2_le_pow2; [lia|].
    change 2099 with (1 + 2098). rewrite Z.pow_add_r by lia. exact HN. }
  destruct (rn_shift_facts N 1 ltac:(lia) ltac:(lia)) as (Ht & Hf & Hn).
  pose proof (rn_mant_exp_facts N 1 ltac:(lia) ltac:(lia)) as (Hm & He & Hmn).
  assert (Hs : 2047 <= rn_shift N 1) by (unfold rn_shift; rewrite Z.div_1_r; lia).
  assert (Hx : 2047 <= rn_exp N 1).
  { unfold rn_exp. destruct (_ =? _); lia. }
  specialize (Hmn ltac:(lia)).
  unfold rn_float.
  destruct (rn_mant N 1) as [|p|p]; try (change (2 ^ 52) with 4503599627370496 in Hmn; lia).
  destruct (Z.leb_spec (rn_exp N 1) 2045); [lia | reflexivity].
Qed.

Lemma rnZ_huge (N : Z) :
  (2 * Zmax <= N -> rnZ N 1 = Zinf) /\ (N <= - (2 * Zmax) -> rnZ N 1 = - Zinf).
Proof.
  pose proof Zmax_pos as HP. unfold rnZ, rn_signed. split; intros H.
  - destruct (Z.ltb_spec N 0); [lia|]. rewrite rn_float_huge by assumption. reflexivity.
  - destruct (Z.ltb_spec N 0); [|lia]. rewrite rn_float_huge by lia. reflexivity.
Qed.

(** The value of a float that is not NaN rounds to itself. *)
Lemma rnZ_Zval (x : spec_float) :
  valid_binary x = true -> sf_is_nan x = false -> rnZ (Zval x) 1 = Zval x.
Proof.
  intros V N. pose proof Zmax_pos. pose proof Zmax_Zinf.
  destruct x as [s | s | | s m e]; try discriminate; cbn [Zval].
  - apply rnZ_zero. lia.
  - destruct s; apply rnZ_huge; lia.
  - cbn [valid_binary] in V. pose proof (finite_val_bound m e V) as Hb.
    destruct s.
    + rewrite rnZ_opp by lia. f_equal. unfold rnZ, rn_signed.
      destruct (Z.ltb_spec (Z.pos m * 2 ^ (e + 1074)) 0); [lia|].
      rewrite rn_float_id by assumption. reflexivity.
    + unfold rnZ, rn_signed.
      destruct (Z.ltb_spec (Z.pos m * 2 ^ (e + 1074)) 0); [lia|].
      rewrite rn_float_id by assumption. reflexivity.
Qed.

Lemma rnZ_range (N D : Z) : 0 < D -> - Zinf <= rnZ N D <= Zinf.
Proof.
  intros HD. pose proof Zinf_pos.
  assert (A : forall M, 0 <= M -> 0 <= Zval (rn_float M D) <= Zinf).
  { intros M HM. pose proof (rn_float_valid M D HM HD) as V.
    pose proof (Zval_rn_float_nonneg M D HM HD).
    destruct (rn_float M D) as [s | s | | s m e]; cbn [Zval] in *; try lia.
    - destruct s; lia.
    - cbn [valid_binary] in V. pose proof (finite_val_bound m e V). destruct s; lia. }
  unfold rnZ, rn_signed. destruct (Z.ltb_spec N 0); rewrite ?Zval_opp.
  - specialize (A (- N) ltac:(lia)). lia.
  - specialize (A N ltac:(lia)). lia.
Qed.


(** *** The four operations on finite operands *)

Lemma binary_round_sign (m : positive) (e : Z) :
  binary_round prec emax true m e = SFopp (binary_round prec emax false m e).
Proof.
  unfold binary_round. destruct (shl_align m e _) as [mz ez].
  apply binary_round_aux_sign.
Qed.

Lemma binary_normalize_rn (M e : Z) :
  - 1074 <= e ->
  binary_normalize prec emax M e false = rn_signed (M * 2 ^ (e + 1074)) 1.
Proof.
  intros He. assert (Hp : 0 < 2 ^ (e + 1074)) by (apply Z.pow_pos_nonneg; lia).
  unfold rn_signed. destruct M as [|p|p]; cbn [binary_normalize].
  - rewrite Z.mul_0_l. change (0 <? 0) with false. cbv iota.
    symmetry. apply rn_float_zero. lia.
  - destruct (Z.ltb_spec (Z.pos p * 2 ^ (e + 1074)) 0); [lia|].
    apply binary_round_rn. exact He.
  - destruct (Z.ltb_spec (Z.neg p * 2 ^ (e + 1074)) 0); [|lia].
    rewrite binary_round_sign, binary_round_rn by exact He.
    f_equal. f_equal. lia.
Qed.

Lemma SFadd_finite_rn (sx sy : bool) (mx my : positive) (ex ey : Z) :
  - 1074 <= ex -> - 1074 <= ey ->
  SFadd prec emax (S754_finite sx mx ex) (S754_finite sy my ey)
  = rn_signed (Zval (S754_finite sx mx ex) + Zval (S754_finite sy my ey)) 1.
Proof.
  intros Hex Hey. cbn [SFadd]. change (IntDef.Z.min ex ey) with (Z.min ex ey).
  rewrite binary_normalize_rn by lia. f_equal.
  rewrite Z.mul_add_distr_r, !aligned_value by lia. reflexivity.
Qed.

Lemma SFsub_finite_rn (sx sy : bool) (mx my : positive) (ex ey : Z) :
  - 1074 <= ex -> - 1074 <= ey ->
  SFsub prec emax (S754_finite sx mx ex) (S754_finite sy my ey)
  = rn_signed (Zval (S754_finite sx mx ex) - Zval (S754_finite sy my ey)) 1.
Proof.
  intros Hex Hey. cbn [SFsub]. change (IntDef.Z.min ex ey) with (Z.min ex ey).
  change (IntDef.Z.sub ?a ?b) with (a - b).
  rewrite binary_normalize_rn by lia. f_equal.
  rewrite Z.mul_sub_distr_r, !aligned_value by lia. reflexivity.
Qed.

Lemma rn_signed_cond_opp (s : bool) (N D : Z) :
  0 < N ->
  rn_signed (cond_Zopp s N) D = if s then SFopp (rn_float N D) else rn_float N D.
Proof.
  intros HN. unfold rn_signed. destruct s; cbn [cond_Zopp].
  - destruct (Z.ltb_spec (- N) 0); [|lia]. rewrite Z.opp_involutive. reflexivity.
  - destruct (Z.ltb_spec N 0); [lia | reflexivity].
Qed.

Lemma binary_round_aux_cond_opp (s : bool) (m e : Z) (l : location) :
  binary_round_aux prec emax s m e l
  = if s then SFopp (binary_round_aux prec emax false m e l)
    else binary_round_aux prec emax false m e l.
Proof. destruct s; [apply binary_round_aux_sign | reflexivity]. Qed.

Lemma Zval_finite_cond (s : bool) (m : positive) (e : Z) :
  Zval (S754_finite s m e) = cond_Zopp s (Z.pos m * 2 ^ (e + 1074)).
Proof. destruct s; reflexivity. Qed.

Lemma cond_Zopp_mul (s1 s2 : bool) (a b : Z) :
  cond_Zopp s1 a * cond_Zopp s2 b = cond_Zopp (xorb s1 s2) (a * b).
Proof. destruct s1, s2; cbn [cond_Zopp xorb]; ring. Qed.

(** The product of two finite floats is the rounding of the exact
    product. *)
Lemma SFmul_finite_rn (sx sy : bool) (mx my : positive) (ex ey : Z) :
  bounded prec emax mx ex = true -> bounded prec emax my ey = true ->
  SFmul prec emax (S754_finite sx mx ex) (S754_finite sy my ey)
  = rn_signed (Zval (S754_finite sx mx ex) * Zval (S754_finite sy my ey)) Zone.
Proof.
  intros Bx By.
  pose proof (bounded_canonical mx ex Bx) as (Hex & Hmx & Hnx).
  pose proof (bounded_canonical my ey By) as (Hey & Hmy & Hny).
  pose proof (finite_val_bound mx ex Bx) as [HX _].
  pose proof (finite_val_bound my ey By) as [HY _].
  cbn [SFmul]. rewrite binary_round_aux_cond_opp.
  rewrite !Zval_finite_cond, cond_Zopp_mul.
  rewrite rn_signed_cond_opp by (apply Z.mul_pos_pos; assumption).
  assert (E : binary_round_aux prec emax false (Z.pos (mx * my)) (ex + ey) loc_Exact
              = rn_float (Z.pos mx * 2 ^ (ex + 1074) * (Z.pos my * 2 ^ (ey + 1074))) Zone).
  { rewrite <- (Z.div_1_r (Z.pos (mx * my))), <- (loc_of_exact (Z.pos (mx * my))).
    rewrite binary_round_aux_rn_any; try lia.
    - assert (Hp1 : 0 < 2 ^ Z.max 0 (- (ex + ey + 1074))) by (apply Z.pow_pos_nonneg; lia).
      apply rn_float_ratio; [lia | apply Zone_pos |].
      unfold Zone. rewrite Pos2Z.inj_mul.
      transitivity (Z.pos mx * Z.pos my * (2 ^ Z.max 0 (ex + ey + 1074) * 2 ^ 1074));
        [ring|].
      transitivity (Z.pos mx * Z.pos my *
                    (2 ^ (ex + 1074) * 2 ^ (ey + 1074) * 2 ^ Z.max 0 (- (ex + ey + 1074))));
        [|ring].
      f_equal. rewrite <- !Z.pow_add_r by lia. f_equal. lia.
    - rewrite Z.div_1_r.
      unfold fexp, SpecFloat.emin, prec, emax.
      destruct (Z_le_gt_dec (ex + ey) (- 1074)) as [Hs | Hs]; [lia|].
      assert (Hbig : 2 ^ 52 <= Z.pos (mx * my)).
      { rewrite Pos2Z.inj_mul.
        destruct (Z_lt_le_dec (- 1074) ex) as [H1 | H1].
        - specialize (Hnx H1).
          apply Z.le_trans with (Z.pos mx * 1); [lia|].
          apply Z.mul_le_mono_nonneg_l; lia.
        - assert (H2 : - 1074 < ey) by lia. specialize (Hny H2).
          apply Z.le_trans with (1 * Z.pos my); [lia|].
          apply Z.mul_le_mono_nonneg_r; lia. }
      destruct (Zdigits2_facts (Z.pos (mx * my)) ltac:(lia)) as (Hdg & Hhi & _).
      assert (52 < Zdigits2 (Z.pos (mx * my))).
      { apply (Z.pow_lt_mono_r_iff 2); [lia | lia |]. lia. }
      lia. }
  rewrite E. reflexivity.
Qed.

Lemma div_eucl_pair (a b : Z) : Z.div_eucl a b = (a / b, a mod b).
Proof. unfold Z.div, Z.modulo. destruct (Z.div_eucl a b); reflexivity. Qed.

(** The quotient of two finite floats is the rounding of the exact
    quotient. *)
Lemma SFdiv_finite_rn (sx sy : bool) (mx my : positive) (ex ey : Z) :
  bounded prec emax mx ex = true -> bounded prec emax my ey = true ->
  SFdiv prec emax (S754_finite sx mx ex) (S754_finite sy my ey)
  = rn_signed (cond_Zopp (xorb sx sy) (Z.pos mx * 2 ^ (ex + 1074) * Zone))
              (Z.pos my * 2 ^ (ey + 1074)).
Proof.
  intros Bx By.
  pose proof (bounded_canonical mx ex Bx) as (Hex & Hmx & Hnx).
  pose proof (bounded_canonical my ey By) as (Hey & Hmy & Hny).
  pose proof (finite_val_bound mx ex Bx) as [HX _].
  pose proof (finite_val_bound my ey By) as [HY _].
  pose proof Zone_pos as H1.
  rewrite rn_signed_cond_opp by (apply Z.mul_pos_pos; assumption).
  cbn [SFdiv]. unfold SFdiv_core_binary.
  rewrite !Zdigits2_pos.
  pose proof (digits2_pos_bounds mx) as [Hlx Hhx].
  pose proof (digits2_pos_bounds my) as [Hly Hhy].
  set (d1 := Z.pos (digits2_pos mx)) in *. set (d2 := Z.pos (digits2_pos my)) in *.
  assert (Hd1 : 0 < d1) by (unfold d1; lia).
  assert (Hd2 : 0 < d2) by (unfold d2; lia).
  change (IntDef.Z.min ?a ?b) with (Z.min a b).
  unfold fexp, SpecFloat.emin, prec, emax.
  remember (Z.min (Z.max (d1 + ex - (d2 + ey) - 53) (3 - 1024 - 53)) (ex - ey)) as e' eqn:He'.
  remember (ex - ey - e') as s eqn:Hs.
  assert (Hs0 : 0 <= s) by lia.
  assert (Hps : 0 < 2 ^ s) by (apply Z.pow_pos_nonneg; lia).
  assert (Hm' : match s with
                | 0 => Z.pos mx
                | Z.pos _ => IntDef.Z.shiftl (Z.pos mx) s
                | Z.neg _ => 0
                end = Z.pos mx * 2 ^ s).
  { destruct s as [|ps|ps]; [cbn; lia | | lia].
    change (IntDef.Z.shiftl (Z.pos mx) (Z.pos ps)) with (Z.shiftl (Z.pos mx) (Z.pos ps)).
    apply Z.shiftl_mul_pow2. lia. }
  rewrite Hm'.
  change (IntDef.Z.div_eucl ?a ?b) with (Z.div_eucl a b).
  rewrite div_eucl_pair, new_location_loc_of by lia.
  rewrite binary_round_aux_cond_opp.
  assert (E : binary_round_aux prec emax false (Z.pos mx * 2 ^ s / Z.pos my) e'
                (loc_of (Z.pos mx * 2 ^ s) (Z.pos my))
              = rn_float (Z.pos mx * 2 ^ (ex + 1074) * Zone) (Z.pos my * 2 ^ (ey + 1074))).
  { rewrite binary_round_aux_rn_any; try lia.
    - assert (Hp1 : 0 < 2 ^ Z.max 0 (- (e' + 1074))) by (apply Z.pow_pos_nonneg; lia).
      apply rn_float_ratio; [lia | lia |].
      unfold Zone.
      transitivity (Z.pos mx * Z.pos my *
                    (2 ^ s * 2 ^ Z.max 0 (e' + 1074) * 2 ^ (ey + 1074))); [ring|].
      transitivity (Z.pos mx * Z.pos my *
                    (2 ^ (ex + 1074) * 2 ^ 1074 * 2 ^ Z.max 0 (- (e' + 1074)))); [|ring].
      f_equal. rewrite <- !Z.pow_add_r by lia. f_equal. lia.
    - unfold fexp, SpecFloat.emin, prec, emax.
      destruct (Z_le_gt_dec e' (- 1074)) as [Hle | Hgt]; [lia|].
      assert (Hsb : d2 - d1 + 53 <= s) by lia.
      assert (Hq : 2 ^ 52 <= Z.pos mx * 2 ^ s / Z.pos my).
      { apply Z.div_le_lower_bound; [lia|].
        apply Z.le_trans with (2 ^ d2 * 2 ^ 52); [nia|].
        apply Z.le_trans with (2 ^ (d1 - 1) * 2 ^ s); [|nia].
        rewrite <- !Z.pow_add_r by lia. apply Z.pow_le_mono_r; lia. }
      destruct (Zdigits2_facts (Z.pos mx * 2 ^ s / Z.pos my) ltac:(lia)) as (Hdg & Hhi & _).
      assert (52 < Zdigits2 (Z.pos mx * 2 ^ s / Z.pos my)).
      { apply (Z.pow_lt_mono_r_iff 2); [lia | lia |]. lia. }
      lia. }
  rewrite E. reflexivity.
Qed.


(** *** The four operations on floats

    Whenever the result is not NaN, it is the rounding of the exact result
    of the operation on the values; an infinite operand of a product or a
    quotient decides the result by its sign. *)

Lemma Zval_finite_bounds (s : bool) (m : positive) (e : Z) :
  bounded prec emax m e = true ->
  - Zmax < Zval (S754_finite s m e) < Zmax /\ Zval (S754_finite s m e) <> 0.
Proof.
  intros B. pose proof (finite_val_max m e B). pose proof (finite_val_bound m e B).
  cbn [Zval]. destruct s; lia.
Qed.

Lemma add_val (x y : float) :
  is_nan (x + y) = false ->
  is_nan x = false /\ is_nan y = false /\
  fval (x + y) = rnZ (fval x + fval y) 1.
Proof.
  rewrite !is_nan_spec. unfold fval. rewrite add_spec. unfold SF64add.
  pose proof (Prim2SF_valid x) as Vx. pose proof (Prim2SF_valid y) as Vy.
  pose proof Zmax_pos as HP. pose proof Zmax_Zinf as HI.
  destruct (Prim2SF x) as [sx | sx | | sx mx ex] eqn:Ex,
           (Prim2SF y) as [sy | sy | | sy my ey] eqn:Ey;
    cbn [valid_binary] in Vx, Vy;
    try (pose proof (Zval_finite_bounds sx mx ex Vx) as [Bx Zx]);
    try (pose proof (Zval_finite_bounds sy my ey Vy) as [By Zy]);
    try (pose proof (proj1 (bounded_canonical mx ex Vx)) as Hex);
    try (pose proof (proj1 (bounded_canonical my ey Vy)) as Hey);
    intros H; repeat split; try reflexivity; try discriminate H.
  - destruct sx, sy; cbn [SFadd Zval]; symmetry; apply rnZ_zero; lia.
  - cbn [SFadd]. change (Zval (S754_zero sx)) with 0. rewrite Z.add_0_l.
    symmetry. apply rnZ_Zval; reflexivity.
  - cbn [SFadd]. change (Zval (S754_zero sx)) with 0. rewrite Z.add_0_l.
    symmetry. apply rnZ_Zval; [exact Vy | reflexivity].
  - cbn [SFadd]. change (Zval (S754_zero sy)) with 0. rewrite Z.add_0_r.
    symmetry. apply rnZ_Zval; reflexivity.
  - destruct sx, sy; try discriminate H; cbn [SFadd Zval]; symmetry;
      apply rnZ_huge; lia.
  - cbn [SFadd]. destruct sx; cbn [Zval] in *; symmetry; apply rnZ_huge; lia.
  - cbn [SFadd]. change (Zval (S754_zero sy)) with 0. rewrite Z.add_0_r.
    symmetry. apply rnZ_Zval; [exact Vx | reflexivity].
  - cbn [SFadd]. destruct sy; cbn [Zval] in *; symmetry; apply rnZ_huge; lia.
  - rewrite SFadd_finite_rn by lia. reflexivity.
Qed.

Lemma sub_val (x y : float) :
  is_nan (x - y) = false ->
  is_nan x = false /\ is_nan y = false /\
  fval (x - y) = rnZ (fval x - fval y) 1.
Proof.
  rewrite !is_nan_spec. unfold fval. rewrite sub_spec. unfold SF64sub.
  pose proof (Prim2SF_valid x) as Vx. pose proof (Prim2SF_valid y) as Vy.
  pose proof Zmax_pos as HP. pose proof Zmax_Zinf as HI.
  destruct (Prim2SF x) as [sx | sx | | sx mx ex] eqn:Ex,
           (Prim2SF y) as [sy | sy | | sy my ey] eqn:Ey;
    cbn [valid_binary] in Vx, Vy;
    try (pose proof (Zval_finite_bounds sx mx ex Vx) as [Bx Zx]);
    try (pose proof (Zval_finite_bounds sy my ey Vy) as [By Zy]);
    try (pose proof (proj1 (bounded_canonical mx ex Vx)) as Hex);
    try (pose proof (proj1 (bounded_canonical my ey Vy)) as Hey);
    intros H; repeat split; try reflexivity; try discriminate H.
  - destruct sx, sy; cbn [SFsub Zval]; symmetry; apply rnZ_zero; lia.
  - cbn [SFsub]. destruct sy; cbn [Zval negb]; symmetry; apply rnZ_huge; lia.
  - cbn [SFsub].
    change (Zval (S754_zero sx) - Zval (S754_finite sy my ey))
      with (0 - Zval (S754_finite sy my ey)).
    replace (0 - Zval (S754_finite sy my ey)) with (Zval (S754_finite (negb sy) my ey))
      by (destruct sy; cbn [Zval negb]; lia).
    symmetry. apply rnZ_Zval; [exact Vy | reflexivity].
  - cbn [SFsub]. change (Zval (S754_zero sy)) with 0. rewrite Z.sub_0_r.
    symmetry. apply rnZ_Zval; reflexivity.
  - destruct sx, sy; try discriminate H; cbn [SFsub Zval]; symmetry;
      apply rnZ_huge; lia.
  - cbn [SFsub]. destruct sx; cbn [Zval] in *; symmetry; apply rnZ_huge; lia.
  - cbn [SFsub]. change (Zval (S754_zero sy)) with 0. rewrite Z.sub_0_r.
    symmetry. apply rnZ_Zval; [exact Vx | reflexivity].
  - cbn [SFsub]. destruct sy; cbn [Zval negb] in *; symmetry; apply rnZ_huge; lia.
  - rewrite SFsub_finite_rn by lia. reflexivity.
Qed.

Lemma sgn_Zinf : Z.sgn Zinf = 1 /\ Z.sgn (- Zinf) = - 1.
Proof. pose proof Zinf_pos. split; [apply Z.sgn_pos | apply Z.sgn_neg]; lia. Qed.

Lemma sgn_finite (s : bool) (m : positive) (e : Z) :
  bounded prec emax m e = true ->
  Z.sgn (Zval (S754_finite s m e)) = (if s then - 1 else 1) /\
  Z.abs (Zval (S754_finite s m e)) = Z.pos m * 2 ^ (e + 1074).
Proof.
  intros B. pose proof (finite_val_bound m e B) as [H _]. cbn [Zval].
  destruct s; split; try (apply Z.sgn_pos; lia); try (apply Z.sgn_neg; lia); lia.
Qed.

Lemma mul_val (x y : float) :
  is_nan (x * y) = false ->
  is_nan x = false /\ is_nan y = false /\
  (Z.abs (fval x) < Zinf -> Z.abs (fval y) < Zinf ->
   fval (x * y) = rnZ (fval x * fval y) Zone) /\
  (Z.abs (fval x) = Zinf \/ Z.abs (fval y) = Zinf ->
   fval (x * y) = Z.sgn (fval x) * Z.sgn (fval y) * Zinf).
Proof.
  rewrite !is_nan_spec. unfold fval. rewrite mul_spec. unfold SF64mul.
  pose proof (Prim2SF_valid x) as Vx. pose proof (Prim2SF_valid y) as Vy.
  pose proof Zinf_pos as HI. pose proof Zone_pos as HO.
  destruct sgn_Zinf as [SI SI'].
  destruct (Prim2SF x) as [sx | sx | | sx mx ex] eqn:Ex,
           (Prim2SF y) as [sy | sy | | sy my ey] eqn:Ey;
    cbn [valid_binary] in Vx, Vy;
    try (pose proof (finite_val_bound mx ex Vx) as Bx;
         pose proof (sgn_finite sx mx ex Vx) as [Sx Ax]);
    try (pose proof (finite_val_bound my ey Vy) as By;
         pose proof (sgn_finite sy my ey Vy) as [Sy Ay]);
    intros H; try discriminate H;
    (split; [reflexivity | split; [reflexivity | split]]).
  all: try (intros [A | A]; exfalso; revert A; rewrite ?Ax, ?Ay; cbn [Zval]; lia).
  all: try (intros A1 A2; exfalso; revert A1 A2; rewrite ?Ax, ?Ay; cbn [Zval];
            try destruct sx; try destruct sy; lia).
  - intros _ _. cbn [SFmul Zval]. rewrite Z.mul_0_l. symmetry. apply rnZ_zero. lia.
  - intros _ _. cbn [SFmul]. change (Zval (S754_zero sx)) with 0.
    rewrite Z.mul_0_l. symmetry. apply rnZ_zero. lia.
  - intros _. cbn [SFmul]. destruct sx, sy; cbn [xorb Zval]; rewrite ?SI, ?SI'; lia.
  - intros _. cbn [SFmul]. rewrite Sy.
    destruct sx, sy; cbn [xorb Zval]; rewrite ?SI, ?SI'; lia.
  - intros _ _. cbn [SFmul]. change (Zval (S754_zero sy)) with 0.
    rewrite Z.mul_0_r. symmetry. apply rnZ_zero. lia.
  - intros _. cbn [SFmul]. rewrite Sx.
    destruct sx, sy; cbn [xorb Zval]; rewrite ?SI, ?SI'; lia.
  - intros _ _. rewrite SFmul_finite_rn by assumption. reflexivity.
Qed.

Lemma div_val (x y : float) :
  is_nan (x / y) = false -> fval y <> 0 ->
  is_nan x = false /\ is_nan y = false /\
  (Z.abs (fval y) = Zinf -> fval (x / y) = 0) /\
  (Z.abs (fval y) < Zinf -> Z.abs (fval x) = Zinf ->
   fval (x / y) = Z.sgn (fval x) * Z.sgn (fval y) * Zinf) /\
  (Z.abs (fval y) < Zinf -> Z.abs (fval x) < Zinf ->
   fval (x / y) = rnZ (fval x * Zone * Z.sgn (fval y)) (Z.abs (fval y))).
Proof.
  rewrite !is_nan_spec. unfold fval. rewrite div_spec. unfold SF64div.
  pose proof (Prim2SF_valid x) as Vx. pose proof (Prim2SF_valid y) as Vy.
  pose proof Zinf_pos as HI. pose proof Zone_pos as HO.
  destruct sgn_Zinf as [SI SI'].
  destruct (Prim2SF x) as [sx | sx | | sx mx ex] eqn:Ex,
           (Prim2SF y) as [sy | sy | | sy my ey] eqn:Ey;
    cbn [valid_binary] in Vx, Vy;
    try (pose proof (finite_val_bound mx ex Vx) as Bx;
         pose proof (sgn_finite sx mx ex Vx) as [Sx Ax]);
    try (pose proof (finite_val_bound my ey Vy) as By;
         pose proof (sgn_finite sy my ey Vy) as [Sy Ay]);
    intros H NZ; try discriminate H; try (exfalso; apply NZ; reflexivity);
    (split; [reflexivity | split; [reflexivity | split; [|split]]]).
  all: try (intros A; exfalso; revert A; rewrite ?Ax, ?Ay; cbn [Zval];
            try destruct sx; try destruct sy; lia).
  all: try (intros A1 A2; exfalso; revert A1 A2; rewrite ?Ax, ?Ay; cbn [Zval];
            try destruct sx; try destruct sy; lia).
  - intros _. reflexivity.
  - intros _ _. cbn [SFdiv]. change (Zval (S754_zero sx)) with 0.
    rewrite !Z.mul_0_l. symmetry. apply rnZ_zero. lia.
  - intros _ _. cbn [SFdiv]. rewrite Sy.
    destruct sx, sy; cbn [xorb Zval]; rewrite ?SI, ?SI'; lia.
  - intros _. reflexivity.
  - intros _ _. rewrite SFdiv_finite_rn by assumption. rewrite Sy, Ay.
    unfold rnZ. f_equal. f_equal.
    destruct sx, sy; cbn [xorb cond_Zopp Zval]; ring.
Qed.


(** *** Monotonicity of the four operations *)

Lemma add_mono_r (a x x' : float) :
  is_nan (a + x) = false -> is_nan (a + x') = false -> fval x <= fval x' ->
  fval (a + x) <= fval (a + x').
Proof.
  intros H H' L.
  destruct (add_val _ _ H) as (_ & _ & E). destruct (add_val _ _ H') as (_ & _ & E').
  rewrite E, E'. apply rnZ_mono; lia.
Qed.

Lemma sub_mono_l (x x' y : float) :
  is_nan (x - y) = false -> is_nan (x' - y) = false -> fval x <= fval x' ->
  fval (x - y) <= fval (x' - y).
Proof.
  intros H H' L.
  destruct (sub_val _ _ H) as (_ & _ & E). destruct (sub_val _ _ H') as (_ & _ & E').
  rewrite E, E'. apply rnZ_mono; lia.
Qed.

(** The sign of a difference is the sign of the exact difference. *)
Lemma sub_sign (x y : float) :
  is_nan (x - y) = false ->
  (fval y <= fval x -> 0 <= fval (x - y)) /\
  (fval x <= fval y -> fval (x - y) <= 0).
Proof.
  intros H. destruct (sub_val _ _ H) as (_ & _ & E). rewrite E.
  split; intros L.
  - rewrite <- (rnZ_zero 1) at 1 by lia. apply rnZ_mono; lia.
  - rewrite <- (rnZ_zero 1) by lia. apply rnZ_mono; lia.
Qed.

Lemma sgn_mul_le (a b c : Z) :
  a <= b -> 0 <= c -> Z.sgn a * Z.sgn c * Zinf <= Z.sgn b * Z.sgn c * Zinf.
Proof.
  intros Hab Hc. pose proof Zinf_pos.
  apply Z.mul_le_mono_nonneg_r; [lia|].
  apply Z.mul_le_mono_nonneg_r; [lia|].
  destruct (Z.sgn_spec a) as [[? ->] | [[? ->] | [? ->]]];
    destruct (Z.sgn_spec b) as [[? ->] | [[? ->] | [? ->]]]; lia.
Qed.

Lemma mul_mono_Z (X X' C R R' : Z) :
  - Zinf <= X -> X <= X' -> X' <= Zinf -> 0 <= C <= Zinf ->
  (Z.abs X < Zinf -> Z.abs C < Zinf -> R = rnZ (X * C) Zone) ->
  (Z.abs X = Zinf \/ Z.abs C = Zinf -> R = Z.sgn X * Z.sgn C * Zinf) ->
  (Z.abs X' < Zinf -> Z.abs C < Zinf -> R' = rnZ (X' * C) Zone) ->
  (Z.abs X' = Zinf \/ Z.abs C = Zinf -> R' = Z.sgn X' * Z.sgn C * Zinf) ->
  R <= R'.
Proof.
  intros HX HXX HX' HC F I F' I'.
  pose proof Zinf_pos as HI. pose proof Zone_pos as HO.
  pose proof (rnZ_range (X * C) Zone HO) as RX.
  pose proof (rnZ_range (X' * C) Zone HO) as RX'.
  destruct (Z.eq_dec C Zinf) as [EC | NC].
  - rewrite I, I' by (right; subst C; apply Z.abs_eq; lia).
    apply sgn_mul_le; lia.
  - assert (AC : Z.abs C < Zinf) by (rewrite Z.abs_eq; lia).
    destruct (Z.eq_dec X (- Zinf)) as [EX | NX].
    { (* X = -infinity *)
      assert (AX : Z.abs X = Zinf) by (subst X; rewrite Z.abs_opp; apply Z.abs_eq; lia).
      rewrite (I (or_introl AX)). clear F I.
      destruct (Z.eq_dec C 0) as [C0 | C0].
      - subst C. change (Z.sgn 0) with 0. rewrite Z.mul_0_r, Z.mul_0_l.
        destruct (Z.eq_dec (Z.abs X') Zinf) as [AX' | AX'].
        + rewrite (I' (or_introl AX')). change (Z.sgn 0) with 0. lia.
        + rewrite F' by (assumption || lia). rewrite Z.mul_0_r, rnZ_zero; lia.
      - rewrite (Z.sgn_pos C) by lia. rewrite (Z.sgn_neg X) by lia.
        destruct (Z.eq_dec (Z.abs X') Zinf) as [AX' | AX'].
        + rewrite (I' (or_introl AX')). rewrite (Z.sgn_pos C) by lia.
          clear F' I'.
          destruct (Z.sgn_spec X') as [[? ->] | [[? ->] | [? ->]]]; lia.
        + rewrite F' by (assumption || lia). lia. }
    destruct (Z.eq_dec X' Zinf) as [EX' | NX'].
    { (* X' = +infinity *)
      assert (AX' : Z.abs X' = Zinf) by (subst X'; apply Z.abs_eq; lia).
      rewrite (I' (or_introl AX')). clear F' I'.
      destruct (Z.eq_dec C 0) as [C0 | C0].
      - subst C. change (Z.sgn 0) with 0. rewrite Z.mul_0_r, Z.mul_0_l.
        destruct (Z.eq_dec (Z.abs X) Zinf) as [AX | AX].
        + rewrite (I (or_introl AX)). change (Z.sgn 0) with 0. lia.
        + rewrite F by (assumption || lia). rewrite Z.mul_0_r, rnZ_zero; lia.
      - rewrite (Z.sgn_pos C) by lia. rewrite (Z.sgn_pos X') by lia.
        destruct (Z.eq_dec (Z.abs X) Zinf) as [AX | AX].
        + rewrite (I (or_introl AX)). rewrite (Z.sgn_pos C) by lia.
          clear F I.
          destruct (Z.sgn_spec X) as [[? ->] | [[? ->] | [? ->]]]; lia.
        + rewrite F by (assumption || lia). lia. }
    (* both finite *)
    assert (AX : Z.abs X < Zinf) by (apply Z.abs_lt; lia).
    assert (AX' : Z.abs X' < Zinf) by (apply Z.abs_lt; lia).
    rewrite (F AX AC), (F' AX' AC). clear F I F' I'.
    apply rnZ_mono; try assumption.
    apply Z.mul_le_mono_nonneg_r; [lia|].
    apply Z.mul_le_mono_nonneg_r; lia.
Qed.

(** Multiplication by a non-negative float is monotone. *)
Lemma mul_mono_r (x x' c : float) :
  is_nan (x * c) = false -> is_nan (x' * c) = false ->
  fval x <= fval x' -> 0 <= fval c ->
  fval (x * c) <= fval (x' * c).
Proof.
  intros H H' L Hc.
  pose proof (fval_range x) as [Rx _]. pose proof (fval_range x') as [_ Rx'].
  pose proof (fval_range c) as [_ Rc].
  destruct (mul_val _ _ H) as (_ & _ & F & I).
  destruct (mul_val _ _ H') as (_ & _ & F' & I').
  exact (mul_mono_Z (fval x) (fval x') (fval c) _ _ Rx L Rx' (conj Hc Rc) F I F' I').
Qed.

Lemma mul_mono_l (c x x' : float) :
  is_nan (c * x) = false -> is_nan (c * x') = false ->
  fval x <= fval x' -> 0 <= fval c ->
  fval (c * x) <= fval (c * x').
Proof.
  intros H H' L Hc.
  pose proof (fval_range x) as [Rx _]. pose proof (fval_range x') as [_ Rx'].
  pose proof (fval_range c) as [_ Rc].
  destruct (mul_val _ _ H) as (_ & _ & F & I).
  destruct (mul_val _ _ H') as (_ & _ & F' & I').
  apply (mul_mono_Z (fval x) (fval x') (fval c) _ _ Rx L Rx' (conj Hc Rc)).
  - intros A1 A2. rewrite Z.mul_comm. exact (F A2 A1).
  - intros A. rewrite (Z.mul_comm (Z.sgn (fval x))). apply I.
    destruct A; [right | left]; assumption.
  - intros A1 A2. rewrite Z.mul_comm. exact (F' A2 A1).
  - intros A. rewrite (Z.mul_comm (Z.sgn (fval x'))). apply I'.
    destruct A; [right | left]; assumption.
Qed.

(** Multiplication by a non-positive float reverses the order. *)
Lemma mul_anti_r (x x' c : float) :
  is_nan (x * c) = false -> is_nan (x' * c) = false ->
  fval x <= fval x' -> fval c <= 0 ->
  fval (x' * c) <= fval (x * c).
Proof.
  intros H H' L Hc.
  pose proof (fval_range x) as Rx. pose proof (fval_range x') as Rx'.
  pose proof (fval_range c) as Rc.
  assert (A1 : - Zinf <= - fval x') by lia.
  assert (A2 : - fval x' <= - fval x) by lia.
  assert (A3 : - fval x <= Zinf) by lia.
  assert (A4 : 0 <= - fval c <= Zinf) by lia.
  destruct (mul_val _ _ H) as (_ & _ & F & I).
  destruct (mul_val _ _ H') as (_ & _ & F' & I').
  apply (mul_mono_Z (- fval x') (- fval x) (- fval c) _ _ A1 A2 A3 A4);
    rewrite ?Z.abs_opp, ?Z.sgn_opp, ?Z.mul_opp_opp; assumption.
Qed.

Lemma div_mono_Z (X X' D R R' : Z) :
  - Zinf <= X -> X <= X' -> X' <= Zinf -> 0 < D <= Zinf ->
  (Z.abs D = Zinf -> R = 0) ->
  (Z.abs D < Zinf -> Z.abs X = Zinf -> R = Z.sgn X * Z.sgn D * Zinf) ->
  (Z.abs D < Zinf -> Z.abs X < Zinf -> R = rnZ (X * Zone * Z.sgn D) (Z.abs D)) ->
  (Z.abs D = Zinf -> R' = 0) ->
  (Z.abs D < Zinf -> Z.abs X' = Zinf -> R' = Z.sgn X' * Z.sgn D * Zinf) ->
  (Z.abs D < Zinf -> Z.abs X' < Zinf -> R' = rnZ (X' * Zone * Z.sgn D) (Z.abs D)) ->
  R <= R'.
Proof.
  intros HX HXX HX' HD Z0 I F Z0' I' F'.
  pose proof Zinf_pos as HI. pose proof Zone_pos as HO.
  assert (AD : Z.abs D = D) by (apply Z.abs_eq; lia).
  assert (SD : Z.sgn D = 1) by (apply Z.sgn_pos; lia).
  rewrite AD, SD in *. clear AD SD.
  pose proof (rnZ_range (X * Zone * 1) D ltac:(lia)) as RX.
  pose proof (rnZ_range (X' * Zone * 1) D ltac:(lia)) as RX'.
  destruct (Z.eq_dec D Zinf) as [ED | ND].
  - rewrite Z0, Z0' by assumption. lia.
  - assert (AC : D < Zinf) by lia. clear Z0 Z0'.
    specialize (I AC). specialize (I' AC). specialize (F AC). specialize (F' AC).
    destruct (Z.eq_dec X (- Zinf)) as [EX | NX].
    { assert (AX : Z.abs X = Zinf) by (subst X; rewrite Z.abs_opp; apply Z.abs_eq; lia).
      rewrite (I AX). clear F I. rewrite (Z.sgn_neg X) by lia.
      destruct (Z.eq_dec (Z.abs X') Zinf) as [AX' | AX'].
      - rewrite (I' AX'). clear F' I'.
        destruct (Z.sgn_spec X') as [[? ->] | [[? ->] | [? ->]]]; lia.
      - rewrite F' by (assumption || lia). lia. }
    destruct (Z.eq_dec X' Zinf) as [EX' | NX'].
    { assert (AX' : Z.abs X' = Zinf) by (subst X'; apply Z.abs_eq; lia).
      rewrite (I' AX'). clear F' I'. rewrite (Z.sgn_pos X') by lia.
      destruct (Z.eq_dec (Z.abs X) Zinf) as [AX | AX].
      - rewrite (I AX). clear F I.
        destruct (Z.sgn_spec X) as [[? ->] | [[? ->] | [? ->]]]; lia.
      - rewrite F by (assumption || lia). lia. }
    assert (AX : Z.abs X < Zinf) by (apply Z.abs_lt; lia).
    assert (AX' : Z.abs X' < Zinf) by (apply Z.abs_lt; lia).
    rewrite (F AX), (F' AX'). clear F I F' I'.
    apply rnZ_mono; try lia.
    apply Z.mul_le_mono_nonneg_r; [lia|].
    rewrite !Z.mul_1_r.
    apply Z.mul_le_mono_nonneg_r; lia.
Qed.

(** Division by a positive float is monotone, by a negative float it
    reverses the order. *)
Lemma div_mono (x x' d : float) :
  is_nan (x / d) = false -> is_nan (x' / d) = false ->
  fval x <= fval x' -> 0 < fval d ->
  fval (x / d) <= fval (x' / d).
Proof.
  intros H H' L Hd.
  pose proof (fval_range x) as [Rx _]. pose proof (fval_range x') as [_ Rx'].
  pose proof (fval_range d) as [_ Rd].
  assert (NZ : fval d <> 0) by lia.
  destruct (div_val _ _ H NZ) as (_ & _ & Z0 & I & F).
  destruct (div_val _ _ H' NZ) as (_ & _ & Z0' & I' & F').
  exact (div_mono_Z (fval x) (fval x') (fval d) _ _ Rx L Rx' (conj Hd Rd)
           Z0 I F Z0' I' F').
Qed.

Lemma div_anti (x x' d : float) :
  is_nan (x / d) = false -> is_nan (x' / d) = false ->
  fval x <= fval x' -> fval d < 0 ->
  fval (x' / d) <= fval (x / d).
Proof.
  intros H H' L Hd.
  pose proof (fval_range x) as Rx. pose proof (fval_range x') as Rx'.
  pose proof (fval_range d) as Rd.
  assert (NZ : fval d <> 0) by lia.
  assert (A1 : - Zinf <= - fval x') by lia.
  assert (A2 : - fval x' <= - fval x) by lia.
  assert (A3 : - fval x <= Zinf) by lia.
  assert (A4 : 0 < - fval d <= Zinf) by lia.
  destruct (div_val _ _ H NZ) as (_ & _ & Z0 & I & F).
  destruct (div_val _ _ H' NZ) as (_ & _ & Z0' & I' & F').
  apply (div_mono_Z (- fval x') (- fval x) (- fval d) _ _ A1 A2 A3 A4);
    rewrite ?Z.abs_opp, ?Z.sgn_opp, ?Z.mul_opp_opp; try assumption.
  - replace (- fval x' * Zone * - Z.sgn (fval d))
      with (fval x' * Zone * Z.sgn (fval d)) by ring. assumption.
  - replace (- fval x * Zone * - Z.sgn (fval d))
      with (fval x * Zone * Z.sgn (fval d)) by ring. assumption.
Qed.


(** ** Monotonicity of the rescaling *)

Lemma div_not_nan (x y : float) :
  is_nan (x / y) = false -> is_nan x = false /\ is_nan y = false.
Proof.
  rewrite !is_nan_spec, div_spec. unfold SF64div.
  destruct (Prim2SF x), (Prim2SF y); cbn [SFdiv sf_is_nan]; intros H;
    try discriminate H; split; reflexivity.
Qed.

Lemma scale_value_inv (value old_min old_max a b s : float) :
  scale_value value old_min old_max a b = Ok s ->
  (old_max - old_min =? 0)%float = false /\
  s = (a + (value - old_min) * (b - a) / (old_max - old_min))%float.
Proof.
  unfold scale_value, float_div.
  destruct (old_max - old_min =? 0)%float; cbn [bind]; intros H; [discriminate|].
  split; [reflexivity|].
  symmetry. exact (f_equal (fun r => match r with Ok z => z | Raise _ => s end) H).
Qed.

(** The direction of [scale_value] in its first argument is the sign of
    [(new_max - new_min) / (old_max - old_min)]. *)
Lemma scale_value_mono_core (v v' m M a b s s' : float) :
  scale_value v m M a b = Ok s -> scale_value v' m M a b = Ok s' ->
  is_nan s = false -> is_nan s' = false -> fval v <= fval v' ->
  ((0 <= fval (b - a) /\ 0 <= fval (M - m)) \/
   (fval (b - a) <= 0 /\ fval (M - m) <= 0) -> fval s <= fval s') /\
  ((0 <= fval (b - a) /\ fval (M - m) <= 0) \/
   (fval (b - a) <= 0 /\ 0 <= fval (M - m)) -> fval s' <= fval s).
Proof.
  intros Hs Hs' Ns Ns' L.
  apply scale_value_inv in Hs, Hs'.
  destruct Hs as [Hd Es], Hs' as [_ Es']. subst s s'.
  set (c := (b - a)%float) in *. set (d := (M - m)%float) in *.
  destruct (add_val _ _ Ns) as (_ & Nq & _).
  destruct (add_val _ _ Ns') as (_ & Nq' & _).
  destruct (div_not_nan _ _ Nq) as [Np Nd].
  destruct (div_not_nan _ _ Nq') as [Np' _].
  destruct (mul_val _ _ Np) as (Nu & _ & _).
  destruct (mul_val _ _ Np') as (Nu' & _ & _).
  assert (Dnz : fval d <> 0).
  { apply eqb_false_iff in Hd. rewrite fval_zero in Hd.
    destruct Hd as [H | [H | H]]; [congruence | discriminate H | exact H]. }
  pose proof (sub_mono_l v v' m Nu Nu' L) as L1.
  split; intros [[Hc Hdd] | [Hc Hdd]].
  - apply add_mono_r; try assumption.
    apply div_mono; try assumption; [|lia].
    apply mul_mono_r; assumption.
  - apply add_mono_r; try assumption.
    apply div_anti; try assumption; [|lia].
    apply mul_anti_r; assumption.
  - apply add_mono_r; try assumption.
    apply div_anti; try assumption; [|lia].
    apply mul_mono_r; assumption.
  - apply add_mono_r; try assumption.
    apply div_mono; try assumption; [|lia].
    apply mul_anti_r; assumption.
Qed.

Lemma scale_value_not_nan (v m M a b s : float) :
  scale_value v m M a b = Ok s -> is_nan s = false ->
  is_nan (b - a) = false /\ is_nan (M - m) = false.
Proof.
  intros Hs Ns. apply scale_value_inv in Hs. destruct Hs as [_ Es]. subst s.
  destruct (add_val _ _ Ns) as (_ & Nq & _).
  destruct (div_not_nan _ _ Nq) as [Np Nd].
  destruct (mul_val _ _ Np) as (_ & Nc & _). auto.
Qed.

(** X15. [scale_value] is monotone in its first argument, in binary64 and
    for all floats: when the old and the new range run the same way
    ([old_min <= old_max] and [new_min <= new_max], or both reversed) a
    larger value never gives a smaller result, and when they run opposite
    ways a larger value never gives a larger result.  The results compared
    are those of calls that return a number (not NaN). *)
Theorem scale_value_monotone
    (value value' old_min old_max new_min new_max s s' : float) :
  (value <=? value')%float = true ->
  scale_value value old_min old_max new_min new_max = Ok s ->
  scale_value value' old_min old_max new_min new_max = Ok s' ->
  isnan s = false -> isnan s' = false ->
  ((old_min <=? old_max)%float && (new_min <=? new_max)%float
   || (old_max <=? old_min)%float && (new_max <=? new_min)%float = true ->
   (s <=? s')%float = true) /\
  ((old_min <=? old_max)%float && (new_max <=? new_min)%float
   || (old_max <=? old_min)%float && (new_min <=? new_max)%float = true ->
   (s' <=? s)%float = true).
Proof.
  unfold isnan. intros L Hs Hs' Ns Ns'.
  apply leb_true_iff in L. destruct L as (_ & _ & L).
  destruct (scale_value_mono_core _ _ _ _ _ _ _ _ Hs Hs' Ns Ns' L) as [Up Down].
  destruct (scale_value_not_nan _ _ _ _ _ _ Hs Ns) as [Nc Nd].
  destruct (sub_sign new_max new_min Nc) as [Cp Cn].
  destruct (sub_sign old_max old_min Nd) as [Dp Dn].
  split; intros H; apply leb_true_iff; (split; [assumption | split; [assumption|]]);
    apply orb_true_iff in H; destruct H as [H | H]; apply andb_true_iff in H;
    destruct H as [H1 H2]; apply leb_true_iff in H1, H2;
    destruct H1 as (_ & _ & H1), H2 as (_ & _ & H2).
  - apply Up. left. auto.
  - apply Up. right. auto.
  - apply Down. right. auto.
  - apply Down. left. auto.
Qed.

(** Rescaling [[0, 4]] to [[10, 0]] reverses the order of 1 and 2. *)
Lemma scale_value_monotone_witness :
  (1 <=? 2)%float = true /\
  scale_value 1 0 4 10 0 = Ok 7.5%float /\
  scale_value 2 0 4 10 0 = Ok 5%float /\
  isnan 7.5 = false /\ isnan 5 = false /\
  ((0 <=? 4)%float && (10 <=? 0)%float || (4 <=? 0)%float && (0 <=? 10)%float = true ->
   (7.5 <=? 5)%float = true) /\
  ((0 <=? 4)%float && (0 <=? 10)%float || (4 <=? 0)%float && (10 <=? 0)%float = true ->
   (5 <=? 7.5)%float = true).
Proof.
  split; [reflexivity|]. split; [reflexivity|]. split; [reflexivity|].
  split; [reflexivity|]. split; [reflexivity|].
  exact (scale_value_monotone 1 2 0 4 10 0 _ _ eq_refl eq_refl eq_refl eq_refl eq_refl).
Defined.


(** ** Monotonicity of the rescaling transforms *)

(** Moving the error from [bad_value] towards [good_value] moves the
    rescaled value from [new_min] towards [new_max]. *)
Lemma scale_value_toward_good (e e' bad good a b s s' : float) :
  (bad <=? good)%float && (e <=? e')%float
  || (good <=? bad)%float && (e' <=? e)%float = true ->
  scale_value e bad good a b = Ok s -> scale_value e' bad good a b = Ok s' ->
  is_nan s = false -> is_nan s' = false ->
  ((a <=? b)%float = true -> fval s <= fval s') /\
  ((b <=? a)%float = true -> fval s' <= fval s).
Proof.
  intros H Hs Hs' Ns Ns'.
  destruct (scale_value_not_nan _ _ _ _ _ _ Hs Ns) as [Nc Nd].
  destruct (sub_sign b a Nc) as [Cp Cn].
  destruct (sub_sign good bad Nd) as [Dp Dn].
  apply orb_true_iff in H. destruct H as [H | H]; apply andb_true_iff in H;
    destruct H as [H1 H2]; apply leb_true_iff in H1, H2;
    destruct H1 as (_ & _ & H1), H2 as (_ & _ & H2).
  - destruct (scale_value_mono_core _ _ _ _ _ _ _ _ Hs Hs' Ns Ns' H2) as [Up Down].
    split; intros Hab; apply leb_true_iff in Hab; destruct Hab as (_ & _ & Hab).
    + apply Up. left. auto.
    + apply Down. right. auto.
  - destruct (scale_value_mono_core _ _ _ _ _ _ _ _ Hs' Hs Ns' Ns H2) as [Up Down].
    split; intros Hab; apply leb_true_iff in Hab; destruct Hab as (_ & _ & Hab).
    + apply Down. left. auto.
    + apply Up. right. auto.
Qed.

Lemma clip_unit_mono (x y : float) :
  is_nan (clip_value x 0 1) = false -> is_nan (clip_value y 0 1) = false ->
  fval x <= fval y ->
  (clip_value x 0 1 <=? clip_value y 0 1)%float = true.
Proof.
  intros Nx Ny L.
  assert (Nx' : is_nan x = false).
  { destruct (is_nan x) eqn:E; [|reflexivity].
    unfold clip_value, isnan in Nx. rewrite E in Nx. congruence. }
  assert (Ny' : is_nan y = false).
  { destruct (is_nan y) eqn:E; [|reflexivity].
    unfold clip_value, isnan in Ny. rewrite E in Ny. congruence. }
  destruct (fval_clip_value x 0 1 Nx' eq_refl eq_refl) as [_ Ex].
  destruct (fval_clip_value y 0 1 Ny' eq_refl eq_refl) as [_ Ey].
  apply leb_true_iff. split; [assumption | split; [assumption | lia]].
Qed.

Lemma clip_not_nan (x : float) :
  is_nan (clip_value x 0 1) = false -> is_nan x = false.
Proof.
  intros Nx. destruct (is_nan x) eqn:E; [|reflexivity].
  unfold clip_value, isnan in Nx. rewrite E in Nx. congruence.
Qed.

Lemma math_exp_inv (libm : Libm) (x r : float) :
  math_exp libm x = Ok r -> r = c_exp libm x.
Proof.
  unfold math_exp.
  destruct (is_nan (c_exp libm x) && negb (is_nan x)); [discriminate|].
  destruct (is_infinity (c_exp libm x) && is_finite x); [discriminate|].
  intros H. symmetry.
  exact (f_equal (fun v => match v with Ok z => z | Raise _ => r end) H).
Qed.

Lemma Ok_inv {A : Type} (x y : A) : Ok x = Ok y -> x = y.
Proof.
  intros H. exact (f_equal (fun v => match v with Ok z => z | Raise _ => x end) H).
Qed.

Lemma PyFloat_inv (x y : float) : PyFloat x = PyFloat y -> x = y.
Proof.
  intros H.
  exact (f_equal (fun v => match v with PyFloat z => z | PyComplex _ _ => x end) H).
Qed.

Lemma logistic_value_not_nan (libm : Libm) (s l : float) :
  exp_spec (c_exp libm) ->
  logistic_value libm s = Ok l -> is_nan l = false -> is_nan s = false.
Proof.
  intros Hexp Hl Nl. destruct (is_nan s) eqn:E; [|reflexivity].
  apply is_nan_eq in E. subst s.
  rewrite (logistic_value_nan libm (proj1 Hexp)) in Hl.
  apply Ok_inv in Hl. subst l. discriminate Nl.
Qed.

Lemma logistic_value_le (libm : Libm) (s s' l l' : float) :
  exp_spec (c_exp libm) ->
  logistic_value libm s = Ok l -> logistic_value libm s' = Ok l' ->
  is_nan s = false -> is_nan s' = false -> fval s <= fval s' ->
  (l <=? l')%float = true.
Proof.
  intros Hexp Hl Hl' Ns Ns' L.
  assert (Hle : (s <=? s')%float = true) by (apply leb_true_iff; auto).
  destruct (logistic_value_mono libm Hexp s s' Hle) as (lx & ly & Ex & Ey & Hxy).
  rewrite Hl in Ex. rewrite Hl' in Ey. apply Ok_inv in Ex, Ey. subst lx ly.
  exact Hxy.
Qed.

(** [LinearClippedReward] alone needs nothing of the platform. *)
Lemma linear_clipped_reward_mono
    (libm : Libm) (bad_value good_value e e' r r' : float) :
  (bad_value <=? good_value)%float && (e <=? e')%float
  || (good_value <=? bad_value)%float && (e' <=? e)%float = true ->
  reward libm (LinearClippedReward bad_value good_value) e = Ok (PyFloat r) ->
  reward libm (LinearClippedReward bad_value good_value) e' = Ok (PyFloat r') ->
  is_nan r = false -> is_nan r' = false ->
  (r <=? r')%float = true.
Proof.
  intros Hdir Hr Hr' Nr Nr'. cbn [reward] in Hr, Hr'.
  destruct (scale_value e _ _ _ _) as [s|] eqn:Hs; cbn [bind] in Hr; [|discriminate].
  destruct (scale_value e' _ _ _ _) as [s'|] eqn:Hs'; cbn [bind] in Hr'; [|discriminate].
  apply Ok_inv, PyFloat_inv in Hr, Hr'. subst r r'.
  pose proof (clip_not_nan _ Nr) as Ns. pose proof (clip_not_nan _ Nr') as Ns'.
  destruct (scale_value_toward_good _ _ _ _ _ _ _ _ Hdir Hs Hs' Ns Ns') as [Up _].
  apply clip_unit_mono; try assumption. apply Up. reflexivity.
Qed.

Lemma rescaling_reward_mono
    (libm : Libm) (t : RewardTransform) (bad_value good_value e e' r r' : float) :
  exp_spec (c_exp libm) ->
  thresholds t = Some (bad_value, good_value) -> oriented t = true ->
  (bad_value <=? good_value)%float && (e <=? e')%float
  || (good_value <=? bad_value)%float && (e' <=? e)%float = true ->
  reward libm t e = Ok (PyFloat r) -> reward libm t e' = Ok (PyFloat r') ->
  is_nan r = false -> is_nan r' = false ->
  (r <=? r')%float = true.
Proof.
  intros Hexp Ht Ho Hdir Hr Hr' Nr Nr'.
  destruct t as [nz | | | w | off | bad good | bad good sh | bad good sh
                 | bad good lo hi]; try discriminate Ht; cbn [thresholds] in Ht;
    assert (Eb : bad = bad_value) by congruence;
    assert (Eg : good = good_value) by congruence; subst bad good; clear Ht;
    cbn [reward oriented] in Hr, Hr', Ho.
  - (* LinearClippedReward *)
    exact (linear_clipped_reward_mono libm bad_value good_value e e' r r'
             Hdir Hr Hr' Nr Nr').
  - (* SoftPlusReward *)
    destruct (scale_value e _ _ _ _) as [s|] eqn:Hs; cbn [bind] in Hr; [|discriminate].
    destruct (scale_value e' _ _ _ _) as [s'|] eqn:Hs'; cbn [bind] in Hr'; [|discriminate].
    destruct (logistic_value libm s) as [l|] eqn:Hl; cbn [bind] in Hr; [|discriminate].
    destruct (logistic_value libm s') as [l'|] eqn:Hl'; cbn [bind] in Hr'; [|discriminate].
    apply Ok_inv, PyFloat_inv in Hr, Hr'. subst r r'.
    pose proof (clip_not_nan _ Nr) as N2. pose proof (clip_not_nan _ Nr') as N2'.
    destruct (mul_val _ _ N2) as (_ & Nl & _).
    destruct (mul_val _ _ N2') as (_ & Nl' & _).
    pose proof (logistic_value_not_nan libm s l Hexp Hl Nl) as Ns.
    pose proof (logistic_value_not_nan libm s' l' Hexp Hl' Nl') as Ns'.
    destruct (scale_value_toward_good _ _ _ _ _ _ _ _ Hdir Hs Hs' Ns Ns') as [Up _].
    pose proof (logistic_value_le libm s s' l l' Hexp Hl Hl' Ns Ns' (Up Ho)) as Hll.
    apply leb_true_iff in Hll. destruct Hll as (_ & _ & Hll).
    apply clip_unit_mono; try assumption.
    apply mul_mono_l; try assumption.
    assert (H2 : (0 <=? 2)%float = true) by reflexivity.
    apply leb_true_iff in H2. rewrite fval_zero in H2. apply H2.
  - (* NegExpReward *)
    destruct (scale_value e _ _ _ _) as [s|] eqn:Hs; cbn [bind] in Hr; [|discriminate].
    destruct (scale_value e' _ _ _ _) as [s'|] eqn:Hs'; cbn [bind] in Hr'; [|discriminate].
    destruct (math_exp libm (- s)) as [x|] eqn:Hx; cbn [bind] in Hr; [|discriminate].
    destruct (math_exp libm (- s')) as [x'|] eqn:Hx'; cbn [bind] in Hr'; [|discriminate].
    apply Ok_inv, PyFloat_inv in Hr, Hr'. subst r r'.
    apply math_exp_inv in Hx, Hx'. subst x x'.
    pose proof (clip_not_nan _ Nr) as Nx. pose proof (clip_not_nan _ Nr') as Nx'.
    pose proof Hexp as (Hnan & _ & _ & Hmono & _).
    assert (Ns : is_nan s = false).
    { destruct (is_nan s) eqn:E; [|reflexivity]. apply is_nan_eq in E. subst s.
      change (- nan)%float with nan in Nx. rewrite Hnan in Nx. discriminate Nx. }
    assert (Ns' : is_nan s' = false).
    { destruct (is_nan s') eqn:E; [|reflexivity]. apply is_nan_eq in E. subst s'.
      change (- nan)%float with nan in Nx'. rewrite Hnan in Nx'. discriminate Nx'. }
    destruct (scale_value_toward_good _ _ _ _ _ _ _ _ Hdir Hs Hs' Ns Ns') as [_ Down].
    specialize (Down Ho).
    assert (Hle : (- s <=? - s')%float = true).
    { apply leb_true_iff. rewrite (is_nan_opp s), (is_nan_opp s'), (fval_opp s), (fval_opp s').
      split; [assumption | split; [assumption | lia]]. }
    pose proof (Hmono _ _ Hle) as Hxx. apply leb_true_iff in Hxx.
    apply clip_unit_mono; try assumption. apply Hxx.
  - (* SigmoidReward *)
    destruct (scale_value e _ _ _ _) as [s|] eqn:Hs; cbn [bind] in Hr; [|discriminate].
    destruct (scale_value e' _ _ _ _) as [s'|] eqn:Hs'; cbn [bind] in Hr'; [|discriminate].
    destruct (logistic_value libm s) as [l|] eqn:Hl; cbn [bind] in Hr; [|discriminate].
    destruct (logistic_value libm s') as [l'|] eqn:Hl'; cbn [bind] in Hr'; [|discriminate].
    apply Ok_inv, PyFloat_inv in Hr, Hr'. subst l l'.
    pose proof (logistic_value_not_nan libm s r Hexp Hl Nr) as Ns.
    pose proof (logistic_value_not_nan libm s' r' Hexp Hl' Nr') as Ns'.
    destruct (scale_value_toward_good _ _ _ _ _ _ _ _ Hdir Hs Hs' Ns Ns') as [Up _].
    exact (logistic_value_le libm s s' r r' Hexp Hl Hl' Ns Ns' (Up Ho)).
Qed.

(** X16. The four rescaling transforms are monotone, in binary64 and for
    all floats: under an [exp] satisfying [exp_spec] and with the sharpness
    signs of the defaults ([oriented]), an error that lies at least as far
    towards [good_value] as another never earns a smaller reward.  The
    rewards compared are numbers (not NaN) returned by one call. *)
Theorem rescaling_rewards_monotone
    (libm : Libm) (t : RewardTransform) (bad_value good_value e e' r r' : float) :
  exp_spec (c_exp libm) ->
  thresholds t = Some (bad_value, good_value) -> oriented t = true ->
  (bad_value <=? good_value)%float && (e <=? e')%float
  || (good_value <=? bad_value)%float && (e' <=? e)%float = true ->
  call libm t [e; e'] = Ok [PyFloat r; PyFloat r'] ->
  isnan r = false -> isnan r' = false ->
  (r <=? r')%float = true.
Proof.
  unfold isnan, call. intros Hexp Ht Ho Hdir Hc Nr Nr'.
  apply list_comp_Forall2 in Hc.
  inversion Hc as [|? ? ? ? Hr Hc']; subst.
  inversion Hc' as [|? ? ? ? Hr' _]; subst.
  exact (rescaling_reward_mono libm t bad_value good_value e e' r r'
           Hexp Ht Ho Hdir Hr Hr' Nr Nr').
Qed.

(** [LinearClippedReward(bad_value=10)] on the errors 7.5 and 2.5. *)
Lemma rescaling_rewards_monotone_witness :
  exp_spec (c_exp ref_libm) /\
  thresholds (LinearClippedReward 10 0) = Some (10, 0)%float /\
  oriented (LinearClippedReward 10 0) = true /\
  (10 <=? 0)%float && (7.5 <=? 2.5)%float
  || (0 <=? 10)%float && (2.5 <=? 7.5)%float = true /\
  call ref_libm (LinearClippedReward 10 0) [7.5; 2.5]%float
  = Ok [PyFloat 0.25; PyFloat 0.75] /\
  isnan 0.25 = false /\ isnan 0.75 = false /\
  (0.25 <=? 0.75)%float = true.
Proof.
  split; [exact ref_exp_spec|]. split; [reflexivity|]. split; [reflexivity|].
  split; [reflexivity|]. split; [reflexivity|]. split; [reflexivity|].
  split; [reflexivity|].
  exact (rescaling_rewards_monotone ref_libm (LinearClippedReward 10 0) 10 0
           7.5 2.5 0.25 0.75 ref_exp_spec eq_refl eq_refl eq_refl eq_refl
           eq_refl eq_refl).
Defined.


(** ** [LinearClippedReward] on numbers *)

Lemma rn_signed_not_nan (N D : Z) : sf_is_nan (rn_signed N D) = false.
Proof.
  unfold rn_signed. destruct (N <? 0).
  - pose proof (rn_float_not_nan (- N) D) as H.
    destruct (rn_float (- N) D); try discriminate H; reflexivity.
  - apply rn_float_not_nan.
Qed.

Lemma sub_finite_not_nan (x y : float) :
  is_nan x = false -> is_finite y = true -> is_nan (x - y) = false.
Proof.
  rewrite !is_nan_spec, is_finite_spec, sub_spec. unfold SF64sub.
  pose proof (Prim2SF_valid x) as Vx. pose proof (Prim2SF_valid y) as Vy.
  destruct (Prim2SF x) as [sx | sx | | sx mx ex], (Prim2SF y) as [sy | sy | | sy my ey];
    intros Nx Fy; try discriminate; try reflexivity.
  - destruct sx, sy; reflexivity.
  - cbn [valid_binary] in Vx, Vy.
    pose proof (proj1 (bounded_canonical mx ex Vx)).
    pose proof (proj1 (bounded_canonical my ey Vy)).
    rewrite SFsub_finite_rn by lia. apply rn_signed_not_nan.
Qed.

(** Multiplying by 1 changes nothing. *)
Lemma mul_one_val (x : float) :
  is_nan x = false -> is_nan (x * 1) = false /\ fval (x * 1) = fval x.
Proof.
  rewrite !is_nan_spec. unfold fval. rewrite mul_spec, Prim2SF_one. unfold SF64mul.
  pose proof (Prim2SF_valid x) as Vx. pose proof Zone_pos as HO.
  destruct (Prim2SF x) as [sx | sx | | sx mx ex]; intros Nx; try discriminate.
  - split; reflexivity.
  - split; [reflexivity|]. cbn [SFmul]. rewrite xorb_false_r. reflexivity.
  - cbn [valid_binary] in Vx.
    rewrite SFmul_finite_rn by (assumption || reflexivity).
    split; [apply rn_signed_not_nan|].
    change (Zval (S754_finite false 4503599627370496 (-52))) with (fval 1).
    rewrite fval_one. fold (rnZ (Zval (S754_finite sx mx ex) * Zone) Zone).
    rewrite (rnZ_ratio _ Zone (Zval (S754_finite sx mx ex)) 1) by lia.
    apply rnZ_Zval; [exact Vx | reflexivity].
Qed.

Lemma div_finite_not_nan (x d : float) :
  is_nan x = false -> is_finite d = true -> fval d <> 0 -> is_nan (x / d) = false.
Proof.
  rewrite !is_nan_spec, is_finite_spec. unfold fval. rewrite div_spec. unfold SF64div.
  pose proof (Prim2SF_valid x) as Vx. pose proof (Prim2SF_valid d) as Vd.
  destruct (Prim2SF x) as [sx | sx | | sx mx ex], (Prim2SF d) as [sy | sy | | sy my ey];
    intros Nx Fd NZ; try discriminate; try reflexivity;
    try (exfalso; apply NZ; reflexivity).
  cbn [valid_binary] in Vx, Vd.
  rewrite SFdiv_finite_rn by assumption. apply rn_signed_not_nan.
Qed.

Lemma add_zero_val (q : float) :
  is_nan q = false -> is_nan (0 + q) = false /\ fval (0 + q) = fval q.
Proof.
  rewrite !is_nan_spec. unfold fval. rewrite add_spec. unfold SF64add.
  change (Prim2SF 0) with (S754_zero false).
  destruct (Prim2SF q) as [s | s | | s m e]; intros Nq; try discriminate;
    try (split; reflexivity).
  destruct s; split; reflexivity.
Qed.

(** The rescaling of [LinearClippedReward] on an error that is not NaN. *)
Lemma linear_scale_val (error bad good : float) :
  is_nan error = false -> is_finite bad = true ->
  is_finite (good - bad) = true -> (bad =? good)%float = false ->
  exists s,
    scale_value error bad good 0 1 = Ok s /\ is_nan s = false /\
    let D := fval (good - bad) in
    D <> 0 /\ Z.abs D < Zinf /\
    (Z.abs (fval (error - bad)) < Zinf ->
     fval s = rnZ (fval (error - bad) * Zone * Z.sgn D) (Z.abs D)).
Proof.
  intros Ne Fb Fd Hne.
  assert (Nd : is_nan (good - bad) = false)
    by (apply is_finite_true_iff in Fd; apply Fd).
  destruct (sub_val _ _ Nd) as (Ng & _ & _).
  assert (Hd : sf_nonzero (Prim2SF (good - bad)) = true).
  { apply sub_nonzero; try assumption.
    apply eqb_false_iff in Hne. apply eqb_false_iff.
    destruct Hne as [H | [H | H]]; auto. }
  assert (Hz : (good - bad =? 0)%float = false).
  { rewrite eqb_zero_spec, Hd. reflexivity. }
  assert (Dnz : fval (good - bad) <> 0).
  { apply eqb_false_iff in Hz. rewrite fval_zero in Hz.
    destruct Hz as [H | [H | H]]; [congruence | discriminate H | exact H]. }
  pose proof (sub_finite_not_nan error bad Ne Fb) as Nu.
  destruct (mul_one_val _ Nu) as [Np Ep].
  pose proof (div_finite_not_nan _ _ Np Fd Dnz) as Nq.
  destruct (add_zero_val _ Nq) as [Ns Es].
  exists (0 + (error - bad) * 1 / (good - bad))%float.
  split; [|split; [exact Ns|]].
  - unfold scale_value, float_div. change (1 - 0)%float with 1%float.
    rewrite Hz. reflexivity.
  - intros D. split; [exact Dnz|].
    apply is_finite_true_iff in Fd. destruct Fd as (_ & Fd).
    split; [apply Z.abs_lt; exact Fd|].
    intros Au. rewrite Es.
    destruct (div_val _ _ Nq Dnz) as (_ & _ & _ & _ & F).
    rewrite F, Ep; [reflexivity | apply Z.abs_lt; exact Fd | rewrite Ep; exact Au].
Qed.

(** X17. For a finite [bad_value] and a [good_value] at a finite, non-zero
    distance from it, [LinearClippedReward] returns on every list of
    errors that are not NaN (infinite errors included), and every reward is
    a number in [[0, 1]]: NaN comes out only if NaN went in. *)
Theorem linear_clipped_reward_number
    (libm : Libm) (bad_value good_value : float) (errors : list float) :
  is_finite bad_value = true -> is_finite (good_value - bad_value) = true ->
  (bad_value =? good_value)%float = false ->
  Forall (fun e => isnan e = false) errors ->
  exists out,
    call libm (LinearClippedReward bad_value good_value) errors = Ok (map PyFloat out) /\
    length out = length errors /\
    Forall (fun r => (0 <=? r)%float = true /\ (r <=? 1)%float = true) out.
Proof.
  intros Fb Fd Hne Herr. unfold call.
  induction Herr as [|e errors He _ IH].
  - exists []. repeat split; constructor.
  - destruct IH as (out & Hout & Hlen & Hall).
    destruct (linear_scale_val e bad_value good_value He Fb Fd Hne) as (s & Hs & Ns & _).
    exists (clip_value s 0 1 :: out). cbn [list_comp map reward].
    rewrite Hs. cbn [bind]. unfold call in Hout.
    cbn [reward] in Hout. rewrite Hout. cbn [bind].
    split; [reflexivity|]. split; [cbn [length]; congruence|].
    constructor; [|exact Hall].
    destruct (clip_unit_interval s) as [H | H]; [|exact H].
    unfold clip_value, isnan in H. rewrite Ns in H.
    destruct (fval_clip_value s 0 1 Ns eq_refl eq_refl) as [Nc _].
    unfold clip_value, isnan in Nc. rewrite Ns in Nc. congruence.
Qed.

Lemma linear_clipped_reward_number_witness :
  is_finite 10 = true /\ is_finite (0 - 10) = true /\ (10 =? 0)%float = false /\
  Forall (fun e => isnan e = false) [infinity; 2.5; neg_infinity]%float /\
  exists out,
    call ref_libm (LinearClippedReward 10 0) [infinity; 2.5; neg_infinity]%float
    = Ok (map PyFloat out) /\
    length out = length [infinity; 2.5; neg_infinity]%float /\
    Forall (fun r => (0 <=? r)%float = true /\ (r <=? 1)%float = true) out.
Proof.
  split; [reflexivity|]. split; [reflexivity|]. split; [reflexivity|].
  assert (H : Forall (fun e => isnan e = false) [infinity; 2.5; neg_infinity]%float)
    by (repeat constructor).
  split; [exact H|].
  exact (linear_clipped_reward_number ref_libm 10 0 _ eq_refl eq_refl eq_refl H).
Defined.

(** The rewards of the two thresholds are 0 and 1, with no rounding
    error. *)
Lemma linear_reward_endpoints (libm : Libm) (bad_value good_value : float) :
  is_finite bad_value = true -> is_finite (good_value - bad_value) = true ->
  (bad_value =? good_value)%float = false ->
  exists r0 r1,
    reward libm (LinearClippedReward bad_value good_value) bad_value = Ok (PyFloat r0) /\
    reward libm (LinearClippedReward bad_value good_value) good_value = Ok (PyFloat r1) /\
    (r0 =? 0)%float = true /\ (r1 =? 1)%float = true.
Proof.
  intros Fb Fd Hne.
  assert (Nb : is_nan bad_value = false)
    by (apply is_finite_true_iff in Fb; apply Fb).
  assert (Nd : is_nan (good_value - bad_value) = false)
    by (apply is_finite_true_iff in Fd; apply Fd).
  destruct (sub_val _ _ Nd) as (Ng & _ & _).
  destruct (linear_scale_val bad_value bad_value good_value Nb Fb Fd Hne)
    as (s0 & Hs0 & Ns0 & _).
  destruct (linear_scale_val good_value bad_value good_value Ng Fb Fd Hne)
    as (s1 & Hs1 & Ns1 & Dnz & AD & Es1).
  destruct (scale_value_lower bad_value good_value 0 1 Fb Ng Hne eq_refl)
    as (s0' & Hs0' & E0).
  rewrite Hs0 in Hs0'. apply Ok_inv in Hs0'. subst s0'.
  exists (clip_value s0 0 1), (clip_value s1 0 1).
  cbn [reward]. rewrite Hs0, Hs1. cbn [bind].
  split; [reflexivity|]. split; [reflexivity|].
  destruct (fval_clip_value s0 0 1 Ns0 eq_refl eq_refl) as [Nc0 Ec0].
  destruct (fval_clip_value s1 0 1 Ns1 eq_refl eq_refl) as [Nc1 Ec1].
  pose proof Zone_pos as HO.
  rewrite fval_zero, fval_one in Ec0, Ec1.
  split; apply eqb_true_iff; (split; [assumption | split; [reflexivity|]]).
  - apply eqb_true_iff in E0. destruct E0 as (_ & _ & E0).
    rewrite fval_zero in E0 |- *. lia.
  - rewrite fval_one.
    assert (E : fval s1 = Zone).
    { rewrite Es1 by exact AD.
      set (D := fval (good_value - bad_value)) in *.
      rewrite (rnZ_ratio _ (Z.abs D) Zone 1).
      - rewrite <- fval_one. apply rnZ_Zval; [apply Prim2SF_valid | reflexivity].
      - apply Z.abs_pos. exact Dnz.
      - lia.
      - rewrite Z.mul_1_r.
        replace (D * Zone * Z.sgn D) with (Zone * (D * Z.sgn D)) by ring.
        f_equal. apply Z.sgn_abs. }
    lia.
Qed.

(** X18. [LinearClippedReward] is exactly 0 at [bad_value] and beyond it,
    and exactly 1 at [good_value] and beyond it, with no rounding error:
    for a finite [bad_value] and a [good_value] at a finite, non-zero
    distance from it, an error on the far side of [good_value] (the
    threshold itself included) gets a reward equal to 1, and an error on
    the far side of [bad_value] a reward equal to 0. *)
Theorem linear_clipped_saturation
    (libm : Libm) (bad_value good_value error : float) :
  is_finite bad_value = true -> is_finite (good_value - bad_value) = true ->
  (bad_value =? good_value)%float = false -> isnan error = false ->
  exists r,
    call libm (LinearClippedReward bad_value good_value) [error] = Ok [PyFloat r] /\
    ((bad_value <=? good_value)%float && (good_value <=? error)%float
     || (good_value <=? bad_value)%float && (error <=? good_value)%float = true ->
     (r =? 1)%float = true) /\
    ((bad_value <=? good_value)%float && (error <=? bad_value)%float
     || (good_value <=? bad_value)%float && (bad_value <=? error)%float = true ->
     (r =? 0)%float = true).
Proof.
  unfold isnan. intros Fb Fd Hne Ne.
  destruct (linear_reward_endpoints libm bad_value good_value Fb Fd Hne)
    as (r0 & r1 & Hr0 & Hr1 & E0 & E1).
  destruct (linear_scale_val error bad_value good_value Ne Fb Fd Hne) as (s & Hs & Ns & _).
  destruct (fval_clip_value s 0 1 Ns eq_refl eq_refl) as [Nc Ec].
  rewrite fval_zero, fval_one in Ec. pose proof Zone_pos as HO.
  assert (Hr : reward libm (LinearClippedReward bad_value good_value) error
               = Ok (PyFloat (clip_value s 0 1))).
  { cbn [reward]. rewrite Hs. reflexivity. }
  exists (clip_value s 0 1). unfold call. cbn [list_comp]. rewrite Hr. cbn [bind].
  split; [reflexivity|].
  apply eqb_true_iff in E0, E1.
  destruct E0 as (N0 & _ & E0), E1 as (N1 & _ & E1).
  rewrite fval_zero in E0. rewrite fval_one in E1.
  split; intros Hdir.
  - pose proof (linear_clipped_reward_mono libm bad_value good_value good_value error
                  r1 _ Hdir Hr1 Hr N1 Nc) as L.
    apply leb_true_iff in L. destruct L as (_ & _ & L).
    apply eqb_true_iff. rewrite fval_one. split; [assumption | split; [reflexivity | lia]].
  - pose proof (linear_clipped_reward_mono libm bad_value good_value error bad_value
                  _ r0 Hdir Hr Hr0 Nc N0) as L.
    apply leb_true_iff in L. destruct L as (_ & _ & L).
    apply eqb_true_iff. rewrite fval_zero. split; [assumption | split; [reflexivity | lia]].
Qed.

(** Thresholds 0.7 (bad) and 0.1 (good), neither of which is a binary
    fraction, at the error [good_value]. *)
Lemma linear_clipped_saturation_witness :
  is_finite 0x1.6666666666666p-1 = true /\
  is_finite (0x1.999999999999ap-4 - 0x1.6666666666666p-1) = true /\
  (0x1.6666666666666p-1 =? 0x1.999999999999ap-4)%float = false /\
  isnan 0x1.999999999999ap-4 = false /\
  exists r,
    call ref_libm (LinearClippedReward 0x1.6666666666666p-1 0x1.999999999999ap-4)
         [0x1.999999999999ap-4]%float = Ok [PyFloat r] /\
    ((0x1.6666666666666p-1 <=? 0x1.999999999999ap-4)%float
     && (0x1.999999999999ap-4 <=? 0x1.999999999999ap-4)%float
     || (0x1.999999999999ap-4 <=? 0x1.6666666666666p-1)%float
        && (0x1.999999999999ap-4 <=? 0x1.999999999999ap-4)%float = true ->
     (r =? 1)%float = true) /\
    ((0x1.6666666666666p-1 <=? 0x1.999999999999ap-4)%float
     && (0x1.999999999999ap-4 <=? 0x1.6666666666666p-1)%float
     || (0x1.999999999999ap-4 <=? 0x1.6666666666666p-1)%float
        && (0x1.6666666666666p-1 <=? 0x1.999999999999ap-4)%float = true ->
     (r =? 0)%float = true).
Proof.
  split; [reflexivity|]. split; [reflexivity|]. split; [reflexivity|].
  split; [reflexivity|].
  exact (linear_clipped_saturation ref_libm 0x1.6666666666666p-1 0x1.999999999999ap-4
           0x1.999999999999ap-4 eq_refl eq_refl eq_refl eq_refl).
Defined.


(** ** Saturation of [SoftPlusReward] *)

Lemma mul_finite_not_nan (c x : float) :
  is_finite c = true -> fval c <> 0 -> is_nan x = false -> is_nan (c * x) = false.
Proof.
  rewrite !is_nan_spec, is_finite_spec. unfold fval. rewrite mul_spec. unfold SF64mul.
  pose proof (Prim2SF_valid c) as Vc. pose proof (Prim2SF_valid x) as Vx.
  destruct (Prim2SF c) as [sc | sc | | sc mc ec], (Prim2SF x) as [sx | sx | | sx mx ex];
    intros Fc NZ Nx; try discriminate; try reflexivity;
    try (exfalso; apply NZ; reflexivity).
  cbn [valid_binary] in Vc, Vx.
  rewrite SFmul_finite_rn by assumption. apply rn_signed_not_nan.
Qed.

(** Twice a positive number, clipped to [[0, 1]]: positive, at most one,
    and exactly one from 0.5 on. *)
Lemma double_clip_range (l : float) :
  (0 <? l)%float = true ->
  (0 <? clip_value (2 * l) 0 1)%float = true /\
  (clip_value (2 * l) 0 1 <=? 1)%float = true /\
  ((0.5 <=? l)%float = true -> clip_value (2 * l) 0 1 = 1%float).
Proof.
  intros Hl0.
  apply ltb_true_iff in Hl0. destruct Hl0 as (_ & Nl & Hl0). rewrite fval_zero in Hl0.
  assert (F2 : fval 2 <> 0 /\ 0 <= fval 2).
  { assert (H2 : (0 <? 2)%float = true) by reflexivity.
    apply ltb_true_iff in H2. rewrite fval_zero in H2. lia. }
  assert (N2 : is_nan (2 * l) = false)
    by (apply mul_finite_not_nan; [reflexivity | apply F2 | exact Nl]).
  assert (P2 : 0 < fval (2 * l)).
  { assert (Ht : fval 0x1p-1074 = 1) by reflexivity.
    pose proof (mul_mono_l 2 0x1p-1074 l eq_refl N2 ltac:(lia) (proj2 F2)) as H.
    assert (Hp : (0 <? 2 * 0x1p-1074)%float = true) by reflexivity.
    apply ltb_true_iff in Hp. rewrite fval_zero in Hp. lia. }
  destruct (fval_clip_value (2 * l) 0 1 N2 eq_refl eq_refl) as [Nc Ec].
  rewrite fval_zero, fval_one in Ec. pose proof Zone_pos as HO.
  split; [|split].
  - apply ltb_true_iff. rewrite fval_zero. split; [reflexivity | split; [assumption | lia]].
  - apply leb_true_iff. rewrite fval_one. split; [assumption | split; [reflexivity | lia]].
  - intros Hle. apply leb_true_iff in Hle. destruct Hle as (_ & _ & Hle).
    pose proof (mul_mono_l 2 0.5 l eq_refl N2 Hle (proj2 F2)) as H1.
    change (2 * 0.5)%float with 1%float in H1.
    unfold clip_value, isnan, py_min. rewrite N2.
    assert (L : (2 * l <? 1)%float = false) by (apply ltb_false_iff; auto).
    rewrite L. reflexivity.
Qed.

(** X19. Under [exp_spec], wherever the rescaled error is a number,
    [SoftPlusReward] returns a reward in [(0, 1]]: never zero.  Wherever
    the rescaled error is [>= 0] the reward is exactly 1.0: there the
    logistic value is at least 0.5, its double at least 1, and the clip
    cuts it to 1. *)
Theorem soft_plus_reward_range
    (libm : Libm) (bad_value good_value sharpness error s : float) :
  exp_spec (c_exp libm) ->
  scale_value error bad_value good_value sharpness 0 = Ok s ->
  isnan s = false ->
  exists r,
    reward libm (SoftPlusReward bad_value good_value sharpness) error = Ok (PyFloat r) /\
    (0 <? r)%float = true /\ (r <=? 1)%float = true /\
    ((0 <=? s)%float = true -> r = 1%float).
Proof.
  unfold isnan. intros Hexp Hs Ns. cbn [reward]. rewrite Hs. cbn [bind].
  destruct (logistic_value_range libm Hexp s Ns) as (l & El & Hl0 & Hl1).
  rewrite El. cbn [bind].
  destruct (double_clip_range l Hl0) as (H0 & H1 & Hone).
  exists (clip_value (2 * l) 0 1). split; [reflexivity|].
  split; [exact H0 | split; [exact H1|]].
  intros Hs0. apply Hone.
  destruct (logistic_value_mono libm Hexp 0 s Hs0) as (l0 & l' & E0 & El' & Hle).
  rewrite (logistic_value_zero libm Hexp) in E0. apply Ok_inv in E0. subst l0.
  rewrite El in El'. apply Ok_inv in El'. subst l'. exact Hle.
Qed.

(** [SoftPlusReward(bad_value=1, good_value=0, sharpness=-3)] at the error
    [0 = good_value]. *)
Lemma soft_plus_reward_range_witness :
  exp_spec (c_exp ref_libm) /\
  scale_value 0 1 0 (-3) 0 = Ok 0%float /\
  isnan 0 = false /\
  exists r,
    reward ref_libm (SoftPlusReward 1 0 (-3)) 0 = Ok (PyFloat r) /\
    (0 <? r)%float = true /\ (r <=? 1)%float = true /\
    ((0 <=? 0)%float = true -> r = 1%float).
Proof.
  split; [exact ref_exp_spec|]. split; [reflexivity|]. split; [reflexivity|].
  exact (soft_plus_reward_range ref_libm 1 0 (-3) 0 0 ref_exp_spec eq_refl eq_refl).
Defined.


(** ** The domain of [LogReward] *)

Lemma add_finite_not_nan (x y : float) :
  is_nan x = false -> is_finite y = true -> is_nan (x + y) = false.
Proof.
  rewrite !is_nan_spec, is_finite_spec, add_spec. unfold SF64add.
  pose proof (Prim2SF_valid x) as Vx. pose proof (Prim2SF_valid y) as Vy.
  destruct (Prim2SF x) as [sx | sx | | sx mx ex], (Prim2SF y) as [sy | sy | | sy my ey];
    intros Nx Fy; try discriminate; try reflexivity.
  - destruct sx, sy; reflexivity.
  - cbn [valid_binary] in Vx, Vy.
    pose proof (proj1 (bounded_canonical mx ex Vx)).
    pose proof (proj1 (bounded_canonical my ey Vy)).
    rewrite SFadd_finite_rn by lia. apply rn_signed_not_nan.
Qed.

(** Rounding never takes a non-zero value to zero: the smallest positive
    float is the unit. *)
Lemma rnZ_pos (N : Z) : 1 <= N -> 1 <= rnZ N 1.
Proof.
  intros HN.
  assert (E : rnZ 1 1 = 1).
  { change 1 with (Zval (S754_finite false 1 (-1074))) at 1 3.
    apply rnZ_Zval; reflexivity. }
  rewrite <- E at 1. apply rnZ_mono; lia.
Qed.

(** X20. The domain of [LogReward] ends exactly at [-offset], with no
    rounding gap: for a finite offset, every error [<= -offset] raises
    [ValueError], and for every error [> -offset] the sum handed to
    [math.log] is positive, so that the call returns the platform's
    logarithm of it (or infinity when the sum overflows). *)
Theorem log_reward_domain (libm : Libm) (offset error : float) :
  is_finite offset = true -> isnan error = false ->
  ((error <=? - offset)%float = true ->
   reward libm (LogReward offset) error = Raise ValueError) /\
  ((- offset <? error)%float = true ->
   (0 <? error + offset)%float = true /\
   reward libm (LogReward offset) error
   = if is_finite (error + offset)
     then if is_finite (c_log libm (error + offset))
          then Ok (PyFloat (c_log libm (error + offset)))
          else Raise ValueError
     else Ok (PyFloat infinity)).
Proof.
  unfold isnan. intros Fo Ne.
  pose proof (add_finite_not_nan error offset Ne Fo) as Ns.
  destruct (add_val _ _ Ns) as (_ & No & Es).
  cbn [reward]. split; intros H.
  - apply leb_true_iff in H. destruct H as (_ & _ & H).
    rewrite (fval_opp offset) in H.
    rewrite math_log_nonpositive; [reflexivity|].
    apply leb_true_iff. rewrite fval_zero, Es. split; [assumption | split; [reflexivity|]].
    rewrite <- (rnZ_zero 1) by lia. apply rnZ_mono; lia.
  - apply ltb_true_iff in H. destruct H as (_ & _ & H).
    rewrite (fval_opp offset) in H.
    assert (P : 1 <= fval (error + offset)) by (rewrite Es; apply rnZ_pos; lia).
    assert (L : (0 <? error + offset)%float = true).
    { apply ltb_true_iff. rewrite fval_zero. split; [reflexivity | split; [assumption | lia]]. }
    split; [exact L|].
    destruct (is_finite (error + offset)) eqn:F.
    + rewrite math_log_positive by assumption.
      destruct (is_finite (c_log libm (error + offset))); reflexivity.
    + assert (E : (error + offset)%float = infinity).
      { apply fval_inf_eq; [assumption|].
        pose proof (fval_range (error + offset)) as [_ Hhi].
        destruct (Z.eq_dec (fval (error + offset)) Zinf) as [|NE]; [assumption | exfalso].
        assert (F' : is_finite (error + offset) = true)
          by (apply is_finite_true_iff; split; [assumption | pose proof Zinf_pos; lia]).
        congruence. }
      rewrite E. reflexivity.
Qed.

(** The default offset [1e-4] at the errors [-1e-4] and [0]. *)
Lemma log_reward_domain_witness :
  is_finite 0x1.a36e2eb1c432dp-14 = true /\
  isnan (-0x1.a36e2eb1c432dp-14) = false /\ isnan 0 = false /\
  (-0x1.a36e2eb1c432dp-14 <=? - 0x1.a36e2eb1c432dp-14)%float = true /\
  (- 0x1.a36e2eb1c432dp-14 <? 0)%float = true /\
  reward ref_libm LogReward_default (-0x1.a36e2eb1c432dp-14) = Raise ValueError /\
  (0 <? 0 + 0x1.a36e2eb1c432dp-14)%float = true /\
  reward ref_libm LogReward_default 0
  = if is_finite (0 + 0x1.a36e2eb1c432dp-14)
    then if is_finite (c_log ref_libm (0 + 0x1.a36e2eb1c432dp-14))
         then Ok (PyFloat (c_log ref_libm (0 + 0x1.a36e2eb1c432dp-14)))
         else Raise ValueError
    else Ok (PyFloat infinity).
Proof.
  split; [reflexivity|]. split; [reflexivity|]. split; [reflexivity|].
  split; [reflexivity|]. split; [reflexivity|].
  split.
  - exact (proj1 (log_reward_domain ref_libm 0x1.a36e2eb1c432dp-14
                    (-0x1.a36e2eb1c432dp-14) eq_refl eq_refl) eq_refl).
  - exact (proj2 (log_reward_domain ref_libm 0x1.a36e2eb1c432dp-14 0 eq_refl eq_refl)
             eq_refl).
Defined.


(** ** The default sharpness *)

Lemma call_pair_inv (libm : Libm) (t : RewardTransform) (e e' : float) (v v' : pynum) :
  call libm t [e; e'] = Ok [v; v'] ->
  reward libm t e = Ok v /\ reward libm t e' = Ok v'.
Proof.
  unfold call. intros Hc. apply list_comp_Forall2 in Hc.
  inversion Hc as [|? ? ? ? Hr Hc']; subst.
  inversion Hc' as [|? ? ? ? Hr' _]; subst. auto.
Qed.

(** X21. With the default sharpness the rescaling transforms are oriented,
    hence monotone: on a platform whose [exp] satisfies [exp_spec], whose
    [log(19)] is not negative and whose [log(0.1)] is a finite number that
    is not positive, the three default constructors succeed, and in every
    instance they build an error at least as far towards [good_value] as
    another never earns a smaller reward. *)
Theorem default_sharpness_monotone (libm : Libm) (bad_value good_value : float) :
  exp_spec (c_exp libm) ->
  (0 <=? c_log libm 19)%float = true ->
  (c_log libm 0x1.999999999999ap-4 <=? 0)%float = true ->
  is_finite (c_log libm 0x1.999999999999ap-4) = true ->
  exists tn,
    NegExpReward_default libm bad_value good_value = Ok tn /\
    forall t e e' r r',
      In t [SoftPlusReward_default libm bad_value good_value; tn;
            SigmoidReward_default libm bad_value good_value] ->
      (bad_value <=? good_value)%float && (e <=? e')%float
      || (good_value <=? bad_value)%float && (e' <=? e)%float = true ->
      call libm t [e; e'] = Ok [PyFloat r; PyFloat r'] ->
      isnan r = false -> isnan r' = false ->
      (r <=? r')%float = true.
Proof.
  intros Hexp H19 H01 F01.
  exists (NegExpReward bad_value good_value (- c_log libm 0x1.999999999999ap-4)%float).
  split.
  - unfold NegExpReward_default.
    rewrite (math_log_positive libm 0x1.999999999999ap-4 eq_refl eq_refl), F01.
    reflexivity.
  - intros t e e' r r' Ht Hdir Hc Nr Nr'.
    destruct (call_pair_inv libm t e e' _ _ Hc) as [Hr Hr'].
    apply leb_true_iff in H19, H01.
    destruct H19 as (_ & N19 & H19), H01 as (N01 & _ & H01).
    rewrite fval_zero in H19, H01.
    apply (rescaling_reward_mono libm t bad_value good_value e e' r r' Hexp);
      try assumption;
      destruct Ht as [<- | [<- | [<- | []]]]; try reflexivity;
      cbn [oriented SoftPlusReward_default SigmoidReward_default];
      change (m_log libm 19) with (c_log libm 19);
      apply leb_true_iff;
      rewrite ?(is_nan_opp (c_log libm 19)), ?(fval_opp (c_log libm 19)),
        ?(is_nan_opp (c_log libm 0x1.999999999999ap-4)),
        ?(fval_opp (c_log libm 0x1.999999999999ap-4)), ?fval_zero;
      (split; [first [assumption | reflexivity]
              | split; [first [assumption | reflexivity] | lia]]).
Qed.

(** The reference library's [log(19)] and [log(0.1)]. *)
Lemma ref_log_values :
  c_log ref_libm 19 = 0x1.78e360604b32cp+1%float /\
  c_log ref_libm 0x1.999999999999ap-4 = (-0x1.26bb1bbb55515p+1)%float.
Proof. split; vm_compute; reflexivity. Qed.

Lemma ref_log_signs :
  (0 <=? c_log ref_libm 19)%float = true /\
  (c_log ref_libm 0x1.999999999999ap-4 <=? 0)%float = true /\
  is_finite (c_log ref_libm 0x1.999999999999ap-4) = true.
Proof.
  destruct ref_log_values as [E19 E01]. rewrite E19, E01.
  split; [reflexivity|]. split; reflexivity.
Qed.

Lemma default_sharpness_monotone_witness :
  exp_spec (c_exp ref_libm) /\
  (0 <=? c_log ref_libm 19)%float = true /\
  (c_log ref_libm 0x1.999999999999ap-4 <=? 0)%float = true /\
  is_finite (c_log ref_libm 0x1.999999999999ap-4) = true /\
  exists tn,
    NegExpReward_default ref_libm 10 0 = Ok tn /\
    forall t e e' r r',
      In t [SoftPlusReward_default ref_libm 10 0; tn;
            SigmoidReward_default ref_libm 10 0] ->
      (10 <=? 0)%float && (e <=? e')%float
      || (0 <=? 10)%float && (e' <=? e)%float = true ->
      call ref_libm t [e; e'] = Ok [PyFloat r; PyFloat r'] ->
      isnan r = false -> isnan r' = false ->
      (r <=? r')%float = true.
Proof.
  split; [exact ref_exp_spec|].
  split; [exact (proj1 ref_log_signs)|].
  split; [exact (proj1 (proj2 ref_log_signs))|].
  split; [exact (proj2 (proj2 ref_log_signs))|].
  exact (default_sharpness_monotone ref_libm 10 0 ref_exp_spec
           (proj1 ref_log_signs) (proj1 (proj2 ref_log_signs))
           (proj2 (proj2 ref_log_signs))).
Defined.


(** ** Parity of [PowerReward] *)

Lemma is_infinity_opp (x : float) : is_infinity (- x) = is_infinity x.
Proof. unfold is_infinity. rewrite abs_opp. reflexivity. Qed.

Lemma eqb_zero_opp (x : float) : (- x =? 0)%float = (x =? 0)%float.
Proof.
  rewrite !eqb_zero_spec, opp_spec.
  destruct (Prim2SF x) as [s | s | | s m e]; reflexivity.
Qed.

Lemma ltb_zero_opp (x : float) :
  is_nan x = false -> (x =? 0)%float = false ->
  (- x <? 0)%float = negb (x <? 0)%float.
Proof.
  intros Nx Z. apply eqb_false_iff in Z. rewrite fval_zero in Z.
  destruct Z as [Z | [Z | Z]]; [congruence | discriminate Z|].
  destruct (x <? 0)%float eqn:L; cbn [negb].
  - apply ltb_true_iff in L. rewrite fval_zero in L.
    apply ltb_false_iff. rewrite (fval_opp x), fval_zero. right. right. lia.
  - apply ltb_false_iff in L. rewrite fval_zero in L.
    destruct L as [L | [L | L]]; [congruence | discriminate L|].
    apply ltb_true_iff. rewrite (is_nan_opp x), (fval_opp x), fval_zero.
    split; [assumption | split; [reflexivity | lia]].
Qed.

Lemma is_infinity_cases (x : float) :
  is_infinity x = true -> x = infinity \/ x = neg_infinity.
Proof.
  intros H. apply is_infinity_true_iff in H. destruct H as (Nx & [H | H]).
  - left. apply fval_inf_eq; assumption.
  - right. rewrite <- (opp_involutive x).
    rewrite (fval_inf_eq (- x)); [reflexivity | rewrite is_nan_opp; exact Nx |].
    rewrite fval_opp. lia.
Qed.

Lemma eqb_zero_cases (x : float) :
  (x =? 0)%float = true -> x = 0%float \/ x = (-0)%float.
Proof.
  rewrite eqb_zero_spec. intros H.
  destruct (Prim2SF x) as [s | s | | s m e] eqn:E; try discriminate H.
  destruct s; [right | left]; apply Prim2SF_inj; rewrite E; reflexivity.
Qed.

Lemma odd_integer_zero (w : float) :
  (w =? 0)%float = true -> float_is_odd_integer w = false.
Proof.
  intros H. destruct (eqb_zero_cases w H) as [-> | ->]; reflexivity.
Qed.

(** [(-v) ** w] for an integer [w]: the sign of the base comes out of an odd
    power and disappears in an even one, exceptions included. *)
Lemma float_pow_parity (libm : Libm) (v w : float) :
  is_finite w = true -> float_is_integer w = true ->
  float_pow libm (- v) w
  = if float_is_odd_integer w
    then r <- float_pow libm v w ;; Ok (neg_pynum r)
    else float_pow libm v w.
Proof.
  intros Fw Iw.
  apply is_finite_true_iff in Fw. destruct Fw as (Nw & Fw).
  assert (Iinf : is_infinity w = false) by (apply is_infinity_false_iff; auto).
  destruct (w =? 0)%float eqn:W0.
  - rewrite (odd_integer_zero w W0). unfold float_pow. rewrite W0. reflexivity.
  - destruct (is_nan v) eqn:Nv.
    { apply is_nan_eq in Nv. subst v. unfold float_pow. rewrite W0.
      destruct (float_is_odd_integer w); reflexivity. }
    destruct (is_infinity v) eqn:Iv.
    { destruct (is_infinity_cases v Iv) as [-> | ->];
        unfold float_pow; rewrite W0, Nw, Iinf;
        destruct (float_is_odd_integer w), (0 <? w)%float; reflexivity. }
    destruct (v =? 0)%float eqn:V0.
    { destruct (eqb_zero_cases v V0) as [-> | ->];
        unfold float_pow; rewrite W0, Nw, Iinf;
        destruct (float_is_odd_integer w), (w <? 0)%float; reflexivity. }
    unfold float_pow.
    rewrite W0, Nw, Iinf, (is_nan_opp v), (is_infinity_opp v), (eqb_zero_opp v),
      Nv, Iv, V0, Iw, (ltb_zero_opp v Nv V0).
    cbn [negb]. rewrite !andb_false_r.
    destruct (v <? 0)%float; cbn [negb andb]; rewrite ?opp_involutive;
      destruct (float_is_odd_integer w); cbn [andb]; try reflexivity.
    + destruct (- v =? 1)%float; [reflexivity|].
      destruct (is_infinity (c_pow libm (- v) w)); cbn [bind neg_pynum];
        rewrite ?opp_involutive; reflexivity.
    + destruct (v =? 1)%float; [reflexivity|].
      destruct (is_infinity (c_pow libm v w)); reflexivity.
Qed.

(** X22. [PowerReward] with a finite integer exponent is an odd or an even
    function of the errors, exactly and on every platform: negating the
    errors negates every reward when the exponent is odd and changes
    nothing when it is even, and the call on the negated errors raises
    exactly when the call on the errors does, with the same exception. *)
Theorem power_reward_parity
    (libm : Libm) (exponent : float) (errors : list float) :
  is_finite exponent = true -> float_is_integer exponent = true ->
  call libm (PowerReward exponent) (map (fun e => (- e)%float) errors)
  = if float_is_odd_integer exponent
    then out <- call libm (PowerReward exponent) errors ;; Ok (map neg_pynum out)
    else call libm (PowerReward exponent) errors.
Proof.
  intros Fw Iw. unfold call.
  pose proof (fun v => float_pow_parity libm v exponent Fw Iw) as P.
  destruct (float_is_odd_integer exponent).
  - induction errors as [|e errors IH]; cbn [map list_comp bind reward]; [reflexivity|].
    rewrite P, IH.
    destruct (float_pow libm e exponent) as [r | err]; cbn [bind]; [|reflexivity].
    destruct (list_comp (reward libm (PowerReward exponent)) errors)
      as [out | err]; reflexivity.
  - induction errors as [|e errors IH]; cbn [map list_comp bind reward]; [reflexivity|].
    rewrite P, IH. reflexivity.
Qed.

(** The exponents 3 (odd) on the errors [[-2, 0.5]]. *)
Lemma power_reward_parity_witness :
  is_finite 3 = true /\ float_is_integer 3 = true /\
  call ref_libm (PowerReward 3) (map (fun e => (- e)%float) [-2; 0.5]%float)
  = if float_is_odd_integer 3
    then out <- call ref_libm (PowerReward 3) [-2; 0.5]%float ;; Ok (map neg_pynum out)
    else call ref_libm (PowerReward 3) [-2; 0.5]%float.
Proof.
  split; [reflexivity|]. split; [reflexivity|].
  exact (power_reward_parity ref_libm 3 [-2; 0.5]%float eq_refl eq_refl).
Defined.


(** ** The logistic transforms on numbers *)

Lemma mul_finite_not_nan_r (x c : float) :
  is_nan x = false -> is_finite c = true -> fval c <> 0 -> is_nan (x * c) = false.
Proof.
  rewrite !is_nan_spec, is_finite_spec. unfold fval. rewrite mul_spec. unfold SF64mul.
  pose proof (Prim2SF_valid c) as Vc. pose proof (Prim2SF_valid x) as Vx.
  destruct (Prim2SF x) as [sx | sx | | sx mx ex], (Prim2SF c) as [sc | sc | | sc mc ec];
    intros Nx Fc NZ; try discriminate; try reflexivity;
    try (exfalso; apply NZ; reflexivity).
  cbn [valid_binary] in Vc, Vx.
  rewrite SFmul_finite_rn by assumption. apply rn_signed_not_nan.
Qed.

Lemma add_finite_not_nan_l (a q : float) :
  is_finite a = true -> is_nan q = false -> is_nan (a + q) = false.
Proof.
  rewrite !is_nan_spec, is_finite_spec, add_spec. unfold SF64add.
  pose proof (Prim2SF_valid a) as Va. pose proof (Prim2SF_valid q) as Vq.
  destruct (Prim2SF a) as [sa | sa | | sa ma ea], (Prim2SF q) as [sq | sq | | sq mq eq];
    intros Fa Nq; try discriminate; try reflexivity.
  - destruct sa, sq; reflexivity.
  - cbn [valid_binary] in Va, Vq.
    pose proof (proj1 (bounded_canonical ma ea Va)).
    pose proof (proj1 (bounded_canonical mq eq Vq)).
    rewrite SFadd_finite_rn by lia. apply rn_signed_not_nan.
Qed.

Lemma finite_range_sub (x y : float) :
  finite_range x y = true ->
  is_finite x = true /\ is_finite (y - x) = true /\ fval (y - x) <> 0.
Proof.
  unfold finite_range. intros H.
  apply andb_true_iff in H. destruct H as [H Hne].
  apply andb_true_iff in H. destruct H as [Fx Fd].
  apply negb_true_iff in Hne.
  split; [assumption | split; [assumption|]].
  assert (Nd : is_nan (y - x) = false) by (apply is_finite_true_iff in Fd; apply Fd).
  destruct (sub_val _ _ Nd) as (Ny & _ & _).
  assert (Hd : sf_nonzero (Prim2SF (y - x)) = true).
  { apply sub_nonzero; try assumption.
    apply eqb_false_iff in Hne. apply eqb_false_iff.
    destruct Hne as [H | [H | H]]; auto. }
  assert (Hz : (y - x =? 0)%float = false) by (rewrite eqb_zero_spec, Hd; reflexivity).
  apply eqb_false_iff in Hz. rewrite fval_zero in Hz.
  destruct Hz as [H | [H | H]]; [congruence | discriminate H | exact H].
Qed.

(** Rescaling between two finite ranges takes numbers to numbers. *)
Lemma scale_value_number (v m M a b : float) :
  is_nan v = false -> finite_range m M = true -> finite_range a b = true ->
  exists s, scale_value v m M a b = Ok s /\ is_nan s = false.
Proof.
  intros Nv Hm Ha.
  destruct (finite_range_sub m M Hm) as (Fm & Fd & Dnz).
  destruct (finite_range_sub a b Ha) as (Fa & Fc & Cnz).
  pose proof (sub_finite_not_nan v m Nv Fm) as Nu.
  pose proof (mul_finite_not_nan_r _ _ Nu Fc Cnz) as Np.
  pose proof (div_finite_not_nan _ _ Np Fd Dnz) as Nq.
  pose proof (add_finite_not_nan_l a _ Fa Nq) as Ns.
  exists (a + (v - m) * (b - a) / (M - m))%float. split; [|exact Ns].
  unfold scale_value, float_div.
  assert (Hz : (M - m =? 0)%float = false).
  { apply eqb_false_iff. rewrite fval_zero. right. right. exact Dnz. }
  rewrite Hz. reflexivity.
Qed.

(** X23. [SoftPlusReward] and [SigmoidReward] take numbers to numbers:
    under [exp_spec], for instances built from finite thresholds and
    sharpness (distinct thresholds, a non-zero sharpness range), a call on
    errors that are not NaN (infinite errors included) returns one reward
    per error, each a number in [(0, 1]]. *)
Theorem logistic_rewards_number
    (libm : Libm) (t : RewardTransform) (errors : list float) :
  exp_spec (c_exp libm) -> logistic_parameters t = true ->
  Forall (fun e => isnan e = false) errors ->
  exists out,
    call libm t errors = Ok (map PyFloat out) /\
    length out = length errors /\
    Forall (fun r => (0 <? r)%float = true /\ (r <=? 1)%float = true) out.
Proof.
  intros Hexp Ht Herr.
  assert (R : forall e, isnan e = false ->
              exists r, reward libm t e = Ok (PyFloat r) /\
                        (0 <? r)%float = true /\ (r <=? 1)%float = true).
  { intros e Ne.
    destruct t as [nz | | | w | off | bad good | bad good sh | bad good sh
                   | bad good lo hi]; try discriminate Ht;
      cbn [logistic_parameters] in Ht; apply andb_true_iff in Ht;
      destruct Ht as [Hm Ha];
      destruct (scale_value_number e _ _ _ _ Ne Hm Ha) as (s & Hs & Ns).
    - destruct (logistic_value_range libm Hexp s Ns) as (l & Hl & H0 & _).
      destruct (double_clip_range l H0) as (C0 & C1 & _).
      exists (clip_value (2 * l) 0 1). cbn [reward]. rewrite Hs. cbn [bind].
      rewrite Hl. auto.
    - destruct (logistic_value_range libm Hexp s Ns) as (l & Hl & H0 & H1).
      exists l. cbn [reward]. rewrite Hs. cbn [bind]. rewrite Hl. auto. }
  unfold call. induction Herr as [|e errors He _ IH].
  - exists []. repeat split; constructor.
  - destruct IH as (out & Hout & Hlen & Hall).
    destruct (R e He) as (r & Hr & H0 & H1).
    exists (r :: out). cbn [list_comp map]. rewrite Hr, Hout. cbn [bind].
    split; [reflexivity|]. split; [cbn [length]; congruence|].
    constructor; [split; assumption | exact Hall].
Qed.

(** [SigmoidReward(bad_value=1, good_value=0, low_sharpness=-3,
    high_sharpness=3)] on a finite and an infinite error. *)
Lemma logistic_rewards_number_witness :
  exp_spec (c_exp ref_libm) /\
  logistic_parameters (SigmoidReward 1 0 (-3) 3) = true /\
  Forall (fun e => isnan e = false) [0.5%float; infinity] /\
  exists out,
    call ref_libm (SigmoidReward 1 0 (-3) 3) [0.5%float; infinity] = Ok (map PyFloat out) /\
    length out = length [0.5%float; infinity] /\
    Forall (fun r => (0 <? r)%float = true /\ (r <=? 1)%float = true) out.
Proof.
  assert (H : Forall (fun e => isnan e = false) [0.5%float; infinity])
    by (repeat constructor).
  split; [exact ref_exp_spec|]. split; [reflexivity|]. split; [exact H|].
  exact (logistic_rewards_number ref_libm (SigmoidReward 1 0 (-3) 3)
           [0.5%float; infinity] ref_exp_spec eq_refl H).
Defined.
